(** * AI MCQ Generator backend: a shallow embedding of [backend/main.py]

    The development follows the source file top to bottom: Python text and
    the helpers the code relies on ([str.split], [str.join], slicing), the
    chunker, the [json] decoder and the two regular expressions of the
    response parser, the record validator, the generation client and the
    orchestrator.  The theorems about them come after the definitions. *)

From Stdlib Require Import String Ascii DecimalString.
From stdpp Require Import base list option numbers.

Local Open Scope Z_scope.

(** ** Python text

    A Python [str] is a sequence of Unicode code points; [len] counts code
    points and [str.split] looks at each of them, so text is a list of code
    points, not of bytes. *)

Abbreviation pystr := (list N).

(** [len(x)] as a Python integer. *)
Definition len {A} (l : list A) : Z := Z.of_nat (length l).

(** An ASCII literal as Python text. *)
Definition py (s : string) : pystr :=
  map N_of_ascii (list_ascii_of_string s).

(** The same with every apostrophe read as a double quote (code point 34),
    for literals that contain JSON. *)
Definition pyq (s : string) : pystr :=
  map (fun c => if N.eqb c 39 then 34%N else c) (py s).

(** [str.isspace] on one code point: the characters [str.split()] treats as
    separators and the class [\s] of [re] on text. *)
Definition is_space (c : N) : bool :=
  ((9 <=? c) && (c <=? 13) || (28 <=? c) && (c <=? 32)
   || (c =? 133) || (c =? 160) || (c =? 5760)
   || (8192 <=? c) && (c <=? 8202)
   || (c =? 8232) || (c =? 8233) || (c =? 8239) || (c =? 8287)
   || (c =? 12288))%N.

(** [text.split()]: the maximal runs of non-space characters, in order.
    [cur] is the word being read. *)
Fixpoint split_from (cur : pystr) (s : pystr) : list pystr :=
  match s with
  | [] => match cur with [] => [] | _ => [cur] end
  | c :: r =>
      if is_space c
      then match cur with
           | [] => split_from [] r
           | _ => cur :: split_from [] r
           end
      else split_from (cur ++ [c]) r
  end.

Definition split (text : pystr) : list pystr := split_from [] text.

(** [sep.join(parts)]. *)
Fixpoint join (sep : pystr) (parts : list pystr) : pystr :=
  match parts with
  | [] => []
  | [x] => x
  | x :: rest => x ++ sep ++ join sep rest
  end.

Definition space : pystr := [32%N].

(** [text.strip()] is empty exactly when every character is a space. *)
Definition is_blank (text : pystr) : bool := forallb is_space text.

(** ** Configuration *)

Definition MAX_CHUNK_SIZE : Z := 2500.
Definition MAX_QUESTIONS_PER_CHUNK : Z := 5.

(** ** The chunker *)

(** One iteration of the loop over [words]; the state is
    [(chunks, current_chunk, current_size)]. *)
Definition chunk_step (max_size : Z)
    (st : list pystr * list pystr * Z) (word : pystr)
    : list pystr * list pystr * Z :=
  let '(chunks, current_chunk, current_size) := st in
  let word_size := len word + 1 in
  let '(chunks, current_chunk, current_size) :=
    if current_size + word_size >? max_size * 4
    then match current_chunk with
         | [] => (chunks, current_chunk, current_size)
         | _ => (chunks ++ [join space current_chunk], [], 0)
         end
    else (chunks, current_chunk, current_size) in
  (chunks, current_chunk ++ [word], current_size + word_size).

Definition chunk_text (text : pystr) (max_size : Z) : list pystr :=
  let words := split text in
  let '(chunks, current_chunk, _) :=
    fold_left (chunk_step max_size) words ([], [], 0) in
  let chunks :=
    match current_chunk with
    | [] => chunks
    | _ => chunks ++ [join space current_chunk]
    end in
  match chunks with
  | [] => [text]
  | _ => chunks
  end.

(** ** Exceptions

    Python exceptions the modelled code can raise or has to catch.  An
    [HTTPException] carries its status code and which of the source's
    [detail] messages it was built with. *)

Inductive http_detail :=
| CannotConnect        (* Cannot connect to Ollama ... *)
| RequestTimedOut      (* Ollama request timed out ... *)
| OllamaError          (* Ollama error: ... *)
| EmptyText            (* Text cannot be empty *)
| BadQuestionCount     (* Number of questions must be between 1 and 20 *)
| BadDifficulty        (* Difficulty must be easy, medium, or hard *)
| NoValidMCQs.         (* Failed to generate valid MCQs ... *)

Inductive exn :=
| JSONDecodeError
| RecursionError
| ValueError
| TypeError
| KeyError
| IndexError
| AttributeError
| ZeroDivisionError
| ValidationError
| HTTPException (status_code : Z) (detail : http_detail).

Inductive result (A : Type) :=
| Ok (a : A)
| Raise (e : exn).
Arguments Ok {A} a.
Arguments Raise {A} e.

Definition result_bind {A B} (m : result A) (k : A -> result B) : result B :=
  match m with
  | Ok a => k a
  | Raise e => Raise e
  end.

Declare Scope result_scope.
Delimit Scope result_scope with result.
Notation "'let*' x := m 'in' k" := (result_bind m (fun x => k))
  (at level 10, x name, m at level 100, k at level 200) : result_scope.

(** ** Decoded JSON values

    What [json.loads] builds: [None], [bool], [int], [float], [str], [list]
    and [dict].  A float keeps the text it was read from: its numeric value
    plays no part in the code.  A [dict] keeps its keys in insertion order,
    each key once. *)

#[warnings="-register-all"]
Inductive json :=
| JNull
| JBool (b : bool)
| JInt (z : Z)
| JFloat (lexeme : pystr)
| JString (s : pystr)
| JArray (items : list json)
| JObject (pairs : list (pystr * json)).

Definition pydict := list (pystr * json).

Fixpoint dict_get (key : pystr) (d : pydict) : option json :=
  match d with
  | [] => None
  | (k, v) :: rest => if decide (k = key) then Some v else dict_get key rest
  end.

(** [d[key] = value]: an existing key keeps its place and takes the new
    value. *)
Fixpoint dict_set (key : pystr) (value : json) (d : pydict) : pydict :=
  match d with
  | [] => [(key, value)]
  | (k, v) :: rest =>
      if decide (k = key) then (k, value) :: rest
      else (k, v) :: dict_set key value rest
  end.

(** [dict(pairs)]. *)
Definition dict_of_pairs (pairs : list (pystr * json)) : pydict :=
  fold_left (fun d kv => dict_set (fst kv) (snd kv) d) pairs [].

(** ** The interpreter's limits

    Two settings of the interpreter bound what [json.loads] decodes.  The
    scanner enters a recursive call for every array and object it opens, and
    the interpreter raises [RecursionError] when its stack has no room for
    one more: [recursion_left] is the number of containers that can be open
    at once where [json.loads] is called from.  [int] refuses a literal of
    more than [int_max_str_digits] digits with [ValueError]; the test is
    made from 641 digits on, and a limit of 0 turns it off
    ([sys.set_int_max_str_digits]). *)
Record interpreter := {
  recursion_left : nat;
  int_max_str_digits : nat
}.

(** [int(digits)] exceeds the limit for integer string conversion. *)
Definition exceeds_int_max_str_digits (lim : interpreter) (digits : pystr)
    : bool :=
  ((640 <? length digits) && (0 <? int_max_str_digits lim)
   && (int_max_str_digits lim <? length digits))%nat.

(** ** The JSON decoder ([json.loads])

    A recursive-descent scanner over the remaining input, as the decoder of
    the standard library is: [scan_once] reads one value, [JSONArray] and
    [JSONObject] read the containers.  A scan gives a value and the rest of
    the input ([Scanned]), finds the input malformed ([Invalid], the
    decoder's [JSONDecodeError]) or is stopped by an error of the
    interpreter ([Stopped]).  The recursion is on a fuel argument;
    [json_loads] supplies enough of it for any input. *)

Inductive scan (A : Type) :=
| Scanned (a : A) (rest : pystr)
| Invalid
| Stopped (e : exn)
| Exhausted.
Arguments Scanned {A} a rest.
Arguments Invalid {A}.
Arguments Stopped {A} e.
Arguments Exhausted {A}.

Fixpoint starts_with (p s : pystr) : bool :=
  match p, s with
  | [], _ => true
  | a :: p', b :: s' => (a =? b)%N && starts_with p' s'
  | _ :: _, [] => false
  end.

(** The decoder's [WHITESPACE]: space, tab, line feed, carriage return. *)
Definition is_json_ws (c : N) : bool :=
  ((c =? 32) || (c =? 9) || (c =? 10) || (c =? 13))%N.

Fixpoint skip_ws (s : pystr) : pystr :=
  match s with
  | c :: r => if is_json_ws c then skip_ws r else s
  | [] => []
  end.

Definition is_digit (c : N) : bool := ((48 <=? c) && (c <=? 57))%N.

Definition hex_digit (c : N) : option N :=
  (if (48 <=? c) && (c <=? 57) then Some (c - 48)
   else if (97 <=? c) && (c <=? 102) then Some (c - 87)
   else if (65 <=? c) && (c <=? 70) then Some (c - 55)
   else None)%N.

(** The four hex digits of a [\uXXXX] escape. *)
Definition decode_uXXXX (a b c d : N) : option N :=
  match hex_digit a, hex_digit b, hex_digit c, hex_digit d with
  | Some x, Some y, Some z, Some w => Some (((x * 16 + y) * 16 + z) * 16 + w)%N
  | _, _, _, _ => None
  end.

(** The decoder's [BACKSLASH] table. *)
Definition backslash (esc : N) : option N :=
  (if esc =? 34 then Some 34          (* quote *)
   else if esc =? 92 then Some 92     (* backslash *)
   else if esc =? 47 then Some 47     (* slash *)
   else if esc =? 98 then Some 8      (* b *)
   else if esc =? 102 then Some 12    (* f *)
   else if esc =? 110 then Some 10    (* n *)
   else if esc =? 114 then Some 13    (* r *)
   else if esc =? 116 then Some 9     (* t *)
   else None)%N.

Definition is_high_surrogate (u : N) : bool := ((55296 <=? u) && (u <=? 56319))%N.
Definition is_low_surrogate (u : N) : bool := ((56320 <=? u) && (u <=? 57343))%N.

(** [scanstring], strict mode, from just after the opening quote: the
    decoded content and the input after the closing quote. *)
Fixpoint scanstring (s : pystr) : option (pystr * pystr) :=
  let emit (ch : N) (r : pystr) :=
    match scanstring r with
    | Some (content, rest) => Some (ch :: content, rest)
    | None => None
    end in
  match s with
  | [] => None
  | c :: r =>
      if (c =? 34)%N then Some ([], r)
      else if (c =? 92)%N then
        match r with
        | [] => None
        | esc :: r1 =>
            if (esc =? 117)%N then
              match r1 with
              | a :: b :: c' :: d :: r2 =>
                  match decode_uXXXX a b c' d with
                  | None => None
                  | Some uni =>
                      match r2 with
                      | b1 :: u1 :: a2 :: b2 :: c2 :: d2 :: r3 =>
                          if is_high_surrogate uni && (b1 =? 92)%N && (u1 =? 117)%N
                          then match decode_uXXXX a2 b2 c2 d2 with
                               | None => None
                               | Some uni2 =>
                                   if is_low_surrogate uni2
                                   then
                                     match scanstring r3 with
                                     | Some (content, rest) =>
                                         Some ((65536 + N.lor (N.shiftl (uni - 55296) 10)
                                                              (uni2 - 56320))%N
                                               :: content, rest)
                                     | None => None
                                     end
                                   else emit uni r2
                               end
                          else emit uni r2
                      | _ => emit uni r2
                      end
                  end
              | _ => None
              end
            else
              match backslash esc with
              | Some ch => emit ch r1
              | None => None
              end
        end
      else if (c <? 32)%N then None
      else emit c r
  end.

(** The decimal value of a run of digits. *)
Definition int_of_digits (ds : pystr) : Z :=
  fold_left (fun acc d => acc * 10 + Z.of_N (d - 48)) ds 0.

(** The longest prefix of digits and what follows it. *)
Fixpoint span_digits (s : pystr) : pystr * pystr :=
  match s with
  | c :: r =>
      if is_digit c
      then let '(ds, rest) := span_digits r in (c :: ds, rest)
      else ([], s)
  | [] => ([], [])
  end.

(** The decoder's [NUMBER_RE], matched at the head of [s]: an optional
    minus sign, [0] or a run of digits not starting with [0], then an
    optional fraction and an optional exponent.  The result is an [int]
    when neither is there, unless [int] refuses the literal for its length,
    and a [float] otherwise. *)
Definition match_number (lim : interpreter) (s : pystr) : scan json :=
  let '(sign, s1) :=
    match s with
    | c :: r => if (c =? 45)%N then ([45%N], r) else ([], s)
    | [] => ([], s)
    end in
  let integer :=
    match s1 with
    | c :: r =>
        if (c =? 48)%N then Some ([48%N], r)
        else if is_digit c then Some (span_digits s1)
        else None
    | [] => None
    end in
  match integer with
  | None => Invalid
  | Some (digits, s2) =>
      let '(frac, s3) :=
        match s2 with
        | c :: r =>
            if (c =? 46)%N
            then match span_digits r with
                 | ([], _) => ([], s2)
                 | (ds, rest) => (46%N :: ds, rest)
                 end
            else ([], s2)
        | [] => ([], s2)
        end in
      let '(exp, s4) :=
        match s3 with
        | c :: r =>
            if (c =? 101)%N || (c =? 69)%N
            then
              let '(esign, r1) :=
                match r with
                | c1 :: r' =>
                    if (c1 =? 43)%N || (c1 =? 45)%N then ([c1], r') else ([], r)
                | [] => ([], r)
                end in
              match span_digits r1 with
              | ([], _) => ([], s3)
              | (ds, rest) => (c :: esign ++ ds, rest)
              end
            else ([], s3)
        | [] => ([], s3)
        end in
      match frac, exp with
      | [], [] =>
          if exceeds_int_max_str_digits lim digits
          then Stopped ValueError
          else Scanned (JInt (match sign with
                              | [] => int_of_digits digits
                              | _ => - int_of_digits digits
                              end)) s4
      | _, _ => Scanned (JFloat (sign ++ digits ++ frac ++ exp)) s4
      end
  end.

(** [scan_once], [JSONArray] (from its first element on) and [JSONObject]
    (from the opening quote of a key on).  [depth] is the number of
    containers that can still be opened. *)
Fixpoint scan_once (lim : interpreter) (fuel depth : nat) (s : pystr)
    : scan json :=
  match fuel with
  | O => Exhausted
  | S fuel =>
      match s with
      | [] => Invalid
      | nextchar :: r =>
          if (nextchar =? 34)%N then
            match scanstring r with
            | Some (content, rest) => Scanned (JString content) rest
            | None => Invalid
            end
          else if (nextchar =? 123)%N then
            match depth with
            | O => Stopped RecursionError
            | S depth =>
                match skip_ws r with
                | c :: r' =>
                    if (c =? 125)%N then Scanned (JObject []) r'
                    else if (c =? 34)%N then object_pairs lim fuel depth r' []
                    else Invalid
                | [] => Invalid
                end
            end
          else if (nextchar =? 91)%N then
            match depth with
            | O => Stopped RecursionError
            | S depth =>
                match skip_ws r with
                | c :: r' =>
                    if (c =? 93)%N then Scanned (JArray []) r'
                    else array_items lim fuel depth (c :: r') []
                | [] => Invalid
                end
            end
          else if starts_with (py "null") s then Scanned JNull (drop 4 s)
          else if starts_with (py "true") s then Scanned (JBool true) (drop 4 s)
          else if starts_with (py "false") s then Scanned (JBool false) (drop 5 s)
          else
            match match_number lim s with
            | Scanned v rest => Scanned v rest
            | Stopped e => Stopped e
            | Exhausted => Exhausted
            | Invalid =>
                if starts_with (py "NaN") s
                then Scanned (JFloat (py "NaN")) (drop 3 s)
                else if starts_with (py "Infinity") s
                then Scanned (JFloat (py "Infinity")) (drop 8 s)
                else if starts_with (py "-Infinity") s
                then Scanned (JFloat (py "-Infinity")) (drop 9 s)
                else Invalid
            end
      end
  end

with array_items (lim : interpreter) (fuel depth : nat) (s : pystr)
    (values : list json) : scan json :=
  match fuel with
  | O => Exhausted
  | S fuel =>
      match scan_once lim fuel depth s with
      | Scanned value rest =>
          match skip_ws rest with
          | c :: r =>
              if (c =? 93)%N then Scanned (JArray (values ++ [value])) r
              else if (c =? 44)%N
              then array_items lim fuel depth (skip_ws r) (values ++ [value])
              else Invalid
          | [] => Invalid
          end
      | Invalid => Invalid
      | Stopped e => Stopped e
      | Exhausted => Exhausted
      end
  end

with object_pairs (lim : interpreter) (fuel depth : nat) (s : pystr)
    (pairs : list (pystr * json)) : scan json :=
  match fuel with
  | O => Exhausted
  | S fuel =>
      match scanstring s with
      | None => Invalid
      | Some (key, rest) =>
          match skip_ws rest with
          | colon :: r =>
              if (colon =? 58)%N then
                match scan_once lim fuel depth (skip_ws r) with
                | Scanned value rest' =>
                    match skip_ws rest' with
                    | c :: r' =>
                        if (c =? 125)%N
                        then Scanned (JObject (dict_of_pairs (pairs ++ [(key, value)]))) r'
                        else if (c =? 44)%N then
                          match skip_ws r' with
                          | q :: r'' =>
                              if (q =? 34)%N
                              then object_pairs lim fuel depth r''
                                     (pairs ++ [(key, value)])
                              else Invalid
                          | [] => Invalid
                          end
                        else Invalid
                    | [] => Invalid
                    end
                | Invalid => Invalid
                | Stopped e => Stopped e
                | Exhausted => Exhausted
                end
              else Invalid
          | [] => Invalid
          end
      end
  end.

(** [JSONDecoder.decode] on text: leading white space, one value, trailing
    white space, end of input.  Malformed input raises [JSONDecodeError];
    an error of the interpreter goes through as it is.  With the fuel given
    here the scan never runs out of it. *)
Definition json_loads (lim : interpreter) (s : pystr) : result json :=
  match scan_once lim (2 * length s + 1) (recursion_left lim) (skip_ws s) with
  | Scanned obj rest =>
      match skip_ws rest with
      | [] => Ok obj
      | _ => Raise JSONDecodeError
      end
  | Invalid => Raise JSONDecodeError
  | Stopped e => Raise e
  | Exhausted => Raise RecursionError
  end.

(** ** Regular expressions ([re.search])

    The constructs the two patterns of the response parser use.  [re] is a
    backtracking matcher: [matches r s] lists, in the order the matcher tries
    them, the ways [r] can match at the head of [s], each with the matched
    text, the capture groups inside [r] (a group that took no part is
    [None]) and the rest of the input.  The first of them is the one
    [re.search] reports. *)

Inductive regex :=
| Lit (text : pystr)            (* literal characters *)
| Seq (r1 r2 : regex)           (* r1 r2 *)
| Opt (r : regex)               (* (?:r)? *)
| Star (cls : N -> bool)        (* c* for a character class c, greedy *)
| StarLazy (cls : N -> bool)    (* c*? *)
| Group (r : regex).            (* (r) *)

Fixpoint ngroups (r : regex) : nat :=
  match r with
  | Lit _ | Star _ | StarLazy _ => O
  | Seq r1 r2 => (ngroups r1 + ngroups r2)%nat
  | Opt r => ngroups r
  | Group r => S (ngroups r)
  end.

Definition attempt : Type := pystr * list (option pystr) * pystr.

(** The longest run first. *)
Fixpoint star_greedy (cls : N -> bool) (s : pystr) : list (pystr * pystr) :=
  match s with
  | c :: r =>
      if cls c
      then map (fun '(m, rest) => (c :: m, rest)) (star_greedy cls r) ++ [([], s)]
      else [([], s)]
  | [] => [([], [])]
  end.

(** The shortest run first. *)
Fixpoint star_lazy (cls : N -> bool) (s : pystr) : list (pystr * pystr) :=
  match s with
  | c :: r =>
      if cls c
      then ([], s) :: map (fun '(m, rest) => (c :: m, rest)) (star_lazy cls r)
      else [([], s)]
  | [] => [([], [])]
  end.

Fixpoint matches (r : regex) (s : pystr) : list attempt :=
  match r with
  | Lit text =>
      if starts_with text s then [(text, [], drop (length text) s)] else []
  | Seq r1 r2 =>
      flat_map (fun '(m1, g1, s1) =>
                  map (fun '(m2, g2, s2) => (m1 ++ m2, g1 ++ g2, s2))
                      (matches r2 s1))
               (matches r1 s)
  | Opt r => matches r s ++ [([], replicate (ngroups r) None, s)]
  | Star cls => map (fun '(m, rest) => (m, [], rest)) (star_greedy cls s)
  | StarLazy cls => map (fun '(m, rest) => (m, [], rest)) (star_lazy cls s)
  | Group r => map (fun '(m, g, rest) => (m, Some m :: g, rest)) (matches r s)
  end.

(** A match object: [group(0)] and the numbered groups. *)
Record re_match := { group0 : pystr; groups : list (option pystr) }.

(** [re.search(r, s)]: the first match at the leftmost position that has
    one. *)
Fixpoint search (r : regex) (s : pystr) : option re_match :=
  match matches r s with
  | (m, g, _) :: _ => Some {| group0 := m; groups := g |}
  | [] =>
      match s with
      | [] => None
      | _ :: s' => search r s'
      end
  end.

(** [re.search(r, string)] for a Python value [string]: only text is
    searched. *)
Definition re_search (r : regex) (string : json) : result (option re_match) :=
  match string with
  | JString s => Ok (search r s)
  | _ => Raise TypeError
  end.

(** [m.group(i)]: the text of the group, [None] for one that took no
    part. *)
Definition group (m : re_match) (i : nat) : result json :=
  match i with
  | O => Ok (JString (group0 m))
  | S j =>
      match groups m !! j with
      | Some (Some g) => Ok (JString g)
      | Some None => Ok JNull
      | None => Raise IndexError
      end
  end.

(** With [re.DOTALL] the dot matches every character. *)
Definition dot : N -> bool := fun _ => true.

(** [r'```(?:json)?\s*(\[.*?\])\s*```'] *)
Definition fenced_array_re : regex :=
  Seq (Lit (py "```"))
 (Seq (Opt (Lit (py "json")))
 (Seq (Star is_space)
 (Seq (Group (Seq (Lit (py "[")) (Seq (StarLazy dot) (Lit (py "]")))))
 (Seq (Star is_space)
      (Lit (py "```")))))).

(** [r'\[.*\]'] *)
Definition array_re : regex :=
  Seq (Lit (py "[")) (Seq (Star dot) (Lit (py "]"))).

(** ** The response parser *)

(** [json.loads(x)] for a Python value [x]: text is decoded, a value of
    another type raises [TypeError]. *)
Definition loads (lim : interpreter) (x : json) : result json :=
  match x with
  | JString s => json_loads lim s
  | _ => Raise TypeError
  end.

(** [try: return json.loads(m.group(i)) except JSONDecodeError: pass],
    followed by [otherwise]. *)
Definition try_loads_group (lim : interpreter) (m : re_match) (i : nat)
    (otherwise : result json) : result json :=
  match (let* g := group m i in loads lim g)%result with
  | Ok data => Ok data
  | Raise JSONDecodeError => otherwise
  | Raise e => Raise e
  end.

(** [response] is whatever the client returned: the function does not look
    at its type. *)
Definition extract_json_from_response (lim : interpreter) (response : json)
    : result json :=
  let find_array :=
    (let* json_match := re_search array_re response in
     match json_match with
     | Some json_match => try_loads_group lim json_match 0 (Ok (JArray []))
     | None => Ok (JArray [])
     end)%result in
  let find_fenced :=
    (let* json_match := re_search fenced_array_re response in
     match json_match with
     | Some json_match => try_loads_group lim json_match 1 find_array
     | None => find_array
     end)%result in
  match loads lim response with
  | Ok (JArray items) => Ok (JArray items)
  | Ok _ => find_fenced
  | Raise JSONDecodeError => find_fenced
  | Raise e => Raise e
  end.

(** ** Python operations on decoded values *)

Fixpoint is_substring (p s : pystr) : bool :=
  starts_with p s ||
  match s with
  | [] => false
  | _ :: r => is_substring p r
  end.

(** [key in container] for a text [key]. *)
Definition py_in (key : pystr) (container : json) : result bool :=
  match container with
  | JObject d => Ok (bool_decide (is_Some (dict_get key d)))
  | JArray items =>
      Ok (existsb (fun x => match x with
                            | JString s => bool_decide (s = key)
                            | _ => false
                            end) items)
  | JString s => Ok (is_substring key s)
  | _ => Raise TypeError
  end.

(** [container[key]] for a text [key]. *)
Definition py_getitem (container : json) (key : pystr) : result json :=
  match container with
  | JObject d =>
      match dict_get key d with
      | Some v => Ok v
      | None => Raise KeyError
      end
  | _ => Raise TypeError
  end.

(** [container.get(key, default)]. *)
Definition py_get (container : json) (key : pystr) (default : json)
    : result json :=
  match container with
  | JObject d => Ok (match dict_get key d with Some v => v | None => default end)
  | _ => Raise AttributeError
  end.

(** [all(key in container for key in keys)]: stops at the first [False]. *)
Fixpoint all_in (keys : list pystr) (container : json) : result bool :=
  match keys with
  | [] => Ok true
  | key :: rest =>
      let* present := py_in key container in
      if present then all_in rest container else Ok false
  end%result.

(** [isinstance(v, int)] and the integer [v] is: [bool] is a subclass of
    [int], [True] is 1 and [False] is 0. *)
Definition as_int (v : json) : option Z :=
  match v with
  | JInt z => Some z
  | JBool b => Some (if b then 1 else 0)
  | _ => None
  end.

(** [for x in v]: the items of a list, the characters of a text, the keys
    of a dict. *)
Definition py_iter (v : json) : result (list json) :=
  match v with
  | JArray items => Ok items
  | JString s => Ok (map (fun c => JString [c]) s)
  | JObject d => Ok (map (fun kv => JString (fst kv)) d)
  | _ => Raise TypeError
  end.

(** [a // b]. *)
Definition floordiv (a b : Z) : result Z :=
  if b =? 0 then Raise ZeroDivisionError else Ok (a / b).

(** [str(n)] for an integer. *)
Definition str_of_int (n : Z) : pystr :=
  py (DecimalString.NilZero.string_of_int (Z.to_int n)).

(** ** Models *)

Record MCQRequest := {
  req_text : pystr;
  req_n_questions : Z;
  req_difficulty : pystr
}.

Record MCQ := {
  question : pystr;
  options : list pystr;
  answer : Z;
  explanation : option pystr
}.

Record MCQResponse := { mcqs : list MCQ }.

(** ** The prompt template

    [OLLAMA_PROMPT.format(n_questions=.., difficulty=.., text=..)]; the
    doubled braces of the template are single braces in the result. *)
Definition nl : string := String (ascii_of_nat 10) EmptyString.

Definition lines (ls : list string) : string :=
  fold_right (fun l acc => l ++ nl ++ acc)%string EmptyString ls.

Definition format_prompt (n_questions : Z) (difficulty text : pystr) : pystr :=
  pyq (lines [
    "You are an expert educator creating multiple-choice questions.";
    ""]%string)
  ++ py "Given the following text, generate " ++ str_of_int n_questions
  ++ py " multiple-choice questions at " ++ difficulty
  ++ pyq (lines [" difficulty level."; ""; "TEXT:"]%string)
  ++ text
  ++ pyq (lines [""; ""; "REQUIREMENTS:"]%string)
  ++ py "- Generate exactly " ++ str_of_int n_questions
  ++ pyq (lines [" questions"]%string)
  ++ py "- Difficulty: " ++ difficulty
  ++ pyq (lines [
    "";
    "- Each question must have exactly 4 options (A, B, C, D)";
    "- One option must be correct";
    "- Include a brief explanation for the correct answer";
    "";
    "OUTPUT FORMAT (CRITICAL - MUST BE VALID JSON):";
    "Return ONLY a JSON array with this exact structure, no other text:";
    "[";
    "  {";
    "    'question': 'Question text here?',";
    "    'options': ['Option A', 'Option B', 'Option C', 'Option D'],";
    "    'answer': 0,";
    "    'explanation': 'Brief explanation of why this is correct'";
    "  }";
    "]";
    ""]%string)
  ++ pyq "The 'answer' field must be the zero-based index (0-3) of the correct option."
  ++ py nl
  ++ py "Return ONLY the JSON array, no markdown, no code blocks, no additional text.".

Definition retry_instruction : pystr :=
  py (nl ++ nl ++ "IMPORTANT: Return ONLY valid JSON array, nothing else.").

(** ** The generation client

    What [requests.post] and the reading of its reply come to: a failure
    the code tells apart, or a status code and the decoded body,
    [response.json()].  [RequestFailed] is any other exception raised by
    the request or the decoding of the body.  The value of the body's
    [response] key is returned as it is, whatever its type. *)
Inductive post_outcome :=
| ConnectionError
| Timeout
| RequestFailed
| Reply (status_code : Z) (result : json).

Definition call_ollama_generate (post : post_outcome) : result json :=
  match post with
  | Reply status_code result =>
      if negb (status_code =? 200)
      then (* raised inside the try and caught by [except Exception] *)
        Raise (HTTPException 500 OllamaError)
      else
        match py_get result (py "response") (JString []) with
        | Ok generated => Ok generated
        | Raise _ => Raise (HTTPException 500 OllamaError)
        end
  | ConnectionError => Raise (HTTPException 503 CannotConnect)
  | Timeout => Raise (HTTPException 504 RequestTimedOut)
  | RequestFailed => Raise (HTTPException 500 OllamaError)
  end.

(** ** Calls to the outside

    The orchestrator is run against a service: [service k prompt] is the
    outcome of the [k]-th POST of the request when it carries [prompt].
    Every call is recorded with the place it was made from. *)
Inductive call_site :=
| FirstAttempt      (* response = call_ollama_generate(prompt) *)
| RetryAttempt.     (* response = call_ollama_generate(retry_prompt) *)

Record call := {
  call_site_of : call_site;
  call_chunk : nat;
  call_prompt : pystr;
  call_result : result json
}.

Definition io (A : Type) : Type := list call -> list call * result A.

Definition io_ret {A} (a : A) : io A := fun log => (log, Ok a).

Definition io_bind {A B} (m : io A) (k : A -> io B) : io B :=
  fun log =>
    match m log with
    | (log', Ok a) => k a log'
    | (log', Raise e) => (log', Raise e)
    end.

Definition io_lift {A} (r : result A) : io A := fun log => (log, r).

Declare Scope io_scope.
Delimit Scope io_scope with io.
Notation "'let!' x := m 'in' k" := (io_bind m (fun x => k))
  (at level 10, x name, m at level 100, k at level 200) : io_scope.

Section Backend.

(** The validator of a [str] field of a pydantic model: the text the field
    gets, or [None] when the value is refused.  Which values other than text
    it takes differs between versions of pydantic; the code is modelled for
    any of them. *)
Variable str_validator : json -> option pystr.

(** The limits of the interpreter the request is served by. *)
Variable interp : interpreter.

Variable service : nat -> pystr -> post_outcome.

(** A field of type [Optional[str]]. *)
Definition optional_str_validator (v : json) : option (option pystr) :=
  match v with
  | JNull => Some None
  | _ => Some <$> str_validator v
  end.

(** [MCQ(question=.., options=.., answer=.., explanation=..)] for an
    [options] that is a list and an [answer] that is an [int]: the model
    validates every field and raises [ValidationError] if one fails. *)
Definition MCQ_init (question : json) (options : list json) (answer : Z)
    (explanation : json) : result MCQ :=
  match str_validator question, mapM str_validator options,
        optional_str_validator explanation with
  | Some q, Some os, Some e =>
      Ok {| question := q; options := os; answer := answer; explanation := e |}
  | _, _, _ => Raise ValidationError
  end.

(** The body of the [try] of [validate_mcq]. *)
Definition validate_mcq_body (mcq_dict : json) : result (option MCQ) :=
  (let* has_keys := all_in [py "question"; py "options"; py "answer"] mcq_dict in
   if negb has_keys then Ok None else
   let* opts := py_getitem mcq_dict (py "options") in
   match opts with
   | JArray items =>
       if negb (len items =? 4) then Ok None else
       let* ans := py_getitem mcq_dict (py "answer") in
       match as_int ans with
       | Some a =>
           if negb ((0 <=? a) && (a <=? 3)) then Ok None else
           let* q := py_getitem mcq_dict (py "question") in
           let* e := py_get mcq_dict (py "explanation") (JString []) in
           let* mcq := MCQ_init q items a e in
           Ok (Some mcq)
       | None => Ok None
       end
   | _ => Ok None
   end)%result.

Definition validate_mcq (mcq_dict : json) : option MCQ :=
  match validate_mcq_body mcq_dict with
  | Ok r => r
  | Raise _ => None      (* except Exception: return None *)
  end.

(** [call_ollama_generate(prompt)] at a call site of the orchestrator. *)
Definition generate (site : call_site) (chunk_idx : nat) (prompt : pystr)
    : io json :=
  fun log =>
    let r := call_ollama_generate (service (length log) prompt) in
    (log ++ [{| call_site_of := site; call_chunk := chunk_idx;
                call_prompt := prompt; call_result := r |}], r).

(** [for mcq_dict in mcq_dicts: ...] over the items of [mcq_dicts]. *)
Fixpoint add_valid (n_questions : Z) (mcq_dicts : list json)
    (all_mcqs : list MCQ) : list MCQ :=
  match mcq_dicts with
  | [] => all_mcqs
  | mcq_dict :: rest =>
      match validate_mcq mcq_dict with
      | Some mcq =>
          if len all_mcqs <? n_questions
          then add_valid n_questions rest (all_mcqs ++ [mcq])
          else add_valid n_questions rest all_mcqs
      | None => add_valid n_questions rest all_mcqs
      end
  end.

(** Parse a reply, validate its records and add them. *)
Definition collected (n_questions : Z) (response : json)
    (all_mcqs : list MCQ) : result (list MCQ) :=
  (let* mcq_dicts := extract_json_from_response interp response in
   let* items := py_iter mcq_dicts in
   Ok (add_valid n_questions items all_mcqs))%result.

Definition collect (n_questions : Z) (response : json) (all_mcqs : list MCQ)
    : io (list MCQ) :=
  io_lift (collected n_questions response all_mcqs).

(** The body of the loop over [enumerate(chunks)], after the test for
    [break]. *)
Definition process_chunk (n_questions : Z) (difficulty : pystr)
    (questions_per_chunk : Z) (chunk_idx : nat) (chunk : pystr)
    (all_mcqs : list MCQ) : io (list MCQ) :=
  let remaining := n_questions - len all_mcqs in
  let chunk_questions := Z.min remaining questions_per_chunk in
  let prompt := format_prompt chunk_questions difficulty (take 3000 chunk) in
  (let! response := generate FirstAttempt chunk_idx prompt in
   let! all_mcqs := collect n_questions response all_mcqs in
   if (len all_mcqs =? 0) && bool_decide (chunk_idx = O)
   then
     let retry_prompt := prompt ++ retry_instruction in
     let! response := generate RetryAttempt chunk_idx retry_prompt in
     collect n_questions response all_mcqs
   else io_ret all_mcqs)%io.

(** The loop over [enumerate(chunks)], from index [chunk_idx] on. *)
Fixpoint chunk_loop (n_questions : Z) (difficulty : pystr)
    (questions_per_chunk : Z) (chunk_idx : nat) (chunks : list pystr)
    (all_mcqs : list MCQ) : io (list MCQ) :=
  match chunks with
  | [] => io_ret all_mcqs
  | chunk :: rest =>
      let remaining := n_questions - len all_mcqs in
      if remaining <=? 0 then io_ret all_mcqs      (* break *)
      else
        (let! all_mcqs :=
           process_chunk n_questions difficulty questions_per_chunk
                         chunk_idx chunk all_mcqs in
         chunk_loop n_questions difficulty questions_per_chunk
                    (S chunk_idx) rest all_mcqs)%io
  end.

Definition generate_mcqs_from_text (text : pystr) (n_questions : Z)
    (difficulty : pystr) : io (list MCQ) :=
  let chunks := chunk_text text MAX_CHUNK_SIZE in
  (let! per_chunk := io_lift (floordiv n_questions (len chunks)) in
   let questions_per_chunk :=
     Z.min MAX_QUESTIONS_PER_CHUNK (Z.max 1 per_chunk) in
   chunk_loop n_questions difficulty questions_per_chunk O chunks [])%io.

(** The handler of [POST /generate_mcq]. *)
Definition generate_mcq (request : MCQRequest) : io MCQResponse :=
  if is_blank (req_text request)
  then io_lift (Raise (HTTPException 400 EmptyText))
  else if (req_n_questions request <? 1) || (req_n_questions request >? 20)
  then io_lift (Raise (HTTPException 400 BadQuestionCount))
  else if negb (bool_decide (req_difficulty request
                             ∈ [py "easy"; py "medium"; py "hard"]))
  then io_lift (Raise (HTTPException 400 BadDifficulty))
  else
    (let! mcqs :=
       generate_mcqs_from_text (req_text request) (req_n_questions request)
                               (req_difficulty request) in
     match mcqs with
     | [] => io_lift (Raise (HTTPException 500 NoValidMCQs))
     | _ => io_ret {| mcqs := mcqs |}
     end)%io.

End Backend.

(** ** The upload side *)

(** [s.lstrip()], [s.rstrip()] and [s.strip()]. *)
Fixpoint lstrip (s : pystr) : pystr :=
  match s with
  | c :: r => if is_space c then lstrip r else s
  | [] => []
  end.

Definition rstrip (s : pystr) : pystr := rev (lstrip (rev s)).

Definition strip (s : pystr) : pystr := rstrip (lstrip s).

(** [s.endswith(suffix)]. *)
Definition ends_with (suffix s : pystr) : bool :=
  starts_with (rev suffix) (rev s).

Record PDFResponse := { pdf_text : pystr; pdf_pages : Z }.

(** The [HTTPException]s of the upload side, by their [detail]. *)
Inductive pdf_detail :=
| ExtractionFailed     (* PDF extraction failed: ... *)
| OnlyPDFSupported     (* Only PDF files are supported *)
| NoTextExtracted.     (* No text could be extracted from PDF *)

Inductive pdf_result (A : Type) :=
| Extracted (a : A)
| PDFHTTPException (status_code : Z) (detail : pdf_detail).
Arguments Extracted {A} a.
Arguments PDFHTTPException {A} status_code detail.

(** What the PDF library makes of a file: opening it fails or gives the
    pages, and [extract_text()] on a page fails or gives [None] or a
    text.  Both libraries are used the same way. *)
Definition pdf_page : Type := result (option pystr).

(** The loop over the pages: [text += page.extract_text() or ""]. *)
Fixpoint read_pages (pages : list pdf_page) (text : pystr) : result pystr :=
  match pages with
  | [] => Ok text
  | page :: rest =>
      (let* extracted := page in
       read_pages rest (text ++ default [] extracted))%result
  end.

Definition extract_text_from_pdf
    (pdf_open : list Byte.byte → result (list pdf_page))
    (file_content : list Byte.byte) : pdf_result pystr :=
  match (let* pages := pdf_open file_content in
         let* text := read_pages pages [] in
         Ok (strip text))%result with
  | Ok text => Extracted text
  | Raise _ => PDFHTTPException 400 ExtractionFailed
  end.

(** The handler of [POST /upload_pdf], given the name and the content of
    the uploaded file. *)
Definition upload_pdf (pdf_open : list Byte.byte → result (list pdf_page))
    (filename : pystr) (content : list Byte.byte) : pdf_result PDFResponse :=
  if negb (ends_with (py ".pdf") filename)
  then PDFHTTPException 400 OnlyPDFSupported
  else
    match extract_text_from_pdf pdf_open content with
    | PDFHTTPException status_code detail =>
        PDFHTTPException status_code detail
    | Extracted text =>
        match text with
        | [] => PDFHTTPException 400 NoTextExtracted
        | _ =>
            let pages := len content / 2048 in
            Extracted {| pdf_text := text; pdf_pages := Z.max 1 pages |}
        end
    end.

(** ** Instances used in the examples *)

(** A [str] field that takes text as it is and nothing else. *)
Definition text_only (v : json) : option pystr :=
  match v with
  | JString s => Some s
  | _ => None
  end.

(** An interpreter with room for 900 nested containers and the default
    limit of 4300 digits. *)
Definition cpython : interpreter :=
  {| recursion_left := 900; int_max_str_digits := 4300 |}.

(** The body of a reply of the generation service that carries the text
    [generated]. *)
Definition ollama_body (generated : pystr) : json :=
  JObject [(py "model", JString (py "llama3.2"));
           (py "response", JString generated);
           (py "done", JBool true)].

(** A service that answers every prompt with the same text. *)
Definition answering (generated : pystr) : nat → pystr → post_outcome :=
  fun _ _ => Reply 200 (ollama_body generated).

Definition always (reply : string) : nat → pystr → post_outcome :=
  answering (pyq reply).

(** A service whose replies carry [null] where the text should be. *)
Definition answering_null : nat → pystr → post_outcome :=
  fun _ _ => Reply 200 (JObject [(py "response", JNull)]).

(** An integer of 4301 digits. *)
Definition long_integer : pystr := replicate 4301 49%N.

(** A thousand objects, each opened inside the one before. *)
Definition deep_nesting : pystr := concat (replicate 1000 (pyq "{'a':")).

(** A reply with four records: the third has three options only. *)
Definition four_records : string :=
  "[{'question':'Q1?','options':['a','b','c','d'],'answer':2,'explanation':'because'},
    {'question':'Q2?','options':['a','b','c','d'],'answer':true},
    {'question':'Q3?','options':['a','b','c'],'answer':0},
    {'question':'Q4?','options':['a','b','c','d'],'answer':3,'explanation':null}]".

(** A reply whose only record has an empty question. *)
Definition empty_question : string :=
  "[{'question':'','options':['a','b','c','d'],'answer':0}]".

(** A service that answers the first request and is gone after it. *)
Definition gone_after_first : nat → pystr → post_outcome :=
  fun k _ =>
    match k with
    | O => Reply 200 (ollama_body (pyq four_records))
    | S _ => ConnectionError
    end.

(** A service whose first reply is an empty array and whose later replies
    wrap one record in prose. *)
Definition empty_then_one : nat → pystr → post_outcome :=
  fun k _ =>
    match k with
    | O => Reply 200 (ollama_body (pyq "[]"))
    | S _ =>
        Reply 200
          (ollama_body
             (pyq "Here: [{'question':'Q?','options':['a','b','c','d'],'answer':1}]"))
    end.

(** A text of 2500 words, too long for one chunk. *)
Definition long_text : pystr := concat (replicate 2500 (py "word ")).

(** A record with every required key, four options and a valid answer,
    whose question is [null]. *)
Definition null_question : json :=
  JObject [(py "question", JNull);
           (py "options", JArray [JString (py "a"); JString (py "b");
                                  JString (py "c"); JString (py "d")]);
           (py "answer", JInt 0)].

(** A record with no explanation. *)
Definition no_explanation : json :=
  JObject [(py "question", JString (py "Q?"));
           (py "options", JArray [JString (py "a"); JString (py "b");
                                  JString (py "c"); JString (py "d")]);
           (py "answer", JInt 2)].

(** A record with three options only. *)
Definition three_options : json :=
  JObject [(py "question", JString (py "Q?"));
           (py "options", JArray [JString (py "a"); JString (py "b");
                                  JString (py "c")]);
           (py "answer", JInt 0)].

(** The record [no_explanation] with its keys in another order and two
    keys more. *)
Definition more_keys : pydict :=
  [(py "id", JInt 7);
   (py "answer", JInt 2);
   (py "options", JArray [JString (py "a"); JString (py "b");
                          JString (py "c"); JString (py "d")]);
   (py "topic", JNull);
   (py "question", JString (py "Q?"))].

(** A PDF of three pages, the second without text. *)
Definition three_pages : list Byte.byte → result (list pdf_page) :=
  fun _ => Ok [Ok (Some (py "  Hello world ")); Ok None;
               Ok (Some (py "and more "))].

(** A file of 5000 bytes. *)
Definition five_thousand_bytes : list Byte.byte := replicate 5000 Byte.x00.

(** ** Notions the properties are stated with *)

(** A word: not empty, no white space inside. *)
Definition is_word (w : pystr) : Prop :=
  w ≠ [] ∧ Forall (fun c => is_space c = false) w.

(** What the chunker counts for a run of words: each word and one
    separator. *)
Definition budget_of (ws : list pystr) : Z :=
  fold_right (fun w acc => len w + 1 + acc) 0 ws.

(** A group of words that may form a chunk under [max_size]. *)
Definition fits (max_size : Z) (g : list pystr) : Prop :=
  g ≠ [] ∧ (len (join space g) <= max_size * 4 ∨ length g = 1%nat).

(** [chunk] occurs in [text] as a run of consecutive characters. *)
Definition substring (chunk text : pystr) : Prop :=
  ∃ before after, text = before ++ chunk ++ after.

(** What holds of the loop's state after the words [seen]. *)
Definition chunk_inv (max_size : Z) (seen : list pystr)
    (st : list pystr * list pystr * Z) : Prop :=
  let '(chunks, current_chunk, current_size) := st in
  ∃ gs : list (list pystr),
    chunks = map (join space) gs
    ∧ concat gs ++ current_chunk = seen
    ∧ Forall (fits max_size) gs
    ∧ current_size = budget_of current_chunk
    ∧ (current_chunk = [] ∨ current_size <= max_size * 4
       ∨ length current_chunk = 1%nat).

(** The three strategies of the response parser as the specification
    words them.  An attempt to decode a part of the response gives a JSON
    array, or nothing (the part is malformed or is not an array), or is
    stopped by an error of the interpreter; the first strategy that gives an
    array or is stopped decides. *)
Definition decoded_array (lim : interpreter) (part : pystr)
    : result (option (list json)) :=
  match json_loads lim part with
  | Ok (JArray items) => Ok (Some items)
  | Ok _ => Ok None
  | Raise JSONDecodeError => Ok None
  | Raise e => Raise e
  end.

Definition whole_blob (lim : interpreter) (response : pystr)
    : result (option (list json)) :=
  decoded_array lim response.

Definition fenced_block (lim : interpreter) (response : pystr)
    : result (option (list json)) :=
  match search fenced_array_re response with
  | Some m =>
      match groups m with
      | [Some block] => decoded_array lim block
      | _ => Ok None
      end
  | None => Ok None
  end.

Definition bracketed (lim : interpreter) (response : pystr)
    : result (option (list json)) :=
  match search array_re response with
  | Some m => decoded_array lim (group0 m)
  | None => Ok None
  end.

Fixpoint first_success
    (strategies : list (pystr → result (option (list json))))
    (response : pystr) : result (list json) :=
  match strategies with
  | [] => Ok []
  | strategy :: others =>
      match strategy response with
      | Ok (Some items) => Ok items
      | Ok None => first_success others response
      | Raise e => Raise e
      end
  end.

(** The records the parser finds in a reply. *)
Definition candidates (lim : interpreter) (response : pystr)
    : result (list json) :=
  first_success [whole_blob lim; fenced_block lim; bracketed lim] response.

(** The errors of the interpreter that stop [json.loads] on text. *)
Definition is_limit_error (e : exn) : Prop :=
  e = RecursionError ∨ e = ValueError.

(** The calls [new], made from the [start]-th on, are recorded with what
    the service answered. *)
Definition faithful (service : nat → pystr → post_outcome) (start : nat)
    (new : list call) : Prop :=
  ∀ i c, new !! i = Some c →
    call_result c
    = call_ollama_generate (service (start + i)%nat (call_prompt c)).

(** A failed call among [new] is the last of them and its error is the
    outcome [r]. *)
Definition fails_last {A} (new : list call) (r : result A) : Prop :=
  ∀ i c e, new !! i = Some c → call_result c = Raise e →
    r = Raise e ∧ S i = length new.

(** The ways a request to the generation service fails: no connection, a
    time out, any other exception, a status other than 200, a body that is
    not an object. *)
Definition is_failure (post : post_outcome) : Prop :=
  match post with
  | Reply status_code result =>
      status_code ≠ 200 ∨ ∀ pairs, result ≠ JObject pairs
  | ConnectionError | Timeout | RequestFailed => True
  end.

(** The three conditions the specification gives for a record. *)
Definition required_fields_ok (d : json) : Prop :=
  ∃ pairs q items ans a,
    d = JObject pairs
    ∧ dict_get (py "question") pairs = Some q
    ∧ dict_get (py "options") pairs = Some (JArray items)
    ∧ length items = 4%nat
    ∧ dict_get (py "answer") pairs = Some ans
    ∧ as_int ans = Some a ∧ 0 <= a <= 3.

(** The shape the validator checks of a record. *)
Definition well_shaped (m : MCQ) : Prop :=
  length (options m) = 4%nat ∧ 0 <= answer m <= 3.

(** The calls made from the retry site. *)
Definition is_retry (c : call) : bool :=
  match call_site_of c with
  | RetryAttempt => true
  | FirstAttempt => false
  end.

Definition retries (log : list call) : list call := List.filter is_retry log.

(** The valid MCQs among the records of a reply, in order. *)
Definition valid_records (sv : json → option pystr) (items : list json)
    : list MCQ :=
  omap (validate_mcq sv) items.

(** The MCQ [m] is what the validator makes of a record of the reply the
    call [c] brought. *)
Definition from_reply (sv : json → option pystr) (lim : interpreter)
    (c : call) (m : MCQ) : Prop :=
  ∃ response items d,
    call_result c = Ok response
    ∧ extract_json_from_response lim response = Ok (JArray items)
    ∧ d ∈ items
    ∧ validate_mcq sv d = Some m.

(** The error [e] came up at the call [c]: the client raised it, or the
    parser did on the reply the call brought. *)
Definition raised_at (lim : interpreter) (c : call) (e : exn) : Prop :=
  call_result c = Raise e
  ∨ ∃ response,
      call_result c = Ok response
      ∧ extract_json_from_response lim response = Raise e.

(** The prompt of the call [c] asks for between 1 and [q] questions, no
    more than [n], about the first 3000 characters of the chunk of its
    index; [chunks] are the chunks from index [idx] on. *)
Definition well_asked (n q : Z) (difficulty : pystr) (chunks : list pystr)
    (idx : nat) (c : call) : Prop :=
  ∃ k chunk,
    (idx <= call_chunk c)%nat
    ∧ chunks !! (call_chunk c - idx)%nat = Some chunk
    ∧ 1 <= k <= q ∧ k <= n
    ∧ call_prompt c
      = format_prompt k difficulty (take 3000 chunk)
        ++ (if is_retry c then retry_instruction else []).

(** No group could have taken the first word of the next one. *)
Definition greedy (max_size : Z) (gs : list (list pystr)) : Prop :=
  ∀ i g w g', gs !! i = Some g → gs !! S i = Some (w :: g') →
    max_size * 4 < budget_of g + (len w + 1).

(** What holds of the loop's state after the words [seen], for the groups
    being full. *)
Definition chunk_greedy_inv (max_size : Z) (seen : list pystr)
    (st : list pystr * list pystr * Z) : Prop :=
  let '(chunks, current_chunk, current_size) := st in
  ∃ gs : list (list pystr),
    chunks = map (join space) gs
    ∧ concat gs ++ current_chunk = seen
    ∧ current_size = budget_of current_chunk
    ∧ Forall (fun g => g ≠ []) gs
    ∧ (current_chunk = [] → gs = [])
    ∧ greedy max_size (gs ++ [current_chunk]).

(** What the chunker's loop makes of its state once the words are read. *)
Definition finish (st : list pystr * list pystr * Z) : list pystr :=
  let '(chunks, current_chunk, _) := st in
  match current_chunk with
  | [] => chunks
  | _ => chunks ++ [join space current_chunk]
  end.

(** * Properties *)

(** ** Text *)

Lemma len_app {A} (l k : list A) : len (l ++ k) = len l + len k.
Proof. unfold len. rewrite length_app. lia. Qed.

Lemma len_nonneg {A} (l : list A) : 0 <= len l.
Proof. unfold len. lia. Qed.

Lemma split_from_words cur s :
  Forall (fun c => is_space c = false) cur →
  Forall is_word (split_from cur s).
Proof.
  revert cur. induction s as [|c r IH]; intros cur Hcur; simpl.
  - destruct cur; [constructor|]. apply Forall_cons_2; [by split|constructor].
  - destruct (is_space c) eqn:Hc.
    + destruct cur.
      * apply IH. constructor.
      * apply Forall_cons_2; [by split|]. apply IH. constructor.
    + apply IH. apply Forall_app_2; [done|]. apply Forall_cons_2; [done|constructor].
Qed.

Lemma split_words text : Forall is_word (split text).
Proof. apply split_from_words. constructor. Qed.

Lemma split_from_app cur w s :
  Forall (fun c => is_space c = false) w →
  split_from cur (w ++ s) = split_from (cur ++ w) s.
Proof.
  revert cur. induction w as [|c w IH]; intros cur Hw; simpl.
  - by rewrite app_nil_r.
  - inversion Hw as [|? ? Hc Hw']; subst. rewrite Hc.
    rewrite IH by done. by rewrite <- app_assoc.
Qed.

Lemma split_join ws : Forall is_word ws → split (join space ws) = ws.
Proof.
  unfold split. induction ws as [|w ws IH]; intros Hws; [done|].
  inversion Hws as [|? ? [Hne Hw] Hws']; subst.
  destruct ws as [|w' ws].
  - pose proof (split_from_app [] w [] Hw) as E. rewrite app_nil_r in E.
    simpl in *. rewrite E. destruct w; done.
  - change (join space (w :: w' :: ws))
      with (w ++ space ++ join space (w' :: ws)).
    rewrite split_from_app by done. simpl.
    destruct w; [done|]. f_equal. by apply IH.
Qed.

Lemma join_app sep (a b : list pystr) :
  a ≠ [] → b ≠ [] → join sep (a ++ b) = join sep a ++ sep ++ join sep b.
Proof.
  intros Ha Hb. induction a as [|x a IH]; [done|].
  destruct a as [|y a].
  - simpl. destruct b; done.
  - change (join sep ((x :: y :: a) ++ b))
      with (x ++ sep ++ join sep ((y :: a) ++ b)).
    rewrite IH by done. simpl. by rewrite <- !app_assoc.
Qed.

Lemma join_concat sep (gs : list (list pystr)) :
  Forall (fun g => g ≠ []) gs →
  join sep (map (join sep) gs) = join sep (concat gs).
Proof.
  induction gs as [|g gs IH]; intros Hgs; [done|].
  inversion Hgs as [|? ? Hg Hgs']; subst.
  destruct gs as [|g' gs].
  - simpl. by rewrite app_nil_r.
  - change (join sep (map (join sep) (g :: g' :: gs)))
      with (join sep g ++ sep ++ join sep (map (join sep) (g' :: gs))).
    rewrite IH by done.
    change (concat (g :: g' :: gs)) with (g ++ concat (g' :: gs)).
    rewrite join_app; [done|done|].
    inversion Hgs' as [|? ? Hg' _]; subst. simpl. destruct g'; done.
Qed.

Lemma len_join_space ws : ws ≠ [] → len (join space ws) = budget_of ws - 1.
Proof.
  induction ws as [|w ws IH]; [done|]. intros _.
  destruct ws as [|w' ws].
  - simpl. lia.
  - change (join space (w :: w' :: ws))
      with (w ++ space ++ join space (w' :: ws)).
    rewrite !len_app, IH by done. simpl. unfold len at 2. simpl. lia.
Qed.

Lemma budget_of_app a b : budget_of (a ++ b) = budget_of a + budget_of b.
Proof. induction a as [|x a IH]; simpl; lia. Qed.

Lemma join_substring (a g b : list pystr) :
  g ≠ [] → substring (join space g) (join space (a ++ g ++ b)).
Proof.
  intros Hg. unfold substring.
  destruct a as [|x a], b as [|y b].
  - exists [], []. by rewrite !app_nil_r.
  - exists [], (space ++ join space (y :: b)). simpl app at 1.
    by rewrite join_app.
  - exists (join space (x :: a) ++ space), [].
    rewrite !app_nil_r, join_app, <- app_assoc by done. done.
  - exists (join space (x :: a) ++ space), (space ++ join space (y :: b)).
    rewrite join_app; [|done|by destruct g].
    rewrite (join_app _ g) by done. by rewrite <- !app_assoc.
Qed.

(** ** The chunker *)

Lemma chunk_step_inv max_size seen st word :
  chunk_inv max_size seen st →
  chunk_inv max_size (seen ++ [word]) (chunk_step max_size st word).
Proof.
  destruct st as [[chunks cur] size].
  intros (gs & -> & <- & Hgs & -> & Hcur). unfold chunk_step.
  destruct (Z.gtb_spec (budget_of cur + (len word + 1)) (max_size * 4)) as [Hgt|Hle].
  - destruct cur as [|w cur].
    + exists gs. rewrite !app_nil_r. simpl. split_and!; auto; lia.
    + exists (gs ++ [w :: cur]).
      rewrite map_app, concat_app. simpl. rewrite !app_nil_r.
      split_and!; auto; [|lia].
      apply Forall_app_2; [done|]. apply Forall_cons_2; [|constructor].
      split; [done|].
      destruct Hcur as [?|[Hle|Hone]]; [done| |by right].
      left. rewrite len_join_space by done. lia.
  - exists gs. rewrite app_assoc, budget_of_app. simpl.
    split_and!; auto; try lia.
Qed.

Lemma chunk_loop_inv max_size ws seen st :
  chunk_inv max_size seen st →
  chunk_inv max_size (seen ++ ws) (fold_left (chunk_step max_size) ws st).
Proof.
  revert seen st. induction ws as [|w ws IH]; intros seen st Hst; simpl.
  - by rewrite app_nil_r.
  - replace (seen ++ w :: ws) with ((seen ++ [w]) ++ ws)
      by (by rewrite <- app_assoc).
    apply IH. by apply chunk_step_inv.
Qed.

(** The chunks are the joins of consecutive groups of the words. *)
Lemma chunk_text_groups text max_size :
  split text ≠ [] →
  ∃ gs : list (list pystr),
    chunk_text text max_size = map (join space) gs
    ∧ concat gs = split text
    ∧ Forall (fits max_size) gs.
Proof.
  intros Hwords. unfold chunk_text.
  pose proof (chunk_loop_inv max_size (split text) [] ([], [], 0)) as Hinv.
  destruct (fold_left _ _ _) as [[chunks cur] size].
  destruct Hinv as (gs & -> & Hseen & Hgs & -> & Hcur).
  { exists []. repeat split; auto. }
  simpl in Hseen. destruct cur as [|w cur].
  - rewrite app_nil_r in Hseen. destruct gs as [|g gs].
    + simpl in Hseen. congruence.
    + exists (g :: gs). done.
  - exists (gs ++ [w :: cur]).
    assert (Hfit : fits max_size (w :: cur)).
    { split; [done|]. destruct Hcur as [?|[Hle|Hone]]; [done| |by right].
      left. rewrite len_join_space by done. lia. }
    rewrite map_app. simpl map.
    split_and!.
    + by destruct (map (join space) gs).
    + rewrite concat_app. simpl. by rewrite app_nil_r.
    + apply Forall_app_2; [done|]. apply Forall_cons_2; [done|constructor].
Qed.

Lemma chunk_text_no_words text max_size :
  split text = [] → chunk_text text max_size = [text].
Proof. intros H. unfold chunk_text. rewrite H. done. Qed.

Lemma starts_with_spec p s : starts_with p s = true ↔ ∃ r, s = p ++ r.
Proof.
  revert s. induction p as [|a p IH]; intros s; simpl.
  - split; [intros _; by exists s|done].
  - destruct s as [|b s].
    + split; [done|]. intros [r Hr]. discriminate.
    + rewrite andb_true_iff, N.eqb_eq, IH. split.
      * intros [-> [r ->]]. by exists r.
      * intros [r Hr]. injection Hr as -> ->. split; [done|by exists r].
Qed.

Lemma is_substring_spec p s : is_substring p s = true ↔ substring p s.
Proof.
  unfold substring. induction s as [|c s IH]; simpl.
  - rewrite orb_false_r, starts_with_spec. split.
    + intros [r Hr]. by exists [], r.
    + intros (before & after & H). destruct before; [|done].
      by exists after.
  - rewrite orb_true_iff, starts_with_spec, IH. split.
    + intros [[r Hr]|(before & after & ->)].
      * by exists [], r.
      * by exists (c :: before), after.
    + intros (before & after & H). destruct before as [|b before].
      * left. by exists after.
      * right. injection H as -> ->. by exists before, after.
Qed.

(** C2. [chunk_text] never returns the empty list; the chunks joined by
    single spaces have the words of the input, in order, and are those
    words joined by single spaces; an input with no word comes back as the
    only chunk. *)
Theorem chunk_text_reconstructs (text : pystr) (max_size : Z) :
  chunk_text text max_size ≠ []
  ∧ split (join space (chunk_text text max_size)) = split text
  ∧ match split text with
    | [] => chunk_text text max_size = [text]
    | words => join space (chunk_text text max_size) = join space words
    end.
Proof.
  destruct (split text) as [|w ws] eqn:Hsplit.
  - rewrite (chunk_text_no_words _ _ Hsplit). by simpl.
  - destruct (chunk_text_groups text max_size) as (gs & -> & Hcat & Hfit).
    { by rewrite Hsplit. }
    assert (Hne : Forall (fun g => g ≠ []) gs).
    { rewrite Forall_forall in Hfit |- *. intros g Hg. by destruct (Hfit g Hg). }
    rewrite join_concat, Hcat, Hsplit by done.
    split_and!; [|by rewrite split_join, <- Hsplit by (rewrite <- Hsplit; apply split_words)|done].
    destruct gs; [|done]. simpl in Hcat. by rewrite Hsplit in Hcat.
Qed.

(** C7, as the code has it: when the input has a word, the chunks are the
    joins of consecutive groups of its words, every word whole and in
    exactly one group; a chunk is within [max_size * 4] characters or is a
    single word of the input; a word longer than that is a chunk by
    itself. *)
Theorem chunk_text_budget (text : pystr) (max_size : Z) :
  split text ≠ [] →
  (∃ gs : list (list pystr),
     chunk_text text max_size = map (join space) gs
     ∧ concat gs = split text
     ∧ Forall (fits max_size) gs)
  ∧ (∀ chunk, chunk ∈ chunk_text text max_size →
       len chunk <= max_size * 4 ∨ (is_word chunk ∧ chunk ∈ split text))
  ∧ (∀ word, word ∈ split text → max_size * 4 < len word →
       word ∈ chunk_text text max_size).
Proof.
  intros Hwords.
  destruct (chunk_text_groups text max_size Hwords) as (gs & Hchunks & Hcat & Hfit).
  split_and!.
  - by exists gs.
  - intros chunk Hin. rewrite Hchunks in Hin.
    apply list_elem_of_In, in_map_iff in Hin as (g & <- & Hg).
    rewrite Forall_forall in Hfit.
    destruct (Hfit g Hg) as [Hne [Hle|Hone]]; [by left|].
    right. destruct g as [|w [|]]; try done. simpl.
    assert (Hw : w ∈ split text).
    { rewrite <- Hcat. apply list_elem_of_In, in_concat. exists [w].
      split; [done|by left]. }
    split; [|done].
    pose proof (split_words text) as Hall. rewrite Forall_forall in Hall.
    by apply Hall, list_elem_of_In.
  - intros word Hin Hlong. rewrite <- Hcat in Hin.
    apply list_elem_of_In, in_concat in Hin as (g & Hg & Hwg).
    rewrite Hchunks. apply list_elem_of_In, in_map_iff. exists g.
    split; [|done].
    rewrite Forall_forall in Hfit.
    destruct (Hfit g Hg) as [Hne [Hle|Hone]].
    + exfalso. apply in_split in Hwg as (a & b & ->).
      rewrite len_join_space, budget_of_app in Hle by done. simpl in Hle.
      pose proof (len_nonneg word).
      assert (0 <= budget_of a /\ 0 <= budget_of b) as [? ?].
      { split; [clear; induction a|clear; induction b]; simpl;
          try pose proof (len_nonneg a); lia. }
      lia.
    + destruct g as [|w [|]]; try done. simpl in *.
      destruct Hwg as [->|[]]. done.
Qed.

(** C9, as the code has it: a chunk is a run of consecutive words of the
    input joined by single spaces, hence a contiguous substring of the
    input with its white space normalised; an input with no word is its
    own chunk. *)
Theorem chunk_text_substring (text : pystr) (max_size : Z) (chunk : pystr) :
  chunk ∈ chunk_text text max_size →
  (split text = [] ∧ chunk = text)
  ∨ ((∃ before ws after,
        split text = before ++ ws ++ after ∧ chunk = join space ws)
     ∧ substring chunk (join space (split text))).
Proof.
  intros Hin. destruct (split text) as [|w0 ws0] eqn:Hsplit.
  - left. rewrite (chunk_text_no_words _ _ Hsplit) in Hin.
    apply list_elem_of_In in Hin as [<-|[]]. done.
  - right.
    destruct (chunk_text_groups text max_size) as (gs & Hchunks & Hcat & Hfit).
    { by rewrite Hsplit. }
    rewrite Hchunks in Hin.
    apply list_elem_of_In, in_map_iff in Hin as (g & <- & Hg).
    rewrite Forall_forall in Hfit.
    destruct (Hfit g Hg) as [Hne _].
    apply in_split in Hg as (gs1 & gs2 & ->).
    rewrite concat_app in Hcat. simpl in Hcat.
    rewrite <- Hsplit, <- Hcat. split.
    + by exists (concat gs1), g, (concat gs2).
    + by apply join_substring.
Qed.

(** ** The JSON decoder *)

Lemma skip_ws_length s : (length (skip_ws s) <= length s)%nat.
Proof. induction s as [|c s IH]; simpl; [lia|]. destruct (is_json_ws c); simpl; lia. Qed.

Lemma scanstring_length_bounded n :
  ∀ s content rest,
    (length s <= n)%nat → scanstring s = Some (content, rest) →
    (length rest < length s)%nat.
Proof.
  induction n as [|n IH]; intros s content rest Hn Hs.
  - destruct s; [done|simpl in Hn; lia].
  - destruct s as [|c s]; [done|]. simpl in Hs, Hn.
    repeat (case_match; simplify_eq; try done);
      repeat match goal with
             | H : scanstring ?r = Some (_, ?rest) |- _ =>
                 apply IH in H; [|simpl in *; lia]
             end; simpl in *; lia.
Qed.

Lemma scanstring_length s content rest :
  scanstring s = Some (content, rest) → (length rest < length s)%nat.
Proof. by apply (scanstring_length_bounded (length s)). Qed.

Lemma span_digits_length s ds rest :
  span_digits s = (ds, rest) →
  length s = (length ds + length rest)%nat
  ∧ match s with
    | c :: _ => is_digit c = true → (0 < length ds)%nat
    | [] => True
    end.
Proof.
  revert ds rest. induction s as [|c s IH]; intros ds rest H; simpl in H.
  - by simplify_eq.
  - destruct (is_digit c); [|by simplify_eq].
    destruct (span_digits s) as [ds' rest'] eqn:E. simplify_eq. simpl.
    destruct (IH ds' rest) as [-> _]; [done|]. split; [done|lia].
Qed.

Lemma match_number_length lim s v rest :
  match_number lim s = Scanned v rest → (length rest < length s)%nat.
Proof.
  unfold match_number. intros H.
  repeat (case_match; simplify_eq; try done);
    repeat match goal with
           | H : span_digits _ = _ |- _ =>
               apply span_digits_length in H as [? ?]
           end; simpl in *;
    repeat match goal with
           | H : is_digit ?c = true → _, H' : is_digit ?c = true |- _ =>
               specialize (H H')
           end; try lia.
Qed.

Lemma match_number_fuel lim s : match_number lim s ≠ Exhausted.
Proof. unfold match_number. by repeat case_match. Qed.

(** [int] only refuses a literal of more than 640 digits, and the scanner
    raises nothing else on a number. *)
Lemma match_number_stopped lim s e :
  match_number lim s = Stopped e → e = ValueError ∧ (640 < length s)%nat.
Proof.
  unfold match_number, exceeds_int_max_str_digits. intros H.
  repeat (case_match; simplify_eq; try done);
    (split; [done|]);
    repeat match goal with
           | H : _ && _ = true |- _ => apply andb_true_iff in H as [H ?]
           | H : (_ <? _)%nat = true |- _ => apply Nat.ltb_lt in H
           | H : span_digits _ = _ |- _ =>
               apply span_digits_length in H as [? ?]
           end; simpl in *; lia.
Qed.

(** A scan that succeeds consumes input. *)
Lemma scan_progress lim fuel :
  (∀ depth s v rest, scan_once lim fuel depth s = Scanned v rest →
     (length rest < length s)%nat)
  ∧ (∀ depth s values v rest,
       array_items lim fuel depth s values = Scanned v rest →
       (length rest < length s)%nat)
  ∧ (∀ depth s pairs v rest,
       object_pairs lim fuel depth s pairs = Scanned v rest →
       (length rest < length s)%nat).
Proof.
  induction fuel as [|fuel (IHv & IHa & IHo)]; [done|].
  split_and!.
  - intros depth s v rest H. simpl in H.
    destruct s as [|nextchar r]; [done|].
    repeat (case_match; simplify_eq; try done);
      repeat match goal with
             | H : scanstring _ = Some _ |- _ => apply scanstring_length in H
             | H : match_number _ _ = Scanned _ _ |- _ =>
                 apply match_number_length in H
             | H : array_items _ fuel _ _ _ = Scanned _ _ |- _ => apply IHa in H
             | H : object_pairs _ fuel _ _ _ = Scanned _ _ |- _ => apply IHo in H
             | H : skip_ws ?r = _ |- _ =>
                 pose proof (skip_ws_length r); rewrite H in *; clear H
             end; simpl in *; rewrite ?length_drop; try lia.
  - intros depth s values v rest H. simpl in H.
    repeat (case_match; simplify_eq; try done);
      repeat match goal with
             | H : scan_once _ fuel _ _ = Scanned _ _ |- _ => apply IHv in H
             | H : array_items _ fuel _ _ _ = Scanned _ _ |- _ => apply IHa in H
             | H : skip_ws ?r = _ |- _ =>
                 pose proof (skip_ws_length r); rewrite H in *; clear H
             end; simpl in *; try lia;
      match goal with
      | H : context [length (skip_ws ?r)] |- _ =>
          pose proof (skip_ws_length r); lia
      | |- context [length (skip_ws ?r)] =>
          pose proof (skip_ws_length r); lia
      end.
  - intros depth s pairs v rest H. simpl in H.
    repeat (case_match; simplify_eq; try done);
      repeat match goal with
             | H : scanstring _ = Some _ |- _ => apply scanstring_length in H
             | H : scan_once _ fuel _ _ = Scanned _ _ |- _ => apply IHv in H
             | H : object_pairs _ fuel _ _ _ = Scanned _ _ |- _ => apply IHo in H
             | H : skip_ws ?r = _ |- _ =>
                 pose proof (skip_ws_length r); rewrite H in *; clear H
             end; simpl in *; try lia;
      match goal with
      | H : context [length (skip_ws ?r)] |- _ =>
          pose proof (skip_ws_length r); lia
      end.
Qed.

(** Fuel above twice the length of the input is never used up. *)
Lemma scan_fuel lim fuel :
  (∀ depth s, (2 * length s < fuel)%nat →
     scan_once lim fuel depth s ≠ Exhausted)
  ∧ (∀ depth s values, (2 * length s + 1 < fuel)%nat →
       array_items lim fuel depth s values ≠ Exhausted)
  ∧ (∀ depth s pairs, (2 * length s < fuel)%nat →
       object_pairs lim fuel depth s pairs ≠ Exhausted).
Proof.
  induction fuel as [|fuel (IHv & IHa & IHo)]; [split_and!; intros; lia|].
  destruct (scan_progress lim fuel) as (Pv & Pa & Po).
  split_and!.
  - intros depth s Hs H. simpl in H.
    destruct s as [|nextchar r]; [done|]. simpl in Hs.
    repeat (case_match; simplify_eq; try done);
      match goal with
      | H : match_number _ _ = Exhausted |- _ =>
          by apply match_number_fuel in H
      | H : array_items _ fuel _ ?t _ = Exhausted, E : skip_ws ?r = ?t |- _ =>
          apply IHa in H; [done|];
          pose proof (skip_ws_length r); rewrite E in *; simpl in *; lia
      | H : object_pairs _ fuel _ ?t _ = Exhausted,
        E : skip_ws ?r = _ :: ?t |- _ =>
          apply IHo in H; [done|];
          pose proof (skip_ws_length r); rewrite E in *; simpl in *; lia
      end.
  - intros depth s values Hs H. simpl in H.
    repeat (case_match; simplify_eq; try done).
    + match goal with
      | H : array_items _ fuel _ (skip_ws ?t) _ = Exhausted,
        E : skip_ws ?r = _ :: ?t,
        S : scan_once _ fuel _ _ = Scanned _ ?r |- _ =>
          apply IHa in H; [done|]; apply Pv in S;
          pose proof (skip_ws_length r); pose proof (skip_ws_length t);
          rewrite E in *; simpl in *; lia
      end.
    + match goal with
      | H : scan_once _ fuel _ _ = Exhausted |- _ =>
          apply IHv in H; [done|lia]
      end.
  - intros depth s pairs Hs H. simpl in H.
    repeat (case_match; simplify_eq; try done).
    + match goal with
      | H : object_pairs _ fuel _ ?t _ = Exhausted,
        E1 : scanstring _ = Some (_, ?r1), E2 : skip_ws ?r1 = _ :: ?r2,
        E3 : scan_once _ fuel _ (skip_ws ?r2) = Scanned _ ?r3,
        E4 : skip_ws ?r3 = _ :: ?r4, E5 : skip_ws ?r4 = _ :: ?t |- _ =>
          apply IHo in H; [done|];
          apply scanstring_length in E1; apply Pv in E3;
          pose proof (skip_ws_length r1); pose proof (skip_ws_length r2);
          pose proof (skip_ws_length r3); pose proof (skip_ws_length r4);
          rewrite E2, E4, E5 in *; simpl in *; lia
      end.
    + match goal with
      | H : scan_once _ fuel _ (skip_ws ?r2) = Exhausted,
        E1 : scanstring _ = Some (_, ?r1), E2 : skip_ws ?r1 = _ :: ?r2 |- _ =>
          apply IHv in H; [done|];
          apply scanstring_length in E1;
          pose proof (skip_ws_length r1); pose proof (skip_ws_length r2);
          rewrite E2 in *; simpl in *; lia
      end.
Qed.

(** What stops a scan: a container opened with no room left for it, or an
    integer literal that [int] refuses. *)
Lemma scan_stopped lim fuel :
  (∀ depth s e, scan_once lim fuel depth s = Stopped e → is_limit_error e)
  ∧ (∀ depth s values e,
       array_items lim fuel depth s values = Stopped e → is_limit_error e)
  ∧ (∀ depth s pairs e,
       object_pairs lim fuel depth s pairs = Stopped e → is_limit_error e).
Proof.
  induction fuel as [|fuel (IHv & IHa & IHo)]; [done|].
  split_and!.
  - intros depth s e H. simpl in H. destruct s as [|nextchar r]; [done|].
    repeat (case_match; simplify_eq; try done);
      first [ by left
            | by eauto
            | match goal with
              | H : match_number _ _ = Stopped _ |- _ =>
                  apply match_number_stopped in H as [-> _]; by right
              end ].
  - intros depth s values e H. simpl in H.
    repeat (case_match; simplify_eq; try done); eauto.
  - intros depth s pairs e H. simpl in H.
    repeat (case_match; simplify_eq; try done); eauto.
Qed.

(** Input no longer than the room left and than 640 characters is scanned
    without an error of the interpreter. *)
Lemma scan_within lim fuel :
  (∀ depth s e, (length s <= depth)%nat → (length s <= 640)%nat →
     scan_once lim fuel depth s ≠ Stopped e)
  ∧ (∀ depth s values e, (length s <= depth)%nat → (length s <= 640)%nat →
       array_items lim fuel depth s values ≠ Stopped e)
  ∧ (∀ depth s pairs e, (length s <= depth)%nat → (length s <= 640)%nat →
       object_pairs lim fuel depth s pairs ≠ Stopped e).
Proof.
  induction fuel as [|fuel (IHv & IHa & IHo)]; [done|].
  destruct (scan_progress lim fuel) as (Pv & Pa & Po).
  split_and!.
  - intros depth s e Hd Hs H. simpl in H.
    destruct s as [|nextchar r]; [done|]. simpl in Hd, Hs.
    repeat (case_match; simplify_eq; try done); try lia;
      match goal with
      | H : match_number _ _ = Stopped _ |- _ =>
          apply match_number_stopped in H as [_ H]; simpl in *; lia
      | H : array_items _ fuel _ ?t _ = Stopped _, E : skip_ws ?r = ?t |- _ =>
          apply IHa in H; [done|..];
          pose proof (skip_ws_length r); rewrite E in *; simpl in *; lia
      | H : object_pairs _ fuel _ ?t _ = Stopped _,
        E : skip_ws ?r = _ :: ?t |- _ =>
          apply IHo in H; [done|..];
          pose proof (skip_ws_length r); rewrite E in *; simpl in *; lia
      end.
  - intros depth s values e Hd Hs H. simpl in H.
    repeat (case_match; simplify_eq; try done).
    + match goal with
      | H : array_items _ fuel _ (skip_ws ?t) _ = Stopped _,
        E : skip_ws ?r = _ :: ?t,
        S : scan_once _ fuel _ _ = Scanned _ ?r |- _ =>
          apply IHa in H; [done|..]; apply Pv in S;
          pose proof (skip_ws_length r); pose proof (skip_ws_length t);
          rewrite E in *; simpl in *; lia
      end.
    + match goal with
      | H : scan_once _ fuel _ _ = Stopped _ |- _ => by apply IHv in H
      end.
  - intros depth s pairs e Hd Hs H. simpl in H.
    repeat (case_match; simplify_eq; try done).
    + match goal with
      | H : object_pairs _ fuel _ ?t _ = Stopped _,
        E1 : scanstring _ = Some (_, ?r1), E2 : skip_ws ?r1 = _ :: ?r2,
        E3 : scan_once _ fuel _ (skip_ws ?r2) = Scanned _ ?r3,
        E4 : skip_ws ?r3 = _ :: ?r4, E5 : skip_ws ?r4 = _ :: ?t |- _ =>
          apply IHo in H; [done|..];
          apply scanstring_length in E1; apply Pv in E3;
          pose proof (skip_ws_length r1); pose proof (skip_ws_length r2);
          pose proof (skip_ws_length r3); pose proof (skip_ws_length r4);
          rewrite E2, E4, E5 in *; simpl in *; lia
      end.
    + match goal with
      | H : scan_once _ fuel _ (skip_ws ?r2) = Stopped _,
        E1 : scanstring _ = Some (_, ?r1), E2 : skip_ws ?r1 = _ :: ?r2 |- _ =>
          apply IHv in H; [done|..];
          apply scanstring_length in E1;
          pose proof (skip_ws_length r1); pose proof (skip_ws_length r2);
          rewrite E2 in *; simpl in *; lia
      end.
Qed.

(** [json.loads] on text returns a value, raises [JSONDecodeError] or is
    stopped by the interpreter. *)
Lemma json_loads_raises lim s e :
  json_loads lim s = Raise e → e = JSONDecodeError ∨ is_limit_error e.
Proof.
  unfold json_loads.
  destruct (scan_once _ _ _ _) as [obj rest| |e'|] eqn:E.
  - destruct (skip_ws rest); intros ?; simplify_eq. by left.
  - intros ?; simplify_eq. by left.
  - intros ?; simplify_eq. right.
    by destruct (scan_stopped lim (2 * length s + 1)) as (Sv & _ & _);
      eapply Sv.
  - exfalso. destruct (scan_fuel lim (2 * length s + 1)) as (Fv & _ & _).
    apply Fv in E; [done|]. pose proof (skip_ws_length s). lia.
Qed.

(** Short text is decoded or found malformed. *)
Lemma json_loads_within lim s e :
  (length s <= recursion_left lim)%nat → (length s <= 640)%nat →
  json_loads lim s = Raise e → e = JSONDecodeError.
Proof.
  intros Hd Hs H. destruct (json_loads_raises _ _ _ H) as [->|He]; [done|].
  exfalso. unfold json_loads in H.
  destruct (scan_once _ _ _ _) as [obj rest| |e'|] eqn:E.
  - destruct (skip_ws rest); simplify_eq. by destruct He.
  - simplify_eq. by destruct He.
  - destruct (scan_within lim (2 * length s + 1)) as (Wv & _ & _).
    apply Wv in E; [done|..]; pose proof (skip_ws_length s); lia.
  - destruct (scan_fuel lim (2 * length s + 1)) as (Fv & _ & _).
    apply Fv in E; [done|]. pose proof (skip_ws_length s). lia.
Qed.

(** An array comes out of [array_items], whatever goes in. *)
Lemma array_items_array lim fuel :
  ∀ depth s values v rest,
    array_items lim fuel depth s values = Scanned v rest →
    ∃ items, v = JArray items.
Proof.
  induction fuel as [|fuel IH]; [done|]. intros depth s values v rest H.
  simpl in H. repeat (case_match; simplify_eq; try done).
  - by eexists.
  - by eapply IH.
Qed.

(** An object comes out of [object_pairs]. *)
Lemma object_pairs_object lim fuel :
  ∀ depth s pairs v rest,
    object_pairs lim fuel depth s pairs = Scanned v rest → ∃ d, v = JObject d.
Proof.
  induction fuel as [|fuel IH]; [done|]. intros depth s pairs v rest H.
  simpl in H. repeat (case_match; simplify_eq; try done).
  - by eexists.
  - by eapply IH.
Qed.

Lemma match_number_number lim s v rest :
  match_number lim s = Scanned v rest → ∀ items, v ≠ JArray items.
Proof.
  unfold match_number. intros H items.
  repeat (case_match; simplify_eq; try done).
Qed.

(** Input that begins with a bracket scans to a list or not at all, and
    only such input scans to a list. *)
Lemma scan_once_bracket lim fuel depth s v rest :
  scan_once lim fuel depth (91%N :: s) = Scanned v rest →
  ∃ items, v = JArray items.
Proof.
  destruct fuel as [|fuel]; [done|]. cbn [scan_once].
  change (91 =? 34)%N with false. change (91 =? 123)%N with false.
  change (91 =? 91)%N with true. cbv iota.
  destruct depth as [|depth]; [done|].
  destruct (skip_ws s) as [|c r]; [done|].
  destruct (c =? 93)%N.
  - intros ?; simplify_eq. by eexists.
  - apply array_items_array.
Qed.

Lemma scan_once_array lim fuel depth s items rest :
  scan_once lim fuel depth s = Scanned (JArray items) rest →
  ∃ r, s = 91%N :: r.
Proof.
  destruct fuel as [|fuel]; [done|]. destruct s as [|nextchar r]; [done|].
  cbn [scan_once].
  destruct (nextchar =? 34)%N; [by repeat (case_match; simplify_eq)|].
  destruct (nextchar =? 123)%N.
  { intros H. repeat (case_match; simplify_eq; try done).
    by destruct (object_pairs_object _ _ _ _ _ _ _ H). }
  destruct (N.eqb_spec nextchar 91) as [->|_]; [by eexists|].
  intros H. repeat (case_match; simplify_eq; try done).
  exfalso. by eapply match_number_number.
Qed.

Lemma json_loads_bracket lim s v :
  json_loads lim (91%N :: s) = Ok v → ∃ items, v = JArray items.
Proof.
  unfold json_loads. change (skip_ws (91%N :: s)) with (91%N :: s).
  destruct (scan_once _ _ _ _) as [obj rest| |e|] eqn:E; try done.
  destruct (skip_ws rest); intros ?; simplify_eq.
  by eapply scan_once_bracket.
Qed.

Lemma skip_ws_suffix s : ∃ before, s = before ++ skip_ws s.
Proof.
  induction s as [|c s [before IH]]; [by exists []|]. simpl.
  destruct (is_json_ws c); [|by exists []].
  exists (c :: before). simpl. by f_equal.
Qed.

(** Text that decodes to a list has a bracket in it. *)
Lemma json_loads_array_bracket lim part items :
  json_loads lim part = Ok (JArray items) → In 91%N part.
Proof.
  unfold json_loads. intros H.
  destruct (scan_once _ _ _ _) as [obj rest| |e|] eqn:E; try done.
  destruct (skip_ws rest); [|done]. simplify_eq.
  apply scan_once_array in E as [r Hr].
  destruct (skip_ws_suffix part) as [before Hpart].
  rewrite Hpart, Hr. apply in_or_app. right. by left.
Qed.

(** ** Regular expressions *)

Lemma star_greedy_split cls s m rest :
  In (m, rest) (star_greedy cls s) → s = m ++ rest.
Proof.
  revert m rest. induction s as [|c s IH]; intros m rest H; simpl in H.
  - destruct H as [H|[]]. by simplify_eq.
  - destruct (cls c).
    + apply in_app_or in H as [H|[H|[]]]; [|by simplify_eq].
      apply in_map_iff in H as ([m' rest'] & E & H). simplify_eq.
      simpl. f_equal. by apply IH.
    + destruct H as [H|[]]. by simplify_eq.
Qed.

Lemma star_lazy_split cls s m rest :
  In (m, rest) (star_lazy cls s) → s = m ++ rest.
Proof.
  revert m rest. induction s as [|c s IH]; intros m rest H; simpl in H.
  - destruct H as [H|[]]. by simplify_eq.
  - destruct (cls c).
    + destruct H as [H|H]; [by simplify_eq|].
      apply in_map_iff in H as ([m' rest'] & E & H). simplify_eq.
      simpl. f_equal. by apply IH.
    + destruct H as [H|[]]. by simplify_eq.
Qed.

Lemma in_matches_lit text s m g rest :
  In (m, g, rest) (matches (Lit text) s) →
  m = text ∧ g = [] ∧ s = text ++ rest.
Proof.
  simpl. destruct (starts_with text s) eqn:E; [|done].
  intros [H|[]]. simplify_eq. split_and!; try done.
  apply starts_with_spec in E as [r ->]. by rewrite drop_app_length.
Qed.

Lemma in_matches_seq r1 r2 s m g rest :
  In (m, g, rest) (matches (Seq r1 r2) s) →
  ∃ m1 g1 s1 m2 g2,
    In (m1, g1, s1) (matches r1 s) ∧ In (m2, g2, rest) (matches r2 s1)
    ∧ m = m1 ++ m2 ∧ g = g1 ++ g2.
Proof.
  simpl. intros H. apply in_flat_map in H as ([[m1 g1] s1] & H1 & H).
  apply in_map_iff in H as ([[m2 g2] s2] & E & H2). simplify_eq.
  by exists m1, g1, s1, m2, g2.
Qed.

Lemma in_matches_group r s m g rest :
  In (m, g, rest) (matches (Group r) s) →
  ∃ g', In (m, g', rest) (matches r s) ∧ g = Some m :: g'.
Proof.
  simpl. intros H. apply in_map_iff in H as ([[m' g'] rest'] & E & H).
  simplify_eq. by exists g'.
Qed.

Lemma in_matches_star cls s m g rest :
  In (m, g, rest) (matches (Star cls) s) → g = [] ∧ s = m ++ rest.
Proof.
  simpl. intros H. apply in_map_iff in H as ([m' rest'] & E & H).
  simplify_eq. split; [done|]. by eapply star_greedy_split.
Qed.

Lemma in_matches_star_lazy cls s m g rest :
  In (m, g, rest) (matches (StarLazy cls) s) → g = [] ∧ s = m ++ rest.
Proof.
  simpl. intros H. apply in_map_iff in H as ([m' rest'] & E & H).
  simplify_eq. split; [done|]. by eapply star_lazy_split.
Qed.

Lemma in_matches_opt r s m g rest :
  In (m, g, rest) (matches (Opt r) s) →
  In (m, g, rest) (matches r s)
  ∨ (m = [] ∧ g = replicate (ngroups r) None ∧ rest = s).
Proof.
  simpl. intros H. apply in_app_or in H as [H|[H|[]]]; [by left|right].
  by simplify_eq.
Qed.

(** What a match consumes is at the head of the input. *)
Lemma matches_split r : ∀ s m g rest,
  In (m, g, rest) (matches r s) → s = m ++ rest.
Proof.
  induction r as [text|r1 IH1 r2 IH2|r IH|cls|cls|r IH]; intros s m g rest H.
  - by apply in_matches_lit in H as (-> & _ & ->).
  - apply in_matches_seq in H as (m1 & g1 & s1 & m2 & g2 & H1 & H2 & -> & _).
    apply IH1 in H1 as ->. apply IH2 in H2 as ->. by rewrite app_assoc.
  - apply in_matches_opt in H as [H|(-> & _ & ->)]; [by eapply IH|done].
  - by apply in_matches_star in H as [_ ->].
  - by apply in_matches_star_lazy in H as [_ ->].
  - apply in_matches_group in H as (g' & H & _). by eapply IH.
Qed.

(** [re.search] reports a match of the pattern at some position. *)
Lemma search_found r s mt :
  search r s = Some mt →
  ∃ before rest,
    s = before ++ group0 mt ++ rest
    ∧ In (group0 mt, groups mt, rest) (matches r (group0 mt ++ rest)).
Proof.
  induction s as [|c s IH]; simpl.
  - destruct (matches r []) as [|[[m g] rest] l] eqn:E; [done|].
    intros ?. simplify_eq. simpl.
    assert (Hin : In (m, g, rest) (matches r [])) by (rewrite E; by left).
    pose proof (matches_split _ _ _ _ _ Hin) as Hs.
    exists [], rest. by rewrite <- Hs.
  - destruct (matches r (c :: s)) as [|[[m g] rest] l] eqn:E.
    + intros H. destruct (IH H) as (before & rest & -> & Hin).
      by exists (c :: before), rest.
    + intros ?. simplify_eq. simpl.
      assert (Hin : In (m, g, rest) (matches r (c :: s))) by (rewrite E; by left).
      pose proof (matches_split _ _ _ _ _ Hin) as Hs.
      exists [], rest. by rewrite <- Hs.
Qed.

(** The group of the fenced pattern begins with a bracket and lies in the
    input. *)
Lemma search_fenced_array s mt :
  search fenced_array_re s = Some mt →
  ∃ body, groups mt = [Some (91%N :: body)] ∧ substring (91%N :: body) s.
Proof.
  intros H. apply search_found in H as (before & rest & -> & H).
  destruct mt as [m g]. cbn [group0 groups] in *. unfold fenced_array_re in H.
  apply in_matches_seq in H as (m1 & g1 & s1 & m' & g' & H1 & H & -> & ->).
  apply in_matches_lit in H1 as (-> & -> & _).
  apply in_matches_seq in H as (m2 & g2 & s2 & m'' & g'' & H2 & H & -> & ->).
  assert (g2 = []) as ->.
  { apply in_matches_opt in H2 as [H2|(_ & -> & _)]; [|done].
    by apply in_matches_lit in H2 as (_ & -> & _). }
  clear H2.
  apply in_matches_seq in H as (m3 & g3 & s3 & m' & g' & H3 & H & -> & ->).
  apply in_matches_star in H3 as [-> _].
  apply in_matches_seq in H as (m4 & g4 & s4 & m'' & g'' & H4 & H & -> & ->).
  apply in_matches_group in H4 as (g4' & H4 & ->).
  apply in_matches_seq in H4 as (m41 & g41 & s41 & m42 & g42 & H41 & H4 & -> & ->).
  apply in_matches_lit in H41 as (-> & -> & _).
  apply in_matches_seq in H4 as (m43 & g43 & s43 & m44 & g44 & H43 & H44 & -> & ->).
  apply in_matches_star_lazy in H43 as [-> _].
  apply in_matches_lit in H44 as (-> & -> & _).
  apply in_matches_seq in H as (m5 & g5 & s5 & m6 & g6 & H5 & H6 & -> & ->).
  apply in_matches_star in H5 as [-> _].
  apply in_matches_lit in H6 as (-> & -> & _).
  exists (m43 ++ py "]"). split; [done|].
  exists (before ++ py "```" ++ m2 ++ m3),
         (m5 ++ py "```" ++ rest).
  change (91%N :: m43 ++ py "]") with (py "[" ++ m43 ++ py "]").
  by rewrite <- !app_assoc.
Qed.

(** The match of the bracket pattern begins with a bracket and lies in the
    input. *)
Lemma search_array s mt :
  search array_re s = Some mt →
  ∃ body, group0 mt = 91%N :: body ∧ substring (91%N :: body) s.
Proof.
  intros H. apply search_found in H as (before & rest & -> & H).
  destruct mt as [m g]. cbn [group0 groups] in *. unfold array_re in H.
  apply in_matches_seq in H as (m1 & g1 & s1 & m' & g' & H1 & H & -> & ->).
  apply in_matches_lit in H1 as (-> & -> & _).
  exists m'. split; [done|]. by exists before, rest.
Qed.

(** ** The response parser *)

(** An attempt that gives an array decoded it, and one that is stopped was
    stopped in [json.loads] by an error of the interpreter. *)
Lemma decoded_array_some lim part items :
  decoded_array lim part = Ok (Some items) →
  json_loads lim part = Ok (JArray items).
Proof.
  unfold decoded_array.
  destruct (json_loads lim part) as [[]|[]]; intros ?; by simplify_eq.
Qed.

Lemma decoded_array_raise lim part e :
  decoded_array lim part = Raise e →
  json_loads lim part = Raise e ∧ is_limit_error e.
Proof.
  unfold decoded_array. intros H.
  destruct (json_loads lim part) as [[]|e'] eqn:E; try done.
  destruct (json_loads_raises _ _ _ E) as [->|He]; [done|].
  destruct e'; by simplify_eq.
Qed.

Lemma decoded_array_none lim part :
  (∀ items, json_loads lim part ≠ Ok (JArray items)) →
  (∀ e, json_loads lim part = Raise e → e = JSONDecodeError) →
  decoded_array lim part = Ok None.
Proof.
  unfold decoded_array. intros Hnone Hsoft.
  destruct (json_loads lim part) as [v|e].
  - destruct v; try done. by destruct (Hnone items).
  - by rewrite (Hsoft e eq_refl).
Qed.

(** The [try] around the decoding of a group that begins with a bracket. *)
Lemma try_loads_bracket lim m i body otherwise :
  group m i = Ok (JString (91%N :: body)) →
  try_loads_group lim m i otherwise
  = match decoded_array lim (91%N :: body) with
    | Ok (Some items) => Ok (JArray items)
    | Ok None => otherwise
    | Raise e => Raise e
    end.
Proof.
  intros Hgroup. unfold try_loads_group, decoded_array. rewrite Hgroup.
  cbn [result_bind loads].
  destruct (json_loads lim (91%N :: body)) as [v|e] eqn:E.
  - by destruct (json_loads_bracket _ _ _ E) as [items ->].
  - by destruct e.
Qed.

Lemma find_array_spec lim response :
  match search array_re response with
  | Some json_match => try_loads_group lim json_match 0 (Ok (JArray []))
  | None => Ok (JArray [])
  end
  = (let* items := first_success [bracketed lim] response in
     Ok (JArray items))%result.
Proof.
  cbn [first_success]. unfold bracketed.
  destruct (search array_re response) as [m|] eqn:E; [|done].
  destruct (search_array _ _ E) as (body & Hbody & _).
  rewrite (try_loads_bracket lim m 0 body) by (simpl; by rewrite Hbody).
  rewrite Hbody. by destruct (decoded_array _ _) as [[items|]|e].
Qed.

Lemma find_fenced_spec lim response :
  match search fenced_array_re response with
  | Some json_match =>
      try_loads_group lim json_match 1
        match search array_re response with
        | Some json_match => try_loads_group lim json_match 0 (Ok (JArray []))
        | None => Ok (JArray [])
        end
  | None =>
      match search array_re response with
      | Some json_match => try_loads_group lim json_match 0 (Ok (JArray []))
      | None => Ok (JArray [])
      end
  end
  = (let* items := first_success [fenced_block lim; bracketed lim] response in
     Ok (JArray items))%result.
Proof.
  rewrite find_array_spec. cbn [first_success]. unfold fenced_block.
  destruct (search fenced_array_re response) as [m|] eqn:E; [|done].
  destruct (search_fenced_array _ _ E) as (body & Hbody & _).
  rewrite (try_loads_bracket lim m 1 body) by (simpl; by rewrite Hbody).
  rewrite Hbody. by destruct (decoded_array _ _) as [[items|]|e].
Qed.

(** On text the parser does what the three strategies, tried in order,
    come to. *)
Lemma extract_json_from_response_first_success lim response :
  extract_json_from_response lim (JString response)
  = (let* items := candidates lim response in Ok (JArray items))%result.
Proof.
  unfold extract_json_from_response. cbn [re_search result_bind loads].
  rewrite find_fenced_spec. unfold candidates.
  cbn [first_success]. unfold whole_blob, decoded_array.
  destruct (json_loads lim response) as [v|e]; [by destruct v|by destruct e].
Qed.

(** A value that is not text is refused by [json.loads]. *)
Lemma extract_json_from_response_not_text lim response :
  (∀ text, response ≠ JString text) →
  extract_json_from_response lim response = Raise TypeError.
Proof.
  intros Hnot. destruct response; try done. by destruct (Hnot s).
Qed.

(** Each strategy attempts to decode one part of the response, when it
    attempts anything. *)
Lemma strategy_attempt lim response strategy :
  strategy ∈ [whole_blob lim; fenced_block lim; bracketed lim] →
  strategy response = Ok None
  ∨ ∃ part, substring part response
            ∧ strategy response = decoded_array lim part.
Proof.
  intros Hin. apply list_elem_of_In in Hin as [<-|[<-|[<-|[]]]].
  - right. exists response. split; [exists [], []; by rewrite app_nil_r|done].
  - unfold fenced_block.
    destruct (search fenced_array_re response) as [m|] eqn:E; [|by left].
    destruct (search_fenced_array _ _ E) as (body & Hbody & Hsub).
    rewrite Hbody. right. by exists (91%N :: body).
  - unfold bracketed.
    destruct (search array_re response) as [m|] eqn:E; [|by left].
    destruct (search_array _ _ E) as (body & Hbody & Hsub).
    rewrite Hbody. right. by exists (91%N :: body).
Qed.

(** A strategy only ever finds a JSON array written somewhere in the
    response. *)
Lemma strategy_finds_substring lim response strategy items :
  strategy ∈ [whole_blob lim; fenced_block lim; bracketed lim] →
  strategy response = Ok (Some items) →
  ∃ part, substring part response ∧ json_loads lim part = Ok (JArray items).
Proof.
  intros Hin Hs.
  destruct (strategy_attempt _ response _ Hin) as [H|(part & Hsub & H)];
    rewrite H in Hs; [done|].
  exists part. split; [done|]. by apply decoded_array_some.
Qed.

(** A strategy is only stopped by an error of the interpreter met while
    decoding a part of the response. *)
Lemma strategy_stopped lim response strategy e :
  strategy ∈ [whole_blob lim; fenced_block lim; bracketed lim] →
  strategy response = Raise e →
  is_limit_error e
  ∧ ∃ part, substring part response ∧ json_loads lim part = Raise e.
Proof.
  intros Hin Hs.
  destruct (strategy_attempt _ response _ Hin) as [H|(part & Hsub & H)];
    rewrite H in Hs; [done|].
  apply decoded_array_raise in Hs as [Hs He]. split; [done|]. by exists part.
Qed.

Lemma candidates_found lim response items :
  candidates lim response = Ok items →
  items = []
  ∨ ∃ part, substring part response
            ∧ json_loads lim part = Ok (JArray items).
Proof.
  unfold candidates. cbn [first_success]. intros H.
  destruct (whole_blob lim response) as [[found|]|e] eqn:E1; simplify_eq.
  { right. eapply strategy_finds_substring; [|done].
    apply list_elem_of_In; simpl; auto. }
  destruct (fenced_block lim response) as [[found|]|e] eqn:E2; simplify_eq.
  { right. eapply strategy_finds_substring; [|done].
    apply list_elem_of_In; simpl; auto. }
  destruct (bracketed lim response) as [[found|]|e] eqn:E3; simplify_eq;
    [|by left].
  right. eapply strategy_finds_substring; [|done].
  apply list_elem_of_In; simpl; auto.
Qed.

Lemma candidates_stopped lim response e :
  candidates lim response = Raise e →
  is_limit_error e
  ∧ ∃ part, substring part response ∧ json_loads lim part = Raise e.
Proof.
  unfold candidates. cbn [first_success]. intros H.
  destruct (whole_blob lim response) as [[found|]|e1] eqn:E1; simplify_eq.
  2:{ eapply strategy_stopped; [|done]. apply list_elem_of_In; simpl; auto. }
  destruct (fenced_block lim response) as [[found|]|e2] eqn:E2; simplify_eq.
  2:{ eapply strategy_stopped; [|done]. apply list_elem_of_In; simpl; auto. }
  destruct (bracketed lim response) as [[found|]|e3] eqn:E3; simplify_eq.
  eapply strategy_stopped; [|done]. apply list_elem_of_In; simpl; auto.
Qed.

(** What the parser returns is a list, and what it raises is [TypeError],
    for a value that is not text, or an error of the interpreter. *)
Lemma extract_json_from_response_ok lim response v :
  extract_json_from_response lim response = Ok v →
  ∃ text items,
    response = JString text ∧ v = JArray items
    ∧ candidates lim text = Ok items.
Proof.
  destruct response as [| | | |text| |]; try done.
  rewrite extract_json_from_response_first_success.
  destruct (candidates lim text) as [items|e] eqn:E; [|done].
  intros ?; simplify_eq/=. by exists text, items.
Qed.

Lemma extract_json_from_response_raise lim response e :
  extract_json_from_response lim response = Raise e →
  (e = TypeError ∧ ∀ text, response ≠ JString text)
  ∨ ∃ text, response = JString text ∧ candidates lim text = Raise e.
Proof.
  destruct response as [| | | |text| |].
  5:{ rewrite extract_json_from_response_first_success.
      destruct (candidates lim text) as [items|e'] eqn:E; [done|].
      intros ?; simplify_eq/=. right. by exists text. }
  all: intros H; cbv in H; simplify_eq; left; by split.
Qed.

(** C4, as the code has it.  On a text, [extract_json_from_response]
    returns the array of the first of the three strategies, in their order,
    that finds one, and the empty list when none does.  Only
    [JSONDecodeError] is caught: an attempt that the interpreter stops
    ([RecursionError], [ValueError]) ends the function with that error.  So
    a response in which no part decodes to a JSON array, and no part stops
    the decoder, gives the empty list. *)
Theorem extract_json_from_response_strategies (lim : interpreter)
    (response : pystr) :
  extract_json_from_response lim (JString response)
  = (let* items :=
       first_success [whole_blob lim; fenced_block lim; bracketed lim]
         response in
     Ok (JArray items))%result
  ∧ (∀ e, extract_json_from_response lim (JString response) = Raise e →
       is_limit_error e
       ∧ ∃ part, substring part response ∧ json_loads lim part = Raise e)
  ∧ ((∀ part items, substring part response →
        json_loads lim part ≠ Ok (JArray items)) →
     (∀ part e, substring part response →
        json_loads lim part = Raise e → e = JSONDecodeError) →
     extract_json_from_response lim (JString response) = Ok (JArray [])).
Proof.
  split; [apply extract_json_from_response_first_success|]. split.
  - intros e H. apply extract_json_from_response_raise in H
      as [[_ Hnot]|(text & ? & H)]; [by destruct (Hnot response)|].
    simplify_eq. by apply candidates_stopped.
  - intros Hnone Hsoft. rewrite extract_json_from_response_first_success.
    unfold candidates.
    assert (Hs : ∀ strategy,
              strategy ∈ [whole_blob lim; fenced_block lim; bracketed lim] →
              strategy response = Ok None).
    { intros strategy Hin.
      destruct (strategy_attempt _ response _ Hin) as [H|(part & Hsub & H)];
        [done|].
      rewrite H. apply decoded_array_none.
      - intros items. by apply Hnone.
      - intros e. by apply Hsoft. }
    cbn [first_success].
    rewrite (Hs (whole_blob lim)), (Hs (fenced_block lim)),
      (Hs (bracketed lim)); [done|..];
      apply list_elem_of_In; simpl; auto.
Qed.

(** ** The record validator *)

Section Validator.

Variable sv : json → option pystr.

Lemma all_in_object keys d :
  all_in keys (JObject d)
  = Ok (forallb (fun key => bool_decide (is_Some (dict_get key d))) keys).
Proof.
  induction keys as [|key keys IH]; [done|]. simpl.
  destruct (bool_decide _); [exact IH|done].
Qed.

(** Only a [dict] gets through the [try]. *)
Lemma validate_mcq_body_object d r :
  validate_mcq_body sv d = Ok (Some r) → ∃ pairs, d = JObject pairs.
Proof.
  unfold validate_mcq_body. destruct d; try done; [| |by eexists].
  - destruct (all_in _ _) as [[]|]; done.
  - destruct (all_in _ _) as [[]|]; done.
Qed.

(** What the validator accepts, and what it makes of it. *)
Lemma validate_mcq_some d m :
  validate_mcq sv d = Some m ↔
  ∃ pairs q items ans a,
    d = JObject pairs
    ∧ dict_get (py "question") pairs = Some q
    ∧ dict_get (py "options") pairs = Some (JArray items)
    ∧ length items = 4%nat
    ∧ dict_get (py "answer") pairs = Some ans
    ∧ as_int ans = Some a ∧ 0 <= a <= 3
    ∧ MCQ_init sv q items a
        (match dict_get (py "explanation") pairs with
         | Some e => e
         | None => JString []
         end) = Ok m.
Proof.
  unfold validate_mcq. split.
  - destruct (validate_mcq_body sv d) as [[r|]|] eqn:E; try done.
    intros ?; simplify_eq.
    destruct (validate_mcq_body_object _ _ E) as [pairs ->].
    unfold validate_mcq_body in E. rewrite all_in_object in E.
    cbn [result_bind forallb py_getitem py_get] in E.
    destruct (dict_get (py "question") pairs) as [q|] eqn:Eq;
      [|by rewrite bool_decide_eq_false_2 in E by (by intros [? ?])].
    destruct (dict_get (py "options") pairs) as [o|] eqn:Eo;
      [|rewrite (bool_decide_eq_false_2 (is_Some None)) in E by (by intros [? ?]);
        by rewrite andb_false_r in E].
    destruct (dict_get (py "answer") pairs) as [ans|] eqn:Ea;
      [|rewrite (bool_decide_eq_false_2 (is_Some None)) in E by (by intros [? ?]);
        by rewrite !andb_false_r in E].
    rewrite !bool_decide_eq_true_2 in E by (by eexists).
    cbn [andb negb result_bind] in E.
    destruct o as [| | | | |items|]; try done.
    destruct (Z.eqb_spec (len items) 4) as [Hlen|]; [|done].
    cbn [negb result_bind] in E.
    destruct (as_int ans) as [a|] eqn:Eans; [|done].
    destruct (Z.leb_spec 0 a), (Z.leb_spec a 3); try done.
    cbn [andb negb result_bind] in E.
    destruct (MCQ_init _ _ _ _) as [mcq|] eqn:Einit; [|done].
    simpl in E. simplify_eq.
    exists pairs, q, items, ans, a. unfold len in Hlen.
    split_and!; try done; lia.
  - intros (pairs & q & items & ans & a & -> & Eq & Eo & Hlen & Ea & Eans
            & Hrange & Einit).
    unfold validate_mcq_body. rewrite all_in_object.
    cbn [result_bind forallb py_getitem py_get].
    rewrite Eq, Eo, Ea. rewrite !bool_decide_eq_true_2 by (by eexists).
    cbn [andb negb result_bind]. unfold len. rewrite Hlen.
    cbn [Z.of_nat Z.eqb Pos.of_succ_nat Pos.succ Pos.eqb negb result_bind].
    rewrite Eans.
    destruct (Z.leb_spec 0 a), (Z.leb_spec a 3); try lia.
    cbn [andb negb result_bind]. by rewrite Einit.
Qed.

Lemma MCQ_init_well_shaped q items a e m :
  length items = 4%nat → 0 <= a <= 3 →
  MCQ_init sv q items a e = Ok m → well_shaped m.
Proof.
  unfold MCQ_init. intros Hlen Ha H.
  destruct (sv q); [|done].
  destruct (mapM sv items) as [os|] eqn:Eos; [|done].
  destruct (optional_str_validator sv e); [|done].
  simplify_eq. split; simpl; [|done].
  apply length_mapM in Eos. lia.
Qed.

Lemma validate_mcq_well_shaped d m :
  validate_mcq sv d = Some m → well_shaped m.
Proof.
  intros H. apply validate_mcq_some in H
    as (pairs & q & items & ans & a & _ & _ & _ & Hlen & _ & _ & Ha & Hinit).
  by eapply MCQ_init_well_shaped.
Qed.

End Validator.

(** C3, as the code has it: [validate_mcq] returns an MCQ exactly when the
    record is a JSON object with the keys question, options and answer,
    options is a list of exactly 4 elements, answer is an integer (a
    boolean counts as one) in [0,3], and the MCQ model accepts the fields;
    the MCQ then has the validated fields, its explanation read from the
    record's explanation value or from the empty string when the key is
    absent.  Anything else gives [None]; nothing is raised. *)
Theorem validate_mcq_accepts (sv : json → option pystr) (d : json) (m : MCQ) :
  validate_mcq sv d = Some m ↔
  ∃ pairs q items ans a qtext otexts etext,
    d = JObject pairs
    ∧ dict_get (py "question") pairs = Some q
    ∧ dict_get (py "options") pairs = Some (JArray items)
    ∧ length items = 4%nat
    ∧ dict_get (py "answer") pairs = Some ans
    ∧ as_int ans = Some a ∧ 0 <= a <= 3
    ∧ sv q = Some qtext
    ∧ mapM sv items = Some otexts
    ∧ optional_str_validator sv
        (match dict_get (py "explanation") pairs with
         | Some e => e
         | None => JString []
         end) = Some etext
    ∧ m = {| question := qtext; options := otexts; answer := a;
             explanation := etext |}.
Proof.
  rewrite validate_mcq_some. split.
  - intros (pairs & q & items & ans & a & -> & Eq & Eo & Hlen & Ea & Eans
            & Hrange & Einit).
    unfold MCQ_init in Einit.
    destruct (sv q) as [qtext|] eqn:E1; [|done].
    destruct (mapM sv items) as [otexts|] eqn:E2; [|done].
    destruct (optional_str_validator sv _) as [etext|] eqn:E3; [|done].
    simplify_eq. exists pairs, q, items, ans, a, qtext, otexts, etext.
    split_and!; first [assumption|reflexivity|lia].
  - intros (pairs & q & items & ans & a & qtext & otexts & etext & -> & Eq & Eo
            & Hlen & Ea & Eans & Hrange & E1 & E2 & E3 & ->).
    exists pairs, q, items, ans, a. split_and!; try done; try lia.
    unfold MCQ_init. by rewrite E1, E2, E3.
Qed.

(** C10. A record that is valid otherwise and whose answer is the JSON
    boolean [true] or [false] is accepted, with answer 1 or 0. *)
Theorem validate_mcq_boolean_answer (sv : json → option pystr)
    (pairs : pydict) (q : json) (items : list json) (b : bool)
    (qtext : pystr) (otexts : list pystr) (etext : option pystr) :
  dict_get (py "question") pairs = Some q →
  dict_get (py "options") pairs = Some (JArray items) →
  length items = 4%nat →
  dict_get (py "answer") pairs = Some (JBool b) →
  sv q = Some qtext →
  mapM sv items = Some otexts →
  optional_str_validator sv
    (match dict_get (py "explanation") pairs with
     | Some e => e
     | None => JString []
     end) = Some etext →
  validate_mcq sv (JObject pairs)
  = Some {| question := qtext; options := otexts;
            answer := if b then 1 else 0; explanation := etext |}.
Proof.
  intros Eq Eo Hlen Ea E1 E2 E3. apply validate_mcq_some.
  exists pairs, q, items, (JBool b), (if b then 1 else 0).
  split_and!; try done; try (destruct b; lia).
  unfold MCQ_init. by rewrite E1, E2, E3.
Qed.

(** ** The orchestrator *)

Section Orchestrator.

Variable sv : json → option pystr.
Variable interp : interpreter.
Variable service : nat → pystr → post_outcome.

(** What the client raises. *)
Lemma call_ollama_generate_raises post e :
  call_ollama_generate post = Raise e →
  e = HTTPException 503 CannotConnect
  ∨ e = HTTPException 504 RequestTimedOut
  ∨ e = HTTPException 500 OllamaError.
Proof.
  destruct post as [| | |status_code result]; simpl; intros H;
    simplify_eq; auto.
  destruct (negb _); simplify_eq; auto.
  destruct (py_get _ _ _); simplify_eq; auto.
Qed.

Lemma call_ollama_generate_failure post :
  is_failure post →
  ∃ status_code detail,
    call_ollama_generate post = Raise (HTTPException status_code detail).
Proof.
  destruct post as [| | |status_code result]; simpl; intros H;
    try by do 2 eexists.
  destruct (Z.eqb_spec status_code 200) as [->|]; [|by do 2 eexists].
  destruct H as [H|H]; [done|]. simpl.
  destruct result; try by do 2 eexists. by destruct (H pairs).
Qed.

(** Taking in a reply: the records of the array the parser returns are
    added, and what the parser raises goes through. *)
Lemma collected_ok n response all all1 :
  collected sv interp n response all = Ok all1 →
  ∃ items,
    extract_json_from_response interp response = Ok (JArray items)
    ∧ all1 = add_valid sv n items all.
Proof.
  unfold collected.
  destruct (extract_json_from_response interp response) as [v|e] eqn:E;
    [|done].
  destruct (extract_json_from_response_ok _ _ _ E) as (text & items & -> & -> & _).
  simpl. intros ?; simplify_eq. by exists items.
Qed.

Lemma collected_raise n response all e :
  collected sv interp n response all = Raise e →
  extract_json_from_response interp response = Raise e.
Proof.
  unfold collected.
  destruct (extract_json_from_response interp response) as [v|e'] eqn:E.
  - destruct (extract_json_from_response_ok _ _ _ E) as (text & items & -> & -> & _).
    done.
  - simpl. congruence.
Qed.

Lemma add_valid_len n items : ∀ all,
  len all <= n → len (add_valid sv n items all) <= n.
Proof.
  induction items as [|d items IH]; intros all Hall; simpl; [done|].
  destruct (validate_mcq sv d) as [mcq|]; [|by apply IH].
  destruct (Z.ltb_spec (len all) n); [|by apply IH].
  apply IH. rewrite len_app. unfold len at 2. simpl. lia.
Qed.

Lemma add_valid_well_shaped n items : ∀ all,
  Forall well_shaped all → Forall well_shaped (add_valid sv n items all).
Proof.
  induction items as [|d items IH]; intros all Hall; simpl; [done|].
  destruct (validate_mcq sv d) as [mcq|] eqn:E; [|by apply IH].
  destruct (len all <? n); [|by apply IH].
  apply IH. apply Forall_app_2; [done|]. apply Forall_cons_2; [|constructor].
  by eapply validate_mcq_well_shaped.
Qed.

Lemma add_valid_take n items : ∀ all,
  add_valid sv n items all
  = all ++ take (Z.to_nat (n - len all)) (valid_records sv items).
Proof.
  unfold valid_records.
  induction items as [|d items IH]; intros all; simpl.
  - by rewrite take_nil, app_nil_r.
  - destruct (validate_mcq sv d) as [mcq|]; [|apply IH].
    destruct (Z.ltb_spec (len all) n) as [Hlt|Hge].
    + rewrite IH, len_app, <- app_assoc. unfold len at 2. simpl.
      replace (Z.to_nat (n - len all))
        with (S (Z.to_nat (n - (len all + 1)))) by lia.
      done.
    + rewrite IH. replace (Z.to_nat (n - len all)) with O by lia.
      by rewrite !take_0.
Qed.

Lemma add_valid_from n items all m :
  m ∈ add_valid sv n items all →
  m ∈ all ∨ ∃ d, d ∈ items ∧ validate_mcq sv d = Some m.
Proof.
  rewrite add_valid_take. intros H.
  apply elem_of_app in H as [H|H]; [by left|right].
  apply elem_of_take in H as (i & Hi & _).
  apply list_elem_of_lookup_2 in Hi. by apply list_elem_of_omap in Hi.
Qed.

(** One pass of the loop body: one call, and a second one exactly when the
    first chunk has left the list empty; an error met on the way ends the
    pass. *)
Lemma process_chunk_run n d q idx chunk all log :
  process_chunk sv interp service n d q idx chunk all log =
  let prompt := format_prompt (Z.min (n - len all) q) d (take 3000 chunk) in
  let r1 := call_ollama_generate (service (length log) prompt) in
  let c1 := {| call_site_of := FirstAttempt; call_chunk := idx;
               call_prompt := prompt; call_result := r1 |} in
  match r1 with
  | Raise e => (log ++ [c1], Raise e)
  | Ok response =>
      match collected sv interp n response all with
      | Raise e => (log ++ [c1], Raise e)
      | Ok all1 =>
          if (len all1 =? 0) && bool_decide (idx = O)
          then
            let r2 := call_ollama_generate
                        (service (S (length log))
                                 (prompt ++ retry_instruction)) in
            let c2 := {| call_site_of := RetryAttempt; call_chunk := idx;
                         call_prompt := prompt ++ retry_instruction;
                         call_result := r2 |} in
            (log ++ [c1; c2],
             match r2 with
             | Raise e => Raise e
             | Ok response2 => collected sv interp n response2 all1
             end)
          else (log ++ [c1], Ok all1)
      end
  end.
Proof.
  unfold process_chunk, io_bind, generate, collect, io_lift, io_ret.
  cbv zeta.
  destruct (call_ollama_generate (service (length log) _)) as [response|e];
    [|done].
  destruct (collected sv interp n response all) as [all1|e]; [|done].
  destruct ((len _ =? 0) && _); [|done].
  rewrite length_app. simpl length.
  replace (length log + 1)%nat with (S (length log)) by lia.
  rewrite <- app_assoc. cbn [app].
  by destruct (call_ollama_generate _) as [response2|e].
Qed.

Lemma faithful_app start new1 new2 :
  faithful service start new1 →
  faithful service (start + length new1) new2 →
  faithful service start (new1 ++ new2).
Proof.
  intros H1 H2 i c Hi. apply lookup_app_Some in Hi as [Hi|[Hge Hi]].
  - by apply H1.
  - rewrite (H2 _ _ Hi). do 2 f_equal. lia.
Qed.

Lemma fails_last_app {A} new1 new2 (r : result A) :
  Forall (fun c => ∃ response, call_result c = Ok response) new1 →
  fails_last new2 r → fails_last (new1 ++ new2) r.
Proof.
  intros H1 H2 i c e Hi He. apply lookup_app_Some in Hi as [Hi|[Hge Hi]].
  - rewrite Forall_forall in H1.
    destruct (H1 c) as [response Hr]; [|congruence].
    apply list_elem_of_In. by eapply list_elem_of_lookup_2.
  - destruct (H2 _ _ _ Hi He) as [-> Hlen]. split; [done|].
    rewrite length_app. lia.
Qed.

(** Goals about the one or two calls of a pass. *)
Ltac log_cases :=
  unfold faithful, fails_last, raised_at; intros; simplify_eq;
  repeat match goal with
         | H : (_ :: _) !! ?i = Some _ |- _ => destruct i; simplify_eq/=
         | H : [] !! _ = Some _ |- _ => done
         end;
  rewrite ?Nat.add_0_r, ?Nat.add_1_r;
  first [done | congruence | by split
        | by eexists [], _; split; [|left]
        | by eexists [_], _; split; [|left]
        | by eexists [], _; split; [|right; eexists]
        | by eexists [_], _; split; [|right; eexists]
        | by repeat (apply Forall_cons_2; [try done; by eexists|]) ].

(** What a pass of the loop body leaves behind. *)
Lemma process_chunk_spec n d q idx chunk all log log' r :
  process_chunk sv interp service n d q idx chunk all log = (log', r) →
  ∃ new,
    log' = log ++ new
    ∧ new ≠ []
    ∧ faithful service (length log) new
    ∧ fails_last new r
    ∧ (∀ e, r = Raise e →
         ∃ front c, new = front ++ [c] ∧ raised_at interp c e)
    ∧ (∀ mcqs, r = Ok mcqs →
         Forall (fun c => ∃ response, call_result c = Ok response) new
         ∧ (len all <= n → len mcqs <= n)
         ∧ (Forall well_shaped all → Forall well_shaped mcqs))
    ∧ (idx ≠ O → Forall (fun c => call_site_of c = FirstAttempt) new).
Proof.
  rewrite process_chunk_run. cbv zeta.
  generalize (format_prompt (Z.min (n - len all) q) d (take 3000 chunk)).
  generalize retry_instruction. intros suffix prompt.
  destruct (call_ollama_generate (service (length log) prompt))
    as [response|e] eqn:E1.
  - destruct (collected sv interp n response all) as [all1|e] eqn:C1.
    + destruct (collected_ok _ _ _ _ C1) as (items1 & _ & ->).
      destruct ((len _ =? 0) && bool_decide (idx = O)) eqn:Eretry.
      * apply andb_true_iff in Eretry as [_ Hidx].
        apply bool_decide_eq_true in Hidx as ->.
        destruct (call_ollama_generate (service (S (length log)) _))
          as [response2|e] eqn:E2.
        -- destruct (collected sv interp n response2 _) as [all2|e] eqn:C2;
             intros ?; simplify_eq;
             eexists; (split; [reflexivity|]); split_and!; try log_cases.
           ++ intros mcqs ?; simplify_eq.
              destruct (collected_ok _ _ _ _ C2) as (items2 & _ & ->).
              split_and!; [log_cases|..]; intros.
              ** by do 2 apply add_valid_len.
              ** by do 2 apply add_valid_well_shaped.
           ++ intros e' ?; simplify_eq. apply collected_raise in C2.
              eexists [_], _. split; [done|]. right. by eexists.
        -- intros ?; simplify_eq.
           eexists; (split; [reflexivity|]); split_and!; try log_cases.
      * intros ?; simplify_eq.
        eexists; (split; [reflexivity|]); split_and!; try log_cases.
        intros mcqs ?; simplify_eq. split_and!; [log_cases|..]; intros.
        -- by apply add_valid_len.
        -- by apply add_valid_well_shaped.
    + intros ?; simplify_eq. apply collected_raise in C1.
      eexists; (split; [reflexivity|]); split_and!; log_cases.
  - intros ?; simplify_eq.
    eexists; (split; [reflexivity|]); split_and!; log_cases.
Qed.

(** What the loop leaves behind, from any chunk index on. *)
Lemma chunk_loop_spec n d q : ∀ chunks idx all log log' r,
  chunk_loop sv interp service n d q idx chunks all log = (log', r) →
  ∃ new,
    log' = log ++ new
    ∧ faithful service (length log) new
    ∧ fails_last new r
    ∧ (∀ e, r = Raise e →
         ∃ front c, new = front ++ [c] ∧ raised_at interp c e)
    ∧ (∀ mcqs, r = Ok mcqs →
         (len all <= n → len mcqs <= n)
         ∧ (Forall well_shaped all → Forall well_shaped mcqs))
    ∧ (idx ≠ O → Forall (fun c => call_site_of c = FirstAttempt) new).
Proof.
  induction chunks as [|chunk rest IH]; intros idx all log log' r H.
  - simpl in H. unfold io_ret in H. simplify_eq. exists [].
    rewrite app_nil_r. split_and!; log_cases.
  - cbn [chunk_loop] in H. cbv zeta in H.
    destruct (n - len all <=? 0).
    { unfold io_ret in H. simplify_eq. exists [].
      rewrite app_nil_r. split_and!; log_cases. }
    unfold io_bind in H.
    destruct (process_chunk sv interp service n d q idx chunk all log)
      as [log1 r1] eqn:E1.
    apply process_chunk_spec in E1
      as (new1 & -> & Hne & Hf1 & Hl1 & He1 & Hok1 & Hs1).
    destruct r1 as [all1|e].
    + apply IH in H as (new2 & -> & Hf2 & Hl2 & He2 & Hok2 & Hs2).
      destruct (Hok1 all1 eq_refl) as (Hall1 & Hlen1 & Hshape1).
      exists (new1 ++ new2). rewrite app_assoc. split_and!; [done|..].
      * apply faithful_app; [done|]. by rewrite length_app in Hf2.
      * by apply fails_last_app.
      * intros e He. destruct (He2 e He) as (front & c & -> & Hc).
        exists (new1 ++ front), c. by rewrite app_assoc.
      * intros mcqs Hr. destruct (Hok2 mcqs Hr) as [Hlen2 Hshape2].
        split; eauto.
      * intros Hidx. apply Forall_app_2; [by apply Hs1|by apply Hs2].
    + simplify_eq. exists new1. split_and!; try done.
Qed.

Lemma chunk_text_nonempty text max_size : chunk_text text max_size ≠ [].
Proof.
  destruct (split text) as [|w ws] eqn:E.
  - by rewrite (chunk_text_no_words _ _ E).
  - destruct (chunk_text_groups text max_size) as (gs & -> & Hcat & _).
    { by rewrite E. }
    destruct gs; [|done]. simpl in Hcat. congruence.
Qed.

(** The division by the number of chunks never fails. *)
Lemma generate_mcqs_from_text_run text n d log :
  generate_mcqs_from_text sv interp service text n d log
  = chunk_loop sv interp service n d
      (Z.min MAX_QUESTIONS_PER_CHUNK
             (Z.max 1 (n / len (chunk_text text MAX_CHUNK_SIZE))))
      O (chunk_text text MAX_CHUNK_SIZE) [] log.
Proof.
  unfold generate_mcqs_from_text, io_bind, io_lift, floordiv.
  pose proof (chunk_text_nonempty text MAX_CHUNK_SIZE) as Hne.
  destruct (Z.eqb_spec (len (chunk_text text MAX_CHUNK_SIZE)) 0) as [H0|]; [|done].
  unfold len in H0. destruct (chunk_text text MAX_CHUNK_SIZE); [done|].
  simpl in H0. lia.
Qed.

(** The run as a whole. *)
Lemma generate_mcqs_from_text_spec text n d log r :
  generate_mcqs_from_text sv interp service text n d [] = (log, r) →
  faithful service 0 log
  ∧ fails_last log r
  ∧ (∀ e, r = Raise e →
       ∃ front c, log = front ++ [c] ∧ raised_at interp c e)
  ∧ (∀ mcqs, r = Ok mcqs →
       (0 <= n → len mcqs <= n) ∧ Forall well_shaped mcqs).
Proof.
  rewrite generate_mcqs_from_text_run. intros H.
  apply chunk_loop_spec in H as (new & -> & Hf & Hl & He & Hok & _).
  simpl in *. split_and!; try done.
  intros mcqs Hr. destruct (Hok mcqs Hr) as [Hlen Hshape].
  split; [|by apply Hshape]. intros Hn. apply Hlen. unfold len. simpl. lia.
Qed.

(** What came up at the last call of a run: the client's error, or the
    parser's on the reply. *)
Lemma raised_at_cases log front c e :
  faithful service 0 log → log = front ++ [c] → raised_at interp c e →
  (call_result c = Raise e
   ∧ (e = HTTPException 503 CannotConnect
      ∨ e = HTTPException 504 RequestTimedOut
      ∨ e = HTTPException 500 OllamaError))
  ∨ (∃ response,
       call_result c = Ok response
       ∧ extract_json_from_response interp response = Raise e
       ∧ (e = TypeError ∨ e = RecursionError ∨ e = ValueError)).
Proof.
  intros Hf -> [Hc|(response & Hc & Hx)].
  - left. split; [done|].
    assert (Hk : (front ++ [c]) !! length front = Some c)
      by (rewrite lookup_app_r, Nat.sub_diag by lia; done).
    pose proof (Hf _ _ Hk) as Hres. rewrite Hc in Hres.
    symmetry in Hres. by apply call_ollama_generate_raises in Hres.
  - right. exists response. split_and!; [done|done|].
    apply extract_json_from_response_raise in Hx
      as [[-> _]|(reply & -> & Hx)]; [by left|].
    apply candidates_stopped in Hx as [[-> | ->] _]; auto.
Qed.

Lemma retries_first_attempts new :
  Forall (fun c => call_site_of c = FirstAttempt) new → retries new = [].
Proof.
  induction 1 as [|c new Hc _ IH]; [done|].
  unfold retries in *. simpl. unfold is_retry at 1. by rewrite Hc.
Qed.

(** The calls of a run.  None when no question is asked for.  Otherwise a
    first attempt on chunk 0, which is all when it fails or its reply
    stops the parser; when it leaves the list empty the retry follows;
    then first attempts only. *)
Lemma generate_mcqs_from_text_log text n d log r :
  generate_mcqs_from_text sv interp service text n d [] = (log, r) →
  (n <= 0 ∧ log = [])
  ∨ ∃ prompt,
      let r1 := call_ollama_generate (service 0%nat prompt) in
      let c1 := {| call_site_of := FirstAttempt; call_chunk := O;
                   call_prompt := prompt; call_result := r1 |} in
      1 <= n
      ∧ ((∃ e, r1 = Raise e ∧ log = [c1])
         ∨ ∃ response,
             r1 = Ok response
             ∧ ((∃ e, collected sv interp n response [] = Raise e
                      ∧ log = [c1])
                ∨ (collected sv interp n response [] = Ok []
                   ∧ ∃ tail,
                       Forall (fun c => call_site_of c = FirstAttempt) tail
                       ∧ log
                         = c1
                           :: {| call_site_of := RetryAttempt;
                                 call_chunk := O;
                                 call_prompt := prompt ++ retry_instruction;
                                 call_result :=
                                   call_ollama_generate
                                     (service 1%nat
                                        (prompt ++ retry_instruction)) |}
                           :: tail)
                ∨ (∃ m ms tail,
                     collected sv interp n response [] = Ok (m :: ms)
                     ∧ Forall (fun c => call_site_of c = FirstAttempt) tail
                     ∧ log = c1 :: tail))).
Proof.
  rewrite generate_mcqs_from_text_run.
  pose proof (chunk_text_nonempty text MAX_CHUNK_SIZE) as Hne.
  destruct (chunk_text text MAX_CHUNK_SIZE) as [|chunk0 rest]; [done|].
  clear Hne. set (q := Z.min _ _). clearbody q.
  cbn [chunk_loop]. cbv zeta.
  destruct (Z.leb_spec (n - len (@nil MCQ)) 0) as [Hle|Hgt].
  { unfold io_ret. intros ?; simplify_eq. left.
    unfold len in Hle. simpl in Hle. split; [lia|done]. }
  assert (1 <= n) as Hn by (unfold len in Hgt; simpl in Hgt; lia).
  unfold io_bind. rewrite process_chunk_run. cbv zeta.
  set (prompt := format_prompt _ _ _).
  generalize dependent prompt. generalize retry_instruction.
  intros suffix prompt H. right. exists prompt. cbv zeta.
  split; [done|]. simpl length in H.
  destruct (call_ollama_generate (service 0%nat prompt)) as [response|e].
  - right. exists response. split; [done|].
    destruct (collected sv interp n response []) as [all1|e] eqn:C1.
    + destruct (Z.eqb_spec (len all1) 0) as [Hlen|Hlen]; cbn [andb] in H.
      * rewrite bool_decide_eq_true_2 in H by done.
        assert (all1 = []) as ->
            by (destruct all1; [done|unfold len in Hlen; simpl in Hlen; lia]).
        right. left. split; [done|].
        destruct (call_ollama_generate (service 1%nat _)) as [response2|e].
        -- destruct (collected sv interp n response2 []) as [all2|e].
           ++ apply chunk_loop_spec in H
                as (tail & -> & _ & _ & _ & _ & Hfirst).
              exists tail. split; [by apply Hfirst|done].
           ++ simplify_eq. exists []. split; [constructor|done].
        -- simplify_eq. exists []. split; [constructor|done].
      * apply chunk_loop_spec in H as (tail & -> & _ & _ & _ & _ & Hfirst).
        right. right. destruct all1 as [|m ms]; [done|].
        exists m, ms, tail. split_and!; [done|by apply Hfirst|done].
    + left. simplify_eq. by exists e.
  - left. simplify_eq. by exists e.
Qed.

(** Where the MCQs of the loop come from. *)
Lemma chunk_loop_from n d q : ∀ chunks idx all log log' mcqs m,
  chunk_loop sv interp service n d q idx chunks all log = (log', Ok mcqs) →
  m ∈ mcqs →
  ∃ new, log' = log ++ new
         ∧ (m ∈ all ∨ ∃ c, c ∈ new ∧ from_reply sv interp c m).
Proof.
  induction chunks as [|chunk rest IH]; intros idx all log log' mcqs m H Hm.
  - unfold chunk_loop, io_ret in H. simplify_eq. exists [].
    rewrite app_nil_r. split; [done|by left].
  - cbn [chunk_loop] in H. cbv zeta in H.
    destruct (n - len all <=? 0).
    { unfold io_ret in H. simplify_eq. exists [].
      rewrite app_nil_r. split; [done|by left]. }
    unfold io_bind in H. rewrite process_chunk_run in H. cbv zeta in H.
    revert H.
    generalize (format_prompt (Z.min (n - len all) q) d (take 3000 chunk)).
    generalize retry_instruction. intros suffix prompt H.
    assert (Hreply : ∀ site p response all0 all1,
              collected sv interp n response all0 = Ok all1 →
              m ∈ all1 →
              m ∈ all0
              ∨ from_reply sv interp
                  {| call_site_of := site; call_chunk := idx;
                     call_prompt := p; call_result := Ok response |} m).
    { intros site p response all0 all1 Hcol Hin.
      apply collected_ok in Hcol as (items & Hitems & ->).
      apply add_valid_from in Hin as [Hin|(item & Hitem & Hvalid)];
        [by left|right].
      by exists response, items, item. }
    destruct (call_ollama_generate (service (length log) prompt))
      as [response|e]; [|done].
    destruct (collected sv interp n response all) as [all1|e] eqn:C1; [|done].
    destruct ((len _ =? 0) && bool_decide (idx = O)).
    + destruct (call_ollama_generate (service _ _)) as [response2|e]; [|done].
      destruct (collected sv interp n response2 all1) as [all2|e] eqn:C2;
        [|done].
      destruct (IH _ _ _ _ _ _ H Hm) as (new & -> & Hcase).
      eexists (_ :: _ :: new). split; [by rewrite <- app_assoc|].
      destruct Hcase as [Hin|(c & Hc & Hfrom)].
      * destruct (Hreply RetryAttempt (prompt ++ suffix) _ _ _ C2 Hin)
          as [Hin'|Hfrom].
        -- destruct (Hreply FirstAttempt prompt _ _ _ C1 Hin') as [?|Hfrom];
             [by left|].
           right. eexists. split; [|exact Hfrom].
           apply list_elem_of_In. simpl. auto.
        -- right. eexists. split; [|exact Hfrom].
           apply list_elem_of_In. simpl. auto.
      * right. exists c. split; [|done].
        apply list_elem_of_In. apply list_elem_of_In in Hc. simpl. auto.
    + destruct (IH _ _ _ _ _ _ H Hm) as (new & -> & Hcase).
      eexists (_ :: new). split; [by rewrite <- app_assoc|].
      destruct Hcase as [Hin|(c & Hc & Hfrom)].
      * destruct (Hreply FirstAttempt prompt _ _ _ C1 Hin) as [?|Hfrom];
          [by left|].
        right. eexists. split; [|exact Hfrom].
        apply list_elem_of_In. simpl. auto.
      * right. exists c. split; [|done].
        apply list_elem_of_In. apply list_elem_of_In in Hc. simpl. auto.
Qed.

(** C1. The list [generate_mcqs_from_text] returns is never longer than the
    requested number of questions. *)
Theorem generate_mcqs_from_text_cap (text : pystr) (n_questions : Z)
    (difficulty : pystr) (log : list call) (mcqs : list MCQ) :
  0 <= n_questions →
  generate_mcqs_from_text sv interp service text n_questions difficulty []
  = (log, Ok mcqs) →
  len mcqs <= n_questions.
Proof.
  intros Hn H. apply generate_mcqs_from_text_spec in H as (_ & _ & _ & Hok).
  destruct (Hok mcqs eq_refl) as [Hlen _]. by apply Hlen.
Qed.

(** C5. When a call to the generation service fails (no connection, time
    out, a status other than 200, any other failure of the request), the
    run ends there: the failed call is the last one made and the run raises
    the client's error instead of returning a list, whatever was collected
    before. *)
Theorem client_failure_is_terminal (text : pystr) (n_questions : Z)
    (difficulty : pystr) (log : list call) (r : result (list MCQ))
    (k : nat) (c : call) :
  generate_mcqs_from_text sv interp service text n_questions difficulty []
  = (log, r) →
  log !! k = Some c →
  is_failure (service k (call_prompt c)) →
  ∃ status_code detail,
    call_result c = Raise (HTTPException status_code detail)
    ∧ r = Raise (HTTPException status_code detail)
    ∧ S k = length log.
Proof.
  intros H Hk Hfail.
  apply generate_mcqs_from_text_spec in H as (Hf & Hl & _ & _).
  destruct (call_ollama_generate_failure _ Hfail) as (status_code & detail & E).
  pose proof (Hf k c Hk) as Hc. simpl in Hc. rewrite <- Hc in E.
  exists status_code, detail.
  destruct (Hl k c _ Hk E) as [-> Hlast]. done.
Qed.

(** C6. The retry call is made at most once in a run, as the second call
    and for chunk 0, with the strict instruction appended to the first
    prompt; and it is made exactly when the first call, for chunk 0, came
    back and parsing and validating its reply left the list empty.  A run
    that is asked for a question makes the first call, and makes the retry
    whenever the service's answer to the first call is such a reply. *)
Theorem single_bounded_retry (text : pystr) (n_questions : Z)
    (difficulty : pystr) (log : list call) (r : result (list MCQ)) :
  generate_mcqs_from_text sv interp service text n_questions difficulty []
  = (log, r) →
  (length (retries log) <= 1)%nat
  ∧ (∀ k c, log !! k = Some c → call_site_of c = RetryAttempt →
       k = 1%nat ∧ call_chunk c = O
       ∧ ∃ c0 response,
           log !! 0%nat = Some c0
           ∧ call_site_of c0 = FirstAttempt ∧ call_chunk c0 = O
           ∧ call_result c0 = Ok response
           ∧ collected sv interp n_questions response [] = Ok []
           ∧ call_prompt c = call_prompt c0 ++ retry_instruction)
  ∧ (∀ c0 response,
       log !! 0%nat = Some c0 → call_result c0 = Ok response →
       collected sv interp n_questions response [] = Ok [] →
       ∃ c, log !! 1%nat = Some c
            ∧ call_site_of c = RetryAttempt ∧ call_chunk c = O)
  ∧ (1 <= n_questions →
     ∃ c0,
       log !! 0%nat = Some c0
       ∧ call_site_of c0 = FirstAttempt ∧ call_chunk c0 = O
       ∧ call_result c0
         = call_ollama_generate (service 0%nat (call_prompt c0))
       ∧ ∀ response,
           call_ollama_generate (service 0%nat (call_prompt c0))
           = Ok response →
           collected sv interp n_questions response [] = Ok [] →
           ∃ c, log !! 1%nat = Some c
                ∧ call_site_of c = RetryAttempt ∧ call_chunk c = O
                ∧ call_prompt c = call_prompt c0 ++ retry_instruction
                ∧ call_result c
                  = call_ollama_generate (service 1%nat (call_prompt c))).
Proof.
  intros H. apply generate_mcqs_from_text_log in H
    as [[Hn ->]|(prompt & Hn & Hcase)].
  { split_and!; [simpl; lia|done|done|lia]. }
  cbv zeta in Hcase. revert Hcase.
  generalize retry_instruction. intros suffix Hcase.
  destruct Hcase as [(e & Hr1 & ->)|(response & Hr1 & Hcase)].
  { split_and!; [simpl; lia| | |].
    - intros [|k] c Hk Hc; by simplify_eq/=.
    - intros c0 response Hc0 Hr. simplify_eq/=. congruence.
    - intros _. eexists. split_and!; try done. simpl.
      intros response. rewrite Hr1. done. }
  destruct Hcase as [(e & Hcol & ->)
                    |[(Hcol & tail & Htail & ->)
                     |(m & ms & tail & Hcol & Htail & ->)]].
  - split_and!; [simpl; lia| | |].
    + intros [|k] c Hk Hc; by simplify_eq/=.
    + intros c0 response0 Hc0 Hr Hcol0. simplify_eq/=.
      rewrite Hr1 in Hr. simplify_eq. congruence.
    + intros _. eexists. split_and!; try done. simpl.
      intros response0. rewrite Hr1. intros ? Hcol0. simplify_eq. congruence.
  - pose proof (retries_first_attempts _ Htail) as Hnone.
    assert (Hlookup : ∀ k c, tail !! k = Some c → call_site_of c ≠ RetryAttempt).
    { intros k c Hk Hc. rewrite Forall_lookup in Htail.
      specialize (Htail k c Hk). congruence. }
    split_and!.
    + unfold retries in *. simpl. rewrite Hnone. simpl. lia.
    + intros [|[|k]] c Hk Hc; simplify_eq/=; [|by destruct (Hlookup k c)].
      split_and!; try done. eexists _, response. by split_and!.
    + intros c0 response0 Hc0 Hr _. by eexists.
    + intros _. eexists. split_and!; try done. simpl.
      intros response0 _ _. eexists. by split_and!.
  - pose proof (retries_first_attempts _ Htail) as Hnone.
    assert (Hlookup : ∀ k c, tail !! k = Some c → call_site_of c ≠ RetryAttempt).
    { intros k c Hk Hc. rewrite Forall_lookup in Htail.
      specialize (Htail k c Hk). congruence. }
    split_and!.
    + unfold retries in *. simpl. rewrite Hnone. simpl. lia.
    + intros [|k] c Hk Hc; simplify_eq/=. by destruct (Hlookup k c).
    + intros c0 response0 Hc0 Hr Hcol0. simplify_eq/=.
      rewrite Hr1 in Hr. simplify_eq. congruence.
    + intros _. eexists. split_and!; try done. simpl.
      intros response0. rewrite Hr1. intros ? Hcol0. simplify_eq. congruence.
Qed.

(** C8, as the code has it: every MCQ [generate_mcqs_from_text] returns has
    exactly 4 options and an answer in [0,3], and its question is what the
    [str] field of the model makes of the question of a record found in a
    reply of the run; nothing asks for it not to be empty. *)
Theorem generated_mcqs_well_shaped (text : pystr) (n_questions : Z)
    (difficulty : pystr) (log : list call) (mcqs : list MCQ) :
  generate_mcqs_from_text sv interp service text n_questions difficulty []
  = (log, Ok mcqs) →
  Forall well_shaped mcqs
  ∧ ∀ m, m ∈ mcqs →
      ∃ c response items pairs q,
        c ∈ log
        ∧ call_result c = Ok response
        ∧ extract_json_from_response interp response = Ok (JArray items)
        ∧ JObject pairs ∈ items
        ∧ dict_get (py "question") pairs = Some q
        ∧ sv q = Some (question m).
Proof.
  intros H. split.
  { apply generate_mcqs_from_text_spec in H as (_ & _ & _ & Hok).
    by destruct (Hok mcqs eq_refl). }
  intros m Hm. rewrite generate_mcqs_from_text_run in H.
  destruct (chunk_loop_from _ _ _ _ _ _ _ _ _ _ H Hm)
    as (new & -> & [Hin|(c & Hc & response & items & d & Hres & Hitems & Hd & Hv)]).
  { by apply elem_of_nil in Hin. }
  apply validate_mcq_some in Hv
    as (pairs & q & opts & ans & a & -> & Hq & _ & _ & _ & _ & _ & Hinit).
  exists c, response, items, pairs, q. split_and!; try done.
  unfold MCQ_init in Hinit.
  destruct (sv q) as [text_q|]; [|done].
  destruct (mapM sv opts); [|done].
  destruct (optional_str_validator sv _); [|done].
  by simplify_eq.
Qed.

(** ** The handler *)

(** A request is checked before any call is made; a checked request is
    handed to the orchestrator, whose error or list decides the outcome. *)
Lemma generate_mcq_run request log r :
  generate_mcq sv interp service request [] = (log, r) →
  (log = [] ∧ ∃ detail, r = Raise (HTTPException 400 detail))
  ∨ (1 <= req_n_questions request <= 20
     ∧ ∃ r0,
         generate_mcqs_from_text sv interp service (req_text request)
           (req_n_questions request) (req_difficulty request) [] = (log, r0)
         ∧ r = match r0 with
               | Raise e => Raise e
               | Ok [] => Raise (HTTPException 500 NoValidMCQs)
               | Ok (m :: ms) => Ok {| mcqs := m :: ms |}
               end).
Proof.
  unfold generate_mcq, io_lift.
  destruct (is_blank _); [intros ?; simplify_eq; left; by eauto|].
  destruct (Z.ltb_spec (req_n_questions request) 1); cbn [orb];
    [intros ?; simplify_eq; left; by eauto|].
  destruct (Z.gtb_spec (req_n_questions request) 20);
    [intros ?; simplify_eq; left; by eauto|].
  destruct (bool_decide _); cbn [negb];
    [|intros ?; simplify_eq; left; by eauto].
  unfold io_bind.
  destruct (generate_mcqs_from_text _ _ _ _ _ _ _) as [log0 r0] eqn:E.
  intros Hrun. right. split; [lia|]. exists r0.
  destruct r0 as [[|m ms]|e]; unfold io_ret in Hrun; by simplify_eq.
Qed.

(** The response of a request that succeeds: between one and the requested
    number of well-shaped MCQs. *)
Lemma generate_mcq_response request log response :
  generate_mcq sv interp service request [] = (log, Ok response) →
  1 <= len (mcqs response) <= req_n_questions request
  ∧ req_n_questions request <= 20
  ∧ Forall well_shaped (mcqs response).
Proof.
  intros H. apply generate_mcq_run in H
    as [[_ [detail ?]]|[Hn (r0 & Hrun & Hr)]]; [done|].
  apply generate_mcqs_from_text_spec in Hrun as (_ & _ & _ & Hok).
  destruct r0 as [[|m ms]|e]; simplify_eq.
  destruct (Hok (m :: ms) eq_refl) as [Hlen Hshape]. simpl.
  split_and!; [unfold len; simpl; lia|apply Hlen; lia|lia|done].
Qed.

End Orchestrator.

(** * Further properties *)

(** ** The chunker, continued *)

(** With a word in the text the loop leaves at least one chunk, and the
    text itself is not needed. *)
Lemma chunk_text_finish text max_size :
  split text ≠ [] →
  chunk_text text max_size
  = finish (fold_left (chunk_step max_size) (split text) ([], [], 0)).
Proof.
  intros Hwords. unfold chunk_text, finish.
  pose proof (chunk_loop_inv max_size (split text) [] ([], [], 0)) as Hinv.
  destruct (fold_left _ _ _) as [[chunks cur] size].
  destruct Hinv as (gs & -> & Hseen & _).
  { exists []. split_and!; auto. }
  simpl in Hseen. destruct cur as [|w cur].
  - rewrite app_nil_r in Hseen. destruct gs as [|g gs]; [|done].
    simpl in Hseen. congruence.
  - by destruct (map (join space) gs).
Qed.

Lemma chunk_text_words text max_size :
  split (join space (chunk_text text max_size)) = split text.
Proof.
  destruct (split text) as [|w ws] eqn:Hsplit.
  - by rewrite (chunk_text_no_words _ _ Hsplit).
  - destruct (chunk_text_groups text max_size) as (gs & -> & Hcat & Hfit).
    { by rewrite Hsplit. }
    rewrite <- Hsplit, join_concat, Hcat.
    + apply split_join, split_words.
    + rewrite Forall_forall in Hfit |- *. intros g Hg.
      by destruct (Hfit g Hg).
Qed.

(** X1. Chunking is stable: the chunks joined by single spaces chunk into
    the same chunks. *)
Theorem chunk_text_stable (text : pystr) (max_size : Z) :
  chunk_text (join space (chunk_text text max_size)) max_size
  = chunk_text text max_size.
Proof.
  destruct (split text) as [|w ws] eqn:Hsplit.
  - rewrite (chunk_text_no_words _ _ Hsplit). simpl.
    apply (chunk_text_no_words _ _ Hsplit).
  - pose proof (chunk_text_words text max_size) as Hwords.
    rewrite (chunk_text_finish (join space _)), Hwords
      by (rewrite Hwords, Hsplit; done).
    symmetry. apply chunk_text_finish. by rewrite Hsplit.
Qed.

Lemma chunk_loop_fits max_size : ∀ ws chunks cur,
  budget_of cur + budget_of ws <= max_size * 4 →
  fold_left (chunk_step max_size) ws (chunks, cur, budget_of cur)
  = (chunks, cur ++ ws, budget_of (cur ++ ws)).
Proof.
  induction ws as [|w ws IH]; intros chunks cur Hfit; simpl.
  - by rewrite app_nil_r.
  - simpl in Hfit.
    assert (0 <= budget_of ws).
    { clear. induction ws as [|x ws IH]; simpl; [lia|].
      pose proof (len_nonneg x). lia. }
    destruct (Z.gtb_spec (budget_of cur + (len w + 1)) (max_size * 4)); [lia|].
    replace (budget_of cur + (len w + 1)) with (budget_of (cur ++ [w]))
      by (rewrite budget_of_app; simpl; lia).
    rewrite IH.
    + by rewrite <- app_assoc.
    + rewrite budget_of_app. simpl. lia.
Qed.

(** X2. A text whose words, joined by single spaces, stay below the
    budget of [max_size * 4] characters is one chunk: those words joined
    by single spaces. *)
Theorem chunk_text_single_chunk (text : pystr) (max_size : Z) :
  split text ≠ [] →
  len (join space (split text)) < max_size * 4 →
  chunk_text text max_size = [join space (split text)].
Proof.
  intros Hwords Hlen. rewrite chunk_text_finish by done.
  rewrite len_join_space in Hlen by done.
  change 0 with (budget_of []).
  rewrite chunk_loop_fits by (simpl; lia). simpl.
  by destruct (split text).
Qed.

Lemma chunk_loop_no_budget max_size : ∀ ws chunks cur size,
  max_size <= 0 → 0 <= size → (length cur <= 1)%nat →
  finish (fold_left (chunk_step max_size) ws (chunks, cur, size))
  = chunks ++ cur ++ ws.
Proof.
  induction ws as [|w ws IH]; intros chunks cur size Hmax Hsize Hcur; simpl.
  - rewrite app_nil_r. destruct cur as [|x [|]]; simpl in *; try lia.
    + by rewrite app_nil_r.
    + done.
  - pose proof (len_nonneg w).
    destruct (Z.gtb_spec (size + (len w + 1)) (max_size * 4)); [|lia].
    destruct cur as [|x [|]]; simpl in Hcur; try lia.
    + rewrite IH by (simpl; lia). done.
    + rewrite IH by (simpl; lia). by rewrite <- app_assoc.
Qed.

(** X3. With a budget of zero or less every word of the text is a chunk
    by itself. *)
Theorem chunk_text_no_budget (text : pystr) (max_size : Z) :
  split text ≠ [] → max_size <= 0 →
  chunk_text text max_size = split text.
Proof.
  intros Hwords Hmax. rewrite chunk_text_finish by done.
  by rewrite chunk_loop_no_budget by (simpl; lia).
Qed.

(** X4. When the text has a word, no chunk is empty or has white space at
    its ends or two white-space characters in a row: splitting a chunk
    into words and joining them by single spaces gives the chunk back; and
    there are no more chunks than words. *)
Theorem chunk_text_normalised (text : pystr) (max_size : Z) :
  split text ≠ [] →
  (∀ chunk, chunk ∈ chunk_text text max_size →
     chunk ≠ [] ∧ join space (split chunk) = chunk)
  ∧ (length (chunk_text text max_size) <= length (split text))%nat.
Proof.
  intros Hwords.
  destruct (chunk_text_groups text max_size Hwords)
    as (gs & -> & Hcat & Hfit).
  pose proof (split_words text) as Hall. rewrite <- Hcat in Hall.
  rewrite Forall_forall in Hfit. split.
  - intros chunk Hin.
    apply list_elem_of_In, in_map_iff in Hin as (g & <- & Hg).
    destruct (Hfit g Hg) as [Hne _].
    assert (Hgw : Forall is_word g).
    { rewrite Forall_forall in Hall |- *. intros w Hw. apply Hall.
      apply in_concat. by exists g. }
    split; [|by rewrite split_join].
    destruct g as [|w g]; [done|].
    inversion Hgw as [|? ? [Hw _] _]; subst.
    destruct g; simpl; [done|by destruct w].
  - rewrite length_map, <- Hcat. clear Hcat Hall Hwords.
    induction gs as [|g gs IH]; [done|]. simpl. rewrite length_app.
    assert (g ≠ []) by (apply Hfit; by left).
    assert (length gs <= length (concat gs))%nat
      by (apply IH; intros x Hx; apply Hfit; by right).
    destruct g; [done|]. simpl. lia.
Qed.

Lemma greedy_snoc max_size gs cur :
  greedy max_size (gs ++ [cur]) ↔
  greedy max_size gs
  ∧ (∀ i g w g', S i = length gs → gs !! i = Some g → cur = w :: g' →
       max_size * 4 < budget_of g + (len w + 1)).
Proof.
  unfold greedy. split.
  - intros H. split.
    + intros i g w g' Hi Hsi. apply (H i g w g'); by apply lookup_app_l_Some.
    + intros i g w g' Hlen Hi ->. apply (H i g w g').
      * by apply lookup_app_l_Some.
      * rewrite lookup_app_r by lia. by replace (S i - length gs)%nat with O by lia.
  - intros [Hgs Hlast] i g w g' Hi Hsi.
    apply lookup_app_Some in Hsi as [Hsi|[Hge Hsi]].
    + apply (Hgs i g w g'); [|done].
      apply lookup_app_Some in Hi as [Hi|[Hge _]]; [done|].
      apply lookup_lt_Some in Hsi. lia.
    + destruct (S i - length gs)%nat as [|k] eqn:Hk; [|by destruct k].
      simpl in Hsi. simplify_eq.
      apply (Hlast i g w g'); [lia| |done].
      apply lookup_app_Some in Hi as [Hi|[Hge' _]]; [done|lia].
Qed.

Lemma chunk_step_greedy max_size seen st word :
  chunk_greedy_inv max_size seen st →
  chunk_greedy_inv max_size (seen ++ [word]) (chunk_step max_size st word).
Proof.
  destruct st as [[chunks cur] size].
  intros (gs & -> & <- & -> & Hne & Hempty & Hgreedy). unfold chunk_step.
  apply greedy_snoc in Hgreedy as [Hgs Hlast].
  assert (Hkeep : chunk_greedy_inv max_size ((concat gs ++ cur) ++ [word])
            (map (join space) gs, cur ++ [word],
             budget_of cur + (len word + 1))).
  { exists gs. rewrite <- app_assoc, budget_of_app. simpl.
    split_and!; auto; [lia|by destruct cur|].
    apply greedy_snoc. split; [done|].
    intros i g w g' Hlen Hi Hcur. destruct cur as [|w0 cur].
    - rewrite Hempty in Hlen by done. simpl in Hlen. lia.
    - simpl in Hcur. simplify_eq. by apply (Hlast i g w cur). }
  destruct (Z.gtb_spec (budget_of cur + (len word + 1)) (max_size * 4))
    as [Hgt|Hle]; [|done].
  destruct cur as [|w0 cur]; [done|].
  exists (gs ++ [w0 :: cur]). rewrite map_app, concat_app. simpl.
  rewrite !app_nil_r. split_and!; auto; [lia| |done|].
  - apply Forall_app_2; [done|]. by apply Forall_cons_2.
  - apply greedy_snoc. split.
    + apply greedy_snoc. split; [done|]. intros i g w g' Hlen Hi Hcur.
      simplify_eq. by apply (Hlast i g w g').
    + intros i g w g' Hlen Hi Hcur. simplify_eq.
      rewrite length_app in Hlen. simpl in Hlen.
      rewrite lookup_app_r in Hi by lia.
      replace (i - length gs)%nat with O in Hi by lia. simpl in Hi.
      by simplify_eq.
Qed.

Lemma chunk_loop_greedy max_size ws seen st :
  chunk_greedy_inv max_size seen st →
  chunk_greedy_inv max_size (seen ++ ws)
    (fold_left (chunk_step max_size) ws st).
Proof.
  revert seen st. induction ws as [|w ws IH]; intros seen st Hst; simpl.
  - by rewrite app_nil_r.
  - replace (seen ++ w :: ws) with ((seen ++ [w]) ++ ws)
      by (by rewrite <- app_assoc).
    apply IH. by apply chunk_step_greedy.
Qed.

(** X5. The chunker is greedy: the chunks are the joins of consecutive
    groups of the words, and no chunk could have taken the first word of
    the next one, with its separator, without exceeding the budget of
    [max_size * 4] characters. *)
Theorem chunk_text_greedy (text : pystr) (max_size : Z) :
  split text ≠ [] →
  ∃ gs : list (list pystr),
    chunk_text text max_size = map (join space) gs
    ∧ concat gs = split text
    ∧ ∀ i g w g', gs !! i = Some g → gs !! S i = Some (w :: g') →
        max_size * 4 < len (join space g) + 1 + (len w + 1).
Proof.
  intros Hwords. rewrite chunk_text_finish by done.
  pose proof (chunk_loop_greedy max_size (split text) [] ([], [], 0)) as Hinv.
  destruct (fold_left _ _ _) as [[chunks cur] size].
  destruct Hinv as (gs & -> & Hseen & -> & Hne & Hempty & Hgreedy).
  { exists []. split_and!; auto. intros [|[|i]] g w g' Hi Hsi; done. }
  simpl in Hseen. unfold finish.
  destruct cur as [|w0 cur].
  - rewrite Hempty in * by done. simpl in Hseen. congruence.
  - exists (gs ++ [w0 :: cur]). rewrite map_app, concat_app. simpl.
    rewrite app_nil_r. split_and!; [done|done|].
    intros i g w g' Hi Hsi.
    assert (Hg : g ≠ []).
    { apply lookup_app_Some in Hi as [Hi|[Hge Hi]].
      - rewrite Forall_forall in Hne. apply Hne, list_elem_of_In.
        by eapply list_elem_of_lookup_2.
      - destruct (i - length gs)%nat as [|k]; [|by destruct k].
        simpl in Hi. by simplify_eq. }
    rewrite len_join_space by done.
    pose proof (Hgreedy i g w g' Hi Hsi). lia.
Qed.

(** ** The response parser, continued *)

(** X6. The parser invents nothing and catches nothing but
    [JSONDecodeError].  What it returns is the empty list or the list some
    contiguous part of the response decodes to.  What it raises is
    [TypeError], for a response that is not text, or the error of the
    interpreter that stopped the decoding of some part of the response
    ([RecursionError], [ValueError]). *)
Theorem extract_json_from_response_provenance (lim : interpreter)
    (response : json) :
  match extract_json_from_response lim response with
  | Ok v =>
      ∃ text items,
        response = JString text ∧ v = JArray items
        ∧ (items = []
           ∨ ∃ part, substring part text
                     ∧ json_loads lim part = Ok (JArray items))
  | Raise e =>
      (e = TypeError ∧ ∀ text, response ≠ JString text)
      ∨ ∃ text part,
          response = JString text ∧ is_limit_error e
          ∧ substring part text ∧ json_loads lim part = Raise e
  end.
Proof.
  destruct (extract_json_from_response lim response) as [v|e] eqn:E.
  - apply extract_json_from_response_ok in E as (text & items & -> & -> & E).
    exists text, items. split_and!; try done. by apply candidates_found.
  - apply extract_json_from_response_raise in E
      as [[-> Hnot]|(text & -> & E)]; [by left|right].
    apply candidates_stopped in E as (He & part & Hsub & Hpart).
    by exists text, part.
Qed.

(** X7. A response with no opening bracket in it gives the empty list,
    unless the interpreter stops the decoding of the response as a whole:
    then that error is raised. *)
Theorem extract_json_from_response_no_bracket (lim : interpreter)
    (response : pystr) :
  ¬ In 91%N response →
  (∀ e, json_loads lim response = Raise e → is_limit_error e →
     extract_json_from_response lim (JString response) = Raise e)
  ∧ ((∀ e, json_loads lim response = Raise e → e = JSONDecodeError) →
     extract_json_from_response lim (JString response) = Ok (JArray [])).
Proof.
  intros Hnone.
  assert (Hsearch : ∀ strategy items,
            strategy ∈ [whole_blob lim; fenced_block lim; bracketed lim] →
            strategy response ≠ Ok (Some items)).
  { intros strategy items Hin Hs.
    destruct (strategy_finds_substring _ _ _ _ Hin Hs)
      as (part & (before & after & ->) & Hpart).
    apply json_loads_array_bracket in Hpart. apply Hnone.
    apply in_or_app. right. apply in_or_app. by left. }
  assert (Hlater : ∀ strategy,
            strategy ∈ [fenced_block lim; bracketed lim] →
            strategy response = Ok None).
  { intros strategy Hin. apply list_elem_of_In in Hin as [<-|[<-|[]]].
    - unfold fenced_block.
      destruct (search fenced_array_re response) as [m|] eqn:E; [|done].
      destruct (search_fenced_array _ _ E)
        as (body & _ & before & after & ->).
      destruct Hnone. apply in_or_app. right. by left.
    - unfold bracketed.
      destruct (search array_re response) as [m|] eqn:E; [|done].
      destruct (search_array _ _ E) as (body & _ & before & after & ->).
      destruct Hnone. apply in_or_app. right. by left. }
  rewrite extract_json_from_response_first_success. unfold candidates.
  cbn [first_success].
  rewrite (Hlater (fenced_block lim)), (Hlater (bracketed lim))
    by (apply list_elem_of_In; simpl; auto).
  assert (Hwhole := Hsearch (whole_blob lim)).
  unfold whole_blob, decoded_array in *.
  destruct (json_loads lim response) as [v|e]; split.
  - done.
  - intros _. destruct v; try done.
    destruct (Hwhole items); [apply list_elem_of_In; simpl; auto|done].
  - intros e' ? He'. simplify_eq. destruct He' as [->| ->]; done.
  - intros Hsoft. by rewrite (Hsoft e eq_refl).
Qed.

(** The fenced pattern needs a backquote. *)
Lemma search_fenced_array_none s :
  ¬ In 96%N s → search fenced_array_re s = None.
Proof.
  induction s as [|c s IH]; intros Hnone; [done|].
  cbn [search].
  assert (matches fenced_array_re (c :: s) = []) as ->.
  { unfold fenced_array_re. cbn [matches].
    destruct (starts_with (py "```") (c :: s)) eqn:E; [|done].
    apply starts_with_spec in E as [r E]. destruct Hnone.
    rewrite E. by left. }
  apply IH. intros H. apply Hnone. by right.
Qed.

(** A greedy [.*] before a closing bracket, one character further. *)
Lemma star_then_bracket_cons c s :
  matches (Seq (Star dot) (Lit [93%N])) (c :: s)
  = map (fun '(m, g, r) => (c :: m, g, r))
        (matches (Seq (Star dot) (Lit [93%N])) s)
    ++ (if (93 =? c)%N then [([93%N], [], s)] else []).
Proof.
  cbn [matches star_greedy dot].
  rewrite map_app, flat_map_app. f_equal.
  - induction (star_greedy dot s) as [|[m rest] xs IH]; [done|].
    cbn [map flat_map]. rewrite map_app, IH. f_equal.
    by destruct (starts_with [93%N] rest).
  - cbn [map flat_map starts_with]. rewrite andb_true_r, app_nil_r.
    by destruct (93 =? c)%N.
Qed.

Lemma star_then_bracket_none s :
  ¬ In 93%N s → matches (Seq (Star dot) (Lit [93%N])) s = [].
Proof.
  induction s as [|c s IH]; intros Hnone; [done|].
  rewrite star_then_bracket_cons, IH by (intros H; apply Hnone; by right).
  destruct (N.eqb_spec 93 c) as [<-|]; [|done].
  destruct Hnone. by left.
Qed.

(** The greedy [.*] runs to the last closing bracket. *)
Lemma star_then_bracket_last mid after :
  ¬ In 93%N after →
  ∃ others,
    matches (Seq (Star dot) (Lit [93%N])) (mid ++ 93%N :: after)
    = (mid ++ [93%N], [], after) :: others.
Proof.
  intros Hnone. induction mid as [|c mid [others IH]].
  - exists []. simpl app. rewrite star_then_bracket_cons.
    by rewrite star_then_bracket_none.
  - eexists. simpl app. rewrite star_then_bracket_cons, IH. reflexivity.
Qed.

Lemma matches_seq_char c r d s :
  matches (Seq (Lit [c]) r) (d :: s)
  = if (c =? d)%N
    then map (fun '(m, g, rest) => (c :: m, g, rest)) (matches r s)
    else [].
Proof.
  cbn [matches starts_with]. rewrite andb_true_r.
  destruct (c =? d)%N; [|done]. cbn [flat_map length drop].
  rewrite app_nil_r. apply map_ext. by intros [[m g] rest].
Qed.

(** Where the bracket pattern matches when no bracket opens before and
    none closes after. *)
Lemma search_array_between before mid after :
  ¬ In 91%N before → ¬ In 93%N after →
  search array_re (before ++ 91%N :: mid ++ 93%N :: after)
  = Some {| group0 := 91%N :: mid ++ [93%N]; groups := [] |}.
Proof.
  intros Hbefore Hafter. unfold array_re.
  change (py "[") with [91%N]. change (py "]") with [93%N].
  induction before as [|c before IH].
  - simpl app. destruct (star_then_bracket_last mid after Hafter) as [others E].
    assert (search (Seq (Lit [91%N]) (Seq (Star dot) (Lit [93%N])))
              (91%N :: mid ++ 93%N :: after)
            = match matches (Seq (Lit [91%N]) (Seq (Star dot) (Lit [93%N])))
                      (91%N :: mid ++ 93%N :: after) with
              | (m, g, _) :: _ => Some {| group0 := m; groups := g |}
              | [] => search (Seq (Lit [91%N]) (Seq (Star dot) (Lit [93%N])))
                        (mid ++ 93%N :: after)
              end) as -> by done.
    by rewrite matches_seq_char, E.
  - assert (search (Seq (Lit [91%N]) (Seq (Star dot) (Lit [93%N])))
              ((c :: before) ++ 91%N :: mid ++ 93%N :: after)
            = match matches (Seq (Lit [91%N]) (Seq (Star dot) (Lit [93%N])))
                      (c :: before ++ 91%N :: mid ++ 93%N :: after) with
              | (m, g, _) :: _ => Some {| group0 := m; groups := g |}
              | [] => search (Seq (Lit [91%N]) (Seq (Star dot) (Lit [93%N])))
                        (before ++ 91%N :: mid ++ 93%N :: after)
              end) as -> by done.
    rewrite matches_seq_char.
    destruct (N.eqb_spec 91 c) as [<-|].
    { destruct Hbefore. by left. }
    apply IH. intros H. apply Hbefore. by right.
Qed.

(** X8. A JSON array wrapped in prose is found: when the response has no
    backquote, no opening bracket before the array and no closing bracket
    after it, the parser returns the array; unless the response as a whole
    decodes to an array, which is then returned, or stops the decoder,
    whose error is then raised. *)
Theorem extract_json_from_response_in_prose (lim : interpreter)
    (before body after : pystr) (items : list json) :
  let response := before ++ 91%N :: body ++ 93%N :: after in
  ¬ In 91%N before → ¬ In 93%N after → ¬ In 96%N response →
  json_loads lim (91%N :: body ++ [93%N]) = Ok (JArray items) →
  extract_json_from_response lim (JString response)
  = match json_loads lim response with
    | Ok (JArray whole) => Ok (JArray whole)
    | Ok _ => Ok (JArray items)
    | Raise JSONDecodeError => Ok (JArray items)
    | Raise e => Raise e
    end.
Proof.
  intros response Hbefore Hafter Hquote Hitems.
  rewrite extract_json_from_response_first_success.
  unfold candidates. cbn [first_success].
  assert (fenced_block lim response = Ok None) as ->.
  { unfold fenced_block. by rewrite (search_fenced_array_none response Hquote). }
  assert (bracketed lim response = Ok (Some items)) as ->.
  { unfold bracketed, response. rewrite search_array_between by done.
    cbn [group0]. unfold decoded_array. by rewrite Hitems. }
  unfold whole_blob, decoded_array.
  destruct (json_loads lim response) as [v|e]; [by destruct v|by destruct e].
Qed.

(** ** The record validator, continued *)

(** X9. A record that fails one of the three conditions (it is not an
    object, a key is missing, options is not a list of 4, answer is not an
    integer in [0,3]) is rejected, whatever the model would accept. *)
Theorem validate_mcq_rejects (sv : json → option pystr) (d : json) :
  ¬ required_fields_ok d → validate_mcq sv d = None.
Proof.
  intros Hbad. destruct (validate_mcq sv d) as [m|] eqn:E; [|done].
  destruct Hbad. apply validate_mcq_some in E
    as (pairs & q & items & ans & a & -> & Eq & Eo & Hlen & Ea & Eans & Ha & _).
  by exists pairs, q, items, ans, a.
Qed.

(** X10. Only the keys question, options, answer and explanation count:
    two objects that agree on them validate alike, whatever other keys
    they have and in whatever order. *)
Theorem validate_mcq_other_keys (sv : json → option pystr)
    (pairs1 pairs2 : pydict) :
  (∀ key, key ∈ [py "question"; py "options"; py "answer"; py "explanation"] →
     dict_get key pairs1 = dict_get key pairs2) →
  validate_mcq sv (JObject pairs1) = validate_mcq sv (JObject pairs2).
Proof.
  intros Hsame.
  assert (Hq := Hsame (py "question")). assert (Ho := Hsame (py "options")).
  assert (Ha := Hsame (py "answer")). assert (He := Hsame (py "explanation")).
  assert (Hall : ∀ p1 p2 m,
            dict_get (py "question") p1 = dict_get (py "question") p2 →
            dict_get (py "options") p1 = dict_get (py "options") p2 →
            dict_get (py "answer") p1 = dict_get (py "answer") p2 →
            dict_get (py "explanation") p1 = dict_get (py "explanation") p2 →
            validate_mcq sv (JObject p1) = Some m →
            validate_mcq sv (JObject p2) = Some m).
  { intros p1 p2 m Eq Eo Ea Ee H. apply validate_mcq_some in H
      as (pairs & q & items & ans & a & ? & Hq' & Ho' & Hlen & Ha' & Hans
          & Hrange & Hinit).
    simplify_eq. apply validate_mcq_some.
    exists p2, q, items, ans, a.
    rewrite <- Eq, <- Eo, <- Ea, <- Ee.
    split_and!; first [assumption|reflexivity|lia]. }
  destruct (validate_mcq sv (JObject pairs1)) as [m|] eqn:E1.
  - symmetry. apply (Hall pairs1 pairs2); try done;
      [apply Hq|apply Ho|apply Ha|apply He]; apply list_elem_of_In; simpl; auto.
  - destruct (validate_mcq sv (JObject pairs2)) as [m|] eqn:E2; [|done].
    rewrite <- E1. apply (Hall pairs2 pairs1); try done; symmetry;
      [apply Hq|apply Ho|apply Ha|apply He]; apply list_elem_of_In; simpl; auto.
Qed.

(** ** The orchestrator, continued *)

Section OrchestratorMore.

Variable sv : json → option pystr.
Variable interp : interpreter.
Variable service : nat → pystr → post_outcome.

(** X11. When the parser finds an array in a reply, taking the reply in
    makes the list the old one followed by the first
    [n_questions - len(all_mcqs)] valid records of that array, in their
    order; the list stays as it is once the requested total is reached. *)
Theorem collected_appends (n_questions : Z) (response : json)
    (items : list json) (all_mcqs : list MCQ) :
  extract_json_from_response interp response = Ok (JArray items) →
  collected sv interp n_questions response all_mcqs
  = Ok (all_mcqs
        ++ take (Z.to_nat (n_questions - len all_mcqs))
                (valid_records sv items)).
Proof.
  intros Hitems. unfold collected. rewrite Hitems. simpl.
  by rewrite add_valid_take.
Qed.

Lemma chunk_loop_done n d q idx chunks all log :
  n - len all <= 0 →
  chunk_loop sv interp service n d q idx chunks all log = (log, Ok all).
Proof.
  intros Hdone. destruct chunks as [|chunk rest]; [done|].
  cbn [chunk_loop]. cbv zeta.
  by destruct (Z.leb_spec (n - len all) 0); [|lia].
Qed.

(** X12. Asked for no question, or for a negative number of them, the
    orchestrator calls nobody and returns the empty list. *)
Theorem generate_mcqs_from_text_none_asked (text : pystr) (n_questions : Z)
    (difficulty : pystr) :
  n_questions <= 0 →
  generate_mcqs_from_text sv interp service text n_questions difficulty []
  = ([], Ok []).
Proof.
  intros Hn. rewrite generate_mcqs_from_text_run.
  apply chunk_loop_done. unfold len. simpl. lia.
Qed.


Lemma well_asked_shift n q d chunk rest c idx :
  well_asked n q d rest (S idx) c → well_asked n q d (chunk :: rest) idx c.
Proof.
  intros (k & chunk' & Hidx & Hlook & Hk & Hn & Hprompt).
  exists k, chunk'. split_and!; try done; try lia.
  by replace (call_chunk c - idx)%nat with (S (call_chunk c - S idx)) by lia.
Qed.

(** The calls of the loop from index [idx] on: at most one for each chunk,
    and one more for the first; each asks about the chunk of its index. *)
Lemma chunk_loop_calls n d q : 1 <= q → ∀ chunks idx all log log' r,
  chunk_loop sv interp service n d q idx chunks all log = (log', r) →
  ∃ new,
    log' = log ++ new
    ∧ (length new <= length chunks + (if idx is O then 1 else 0))%nat
    ∧ Forall (well_asked n q d chunks idx) new.
Proof.
  intros Hq. induction chunks as [|chunk rest IH];
    intros idx all log log' r H.
  - unfold chunk_loop, io_ret in H. simplify_eq. exists [].
    rewrite app_nil_r. split_and!; [done|simpl; lia|constructor].
  - cbn [chunk_loop] in H. cbv zeta in H.
    destruct (Z.leb_spec (n - len all) 0) as [|Hmore].
    { unfold io_ret in H. simplify_eq. exists [].
      rewrite app_nil_r. split_and!; [done|simpl; lia|constructor]. }
    unfold io_bind in H. rewrite process_chunk_run in H. cbv zeta in H.
    pose proof (len_nonneg all) as Hall.
    assert (Hfirst : ∀ r1,
              well_asked n q d (chunk :: rest) idx
                {| call_site_of := FirstAttempt; call_chunk := idx;
                   call_prompt :=
                     format_prompt (Z.min (n - len all) q) d (take 3000 chunk);
                   call_result := r1 |}).
    { intros r1. exists (Z.min (n - len all) q), chunk.
      cbn [call_chunk call_prompt is_retry call_site_of].
      rewrite Nat.sub_diag, app_nil_r. split_and!; try done; lia. }
    assert (Hretry : ∀ r2,
              well_asked n q d (chunk :: rest) idx
                {| call_site_of := RetryAttempt; call_chunk := idx;
                   call_prompt :=
                     format_prompt (Z.min (n - len all) q) d (take 3000 chunk)
                     ++ retry_instruction;
                   call_result := r2 |}).
    { intros r2. exists (Z.min (n - len all) q), chunk.
      cbn [call_chunk call_prompt is_retry call_site_of].
      rewrite Nat.sub_diag. split_and!; try done; lia. }
    revert H Hfirst Hretry.
    generalize (format_prompt (Z.min (n - len all) q) d (take 3000 chunk)).
    intros prompt H Hfirst Hretry.
    assert (Hrest : ∀ all1 new1,
              chunk_loop sv interp service n d q (S idx) rest all1
                (log ++ new1) = (log', r) →
              (length new1 <= (if idx is O then 2 else 1))%nat →
              Forall (well_asked n q d (chunk :: rest) idx) new1 →
              ∃ new,
                log' = log ++ new
                ∧ (length new
                   <= length (chunk :: rest) + (if idx is O then 1 else 0))%nat
                ∧ Forall (well_asked n q d (chunk :: rest) idx) new).
    { intros all1 new1 Hloop Hlen1 Hnew1.
      apply IH in Hloop as (new2 & -> & Hlen2 & Hnew2).
      exists (new1 ++ new2). rewrite app_assoc. split_and!; [done| |].
      - rewrite length_app. simpl. destruct idx; lia.
      - apply Forall_app_2; [done|].
        rewrite Forall_forall in Hnew2 |- *. intros c Hc.
        by apply well_asked_shift, Hnew2. }
    assert (Hone : ∀ r1 r',
              (log ++ [{| call_site_of := FirstAttempt; call_chunk := idx;
                          call_prompt := prompt; call_result := r1 |}], r')
              = (log', r) →
              ∃ new,
                log' = log ++ new
                ∧ (length new
                   <= length (chunk :: rest) + (if idx is O then 1 else 0))%nat
                ∧ Forall (well_asked n q d (chunk :: rest) idx) new).
    { intros r1 r' Heq. injection Heq as <- <-. eexists.
      split_and!; [done|simpl; lia|].
      apply Forall_cons_2; [apply Hfirst|constructor]. }
    assert (Htwo : ∀ r1 r2 r',
              (log ++ [{| call_site_of := FirstAttempt; call_chunk := idx;
                          call_prompt := prompt; call_result := r1 |};
                       {| call_site_of := RetryAttempt; call_chunk := idx;
                          call_prompt := prompt ++ retry_instruction;
                          call_result := r2 |}], r')
              = (log', r) →
              idx = O →
              ∃ new,
                log' = log ++ new
                ∧ (length new
                   <= length (chunk :: rest) + (if idx is O then 1 else 0))%nat
                ∧ Forall (well_asked n q d (chunk :: rest) idx) new).
    { intros r1 r2 r' Heq ->. injection Heq as <- <-. eexists.
      split_and!; [done|simpl; lia|].
      apply Forall_cons_2; [apply Hfirst|].
      apply Forall_cons_2; [apply Hretry|constructor]. }
    destruct (call_ollama_generate (service (length log) prompt))
      as [response|e]; [|by eapply Hone].
    destruct (collected sv interp n response all) as [all1|e];
      [|by eapply Hone].
    destruct ((len _ =? 0) && bool_decide (idx = O)) eqn:Eretry.
    + apply andb_true_iff in Eretry as [_ Hidx].
      apply bool_decide_eq_true in Hidx.
      destruct (call_ollama_generate (service _ _)) as [response2|e];
        [|by eapply Htwo].
      destruct (collected sv interp n response2 all1) as [all2|e];
        [|by eapply Htwo].
      subst idx. eapply Hrest; [exact H|simpl; lia|].
      apply Forall_cons_2; [apply Hfirst|].
      apply Forall_cons_2; [apply Hretry|constructor].
    + eapply Hrest; [exact H|simpl; destruct idx; lia|].
      apply Forall_cons_2; [apply Hfirst|constructor].
Qed.

Lemma questions_per_chunk_range n k :
  1 <= Z.min MAX_QUESTIONS_PER_CHUNK (Z.max 1 (n / k)) <= 5.
Proof. unfold MAX_QUESTIONS_PER_CHUNK. lia. Qed.

(** X14. Every prompt sent asks for between 1 and 5 questions, never more
    than were requested, about the first 3000 characters of the chunk the
    call is for; the retry prompt is the same with the strict instruction
    appended. *)
Theorem generate_mcqs_from_text_prompts (text : pystr) (n_questions : Z)
    (difficulty : pystr) (log : list call) (r : result (list MCQ)) (c : call) :
  generate_mcqs_from_text sv interp service text n_questions difficulty []
  = (log, r) →
  c ∈ log →
  ∃ k chunk,
    chunk_text text MAX_CHUNK_SIZE !! call_chunk c = Some chunk
    ∧ 1 <= k <= 5 ∧ k <= n_questions
    ∧ call_prompt c
      = format_prompt k difficulty (take 3000 chunk)
        ++ (if is_retry c then retry_instruction else []).
Proof.
  rewrite generate_mcqs_from_text_run. intros H Hc.
  pose proof (questions_per_chunk_range n_questions
                (len (chunk_text text MAX_CHUNK_SIZE))) as Hq.
  apply chunk_loop_calls in H as (new & -> & _ & Hnew); [|lia].
  simpl in Hc. rewrite Forall_forall in Hnew.
  apply list_elem_of_In in Hc.
  destruct (Hnew c Hc) as (k & chunk & _ & Hlook & Hk & Hn & Hprompt).
  rewrite Nat.sub_0_r in Hlook. exists k, chunk.
  split_and!; try done; lia.
Qed.

(** X15. A run makes at most one call for each chunk, and one more for
    the retry. *)
Theorem generate_mcqs_from_text_call_count (text : pystr) (n_questions : Z)
    (difficulty : pystr) (log : list call) (r : result (list MCQ)) :
  generate_mcqs_from_text sv interp service text n_questions difficulty []
  = (log, r) →
  (length log <= length (chunk_text text MAX_CHUNK_SIZE) + 1)%nat.
Proof.
  rewrite generate_mcqs_from_text_run. intros H.
  pose proof (questions_per_chunk_range n_questions
                (len (chunk_text text MAX_CHUNK_SIZE))) as Hq.
  by apply chunk_loop_calls in H as (new & -> & Hlen & _); [|lia].
Qed.

(** X16. The orchestrator invents no MCQ: each one it returns is what the
    validator makes of a record found in the reply of one of the calls of
    the run. *)
Theorem generate_mcqs_from_text_provenance (text : pystr) (n_questions : Z)
    (difficulty : pystr) (log : list call) (mcqs : list MCQ) (m : MCQ) :
  generate_mcqs_from_text sv interp service text n_questions difficulty []
  = (log, Ok mcqs) →
  m ∈ mcqs →
  ∃ c response items d,
    c ∈ log
    ∧ call_result c = Ok response
    ∧ extract_json_from_response interp response = Ok (JArray items)
    ∧ d ∈ items
    ∧ validate_mcq sv d = Some m.
Proof.
  rewrite generate_mcqs_from_text_run. intros H Hm.
  destruct (chunk_loop_from sv interp service _ _ _ _ _ _ _ _ _ _ H Hm)
    as (new & -> & [Hin|(c & Hc & response & items & item & Hfrom)]).
  - by apply elem_of_nil in Hin.
  - by exists c, response, items, item.
Qed.

(** X17. When the first reply holds at least as many valid records as
    were requested, the run is that one call and returns the first
    [n_questions] valid records of the reply, in their order. *)
Theorem generate_mcqs_from_text_first_reply (text : pystr) (n_questions : Z)
    (difficulty : pystr) (response : json) (items : list json) :
  (∀ prompt, call_ollama_generate (service O prompt) = Ok response) →
  extract_json_from_response interp response = Ok (JArray items) →
  1 <= n_questions <= len (valid_records sv items) →
  ∃ c,
    generate_mcqs_from_text sv interp service text n_questions difficulty []
    = ([c], Ok (take (Z.to_nat n_questions) (valid_records sv items)))
    ∧ call_site_of c = FirstAttempt
    ∧ call_result c = Ok response.
Proof.
  intros Hservice Hitems Hn. rewrite generate_mcqs_from_text_run.
  pose proof (chunk_text_nonempty text MAX_CHUNK_SIZE) as Hne.
  destruct (chunk_text text MAX_CHUNK_SIZE) as [|chunk0 rest]; [done|].
  cbn [chunk_loop]. cbv zeta.
  destruct (Z.leb_spec (n_questions - len (@nil MCQ)) 0) as [Hle|_].
  { unfold len in Hle. simpl in Hle. lia. }
  unfold io_bind. rewrite process_chunk_run. cbv zeta.
  match goal with
  | |- context [format_prompt ?k ?d ?t] => generalize (format_prompt k d t)
  end.
  intros prompt. simpl length. rewrite Hservice.
  unfold collected at 1. rewrite Hitems. cbn [result_bind py_iter].
  rewrite add_valid_take. simpl app.
  replace (n_questions - len (@nil MCQ)) with n_questions
    by (unfold len; simpl; lia).
  assert (Hlen : len (take (Z.to_nat n_questions) (valid_records sv items))
                 = n_questions).
  { unfold len in *. rewrite length_take. lia. }
  rewrite Hlen. destruct (Z.eqb_spec n_questions 0) as [|_]; [lia|].
  cbn [andb]. rewrite chunk_loop_done by lia. by eexists.
Qed.

(** ** The handler, continued *)

(** X18. A request with a blank text, a number of questions outside 1..20
    or an unknown difficulty is refused with status 400 before any call to
    the generation service. *)
Theorem generate_mcq_refuses (request : MCQRequest) :
  is_blank (req_text request) = true
  ∨ req_n_questions request < 1
  ∨ 20 < req_n_questions request
  ∨ req_difficulty request ∉ [py "easy"; py "medium"; py "hard"] →
  ∃ detail,
    generate_mcq sv interp service request []
    = ([], Raise (HTTPException 400 detail)).
Proof.
  intros Hbad. unfold generate_mcq, io_lift.
  destruct (is_blank _); [by eexists|].
  destruct (Z.ltb_spec (req_n_questions request) 1); cbn [orb]; [by eexists|].
  destruct (Z.gtb_spec (req_n_questions request) 20); [by eexists|].
  destruct (bool_decide _) eqn:E; cbn [negb]; [|by eexists].
  apply bool_decide_eq_true in E.
  destruct Hbad as [?|[?|[?|?]]]; done || lia.
Qed.

(** A run that is asked for a question calls the service. *)
Lemma generate_mcqs_from_text_calls text n d log r :
  1 <= n →
  generate_mcqs_from_text sv interp service text n d [] = (log, r) →
  log ≠ [].
Proof.
  intros Hn H. apply generate_mcqs_from_text_log in H
    as [[? _]|(prompt & _ & Hcase)]; [lia|].
  cbv zeta in Hcase.
  destruct Hcase as [(e & _ & ->)|(response & _ & Hcase)]; [done|].
  destruct Hcase as [(e & _ & ->)
                    |[(_ & tail & _ & ->)|(m & ms & tail & _ & _ & ->)]];
    done.
Qed.

(** X19. Whatever the handler answers.  A response holds between one and
    the requested number of MCQs, each with 4 options and an answer in
    [0,3], and the request was a valid one.  An error is an
    [HTTPException] with status 400, 500, 503 or 504, of which only status
    400 comes without a call to the generation service; or it is what the
    parser raised on the last reply of the run ([TypeError],
    [RecursionError], [ValueError]), which the handler does not catch. *)
Theorem generate_mcq_outcome (request : MCQRequest) (log : list call)
    (r : result MCQResponse) :
  generate_mcq sv interp service request [] = (log, r) →
  match r with
  | Ok response =>
      1 <= len (mcqs response) <= req_n_questions request
      ∧ req_n_questions request <= 20
      ∧ Forall well_shaped (mcqs response)
      ∧ is_blank (req_text request) = false
      ∧ req_difficulty request ∈ [py "easy"; py "medium"; py "hard"]
      ∧ log ≠ []
  | Raise e =>
      (∃ status_code detail,
         e = HTTPException status_code detail
         ∧ status_code ∈ [400; 500; 503; 504]
         ∧ (log = [] ↔ status_code = 400))
      ∨ ((e = TypeError ∨ e = RecursionError ∨ e = ValueError)
         ∧ ∃ front c response,
             log = front ++ [c]
             ∧ call_result c = Ok response
             ∧ extract_json_from_response interp response = Raise e)
  end.
Proof.
  unfold generate_mcq, io_lift.
  assert (H400 : 400 ∈ [400; 500; 503; 504])
    by (apply list_elem_of_In; simpl; auto).
  assert (H500 : 500 ∈ [400; 500; 503; 504])
    by (apply list_elem_of_In; simpl; auto).
  destruct (is_blank _) eqn:Eblank;
    [intros ?; simplify_eq; left; by eexists _, _|].
  destruct (Z.ltb_spec (req_n_questions request) 1); cbn [orb];
    [intros ?; simplify_eq; left; by eexists _, _|].
  destruct (Z.gtb_spec (req_n_questions request) 20);
    [intros ?; simplify_eq; left; by eexists _, _|].
  destruct (bool_decide _) eqn:Ed; cbn [negb];
    [|intros ?; simplify_eq; left; by eexists _, _].
  apply bool_decide_eq_true in Ed. unfold io_bind.
  destruct (generate_mcqs_from_text _ _ _ _ _ _ _) as [log0 r0] eqn:E.
  pose proof (generate_mcqs_from_text_spec sv interp service _ _ _ _ _ E)
    as (Hf & _ & Herr & Hok).
  assert (Hcalls : log0 ≠ [])
    by (eapply generate_mcqs_from_text_calls; [|exact E]; lia).
  destruct r0 as [[|m ms]|e]; unfold io_ret; intros ?; simplify_eq.
  - left. exists 500, NoValidMCQs. split_and!; [done|done|].
    split; [done|lia].
  - destruct (Hok (m :: ms) eq_refl) as [Hlen Hshape]. simpl.
    split_and!; try done; try lia;
      first [apply Hlen; lia | unfold len; simpl; lia].
  - destruct (Herr e eq_refl) as (front & c & Hlog & Hraised).
    destruct (raised_at_cases _ _ _ _ _ _ Hf Hlog Hraised)
      as [[_ He]|(response & Hc & Hx & He)]; subst log.
    + left.
      assert (∃ status_code detail,
                e = HTTPException status_code detail
                ∧ (status_code = 500 ∨ status_code = 503 ∨ status_code = 504))
        as (status_code & detail & -> & Hstatus)
        by (destruct He as [->|[->| ->]]; eexists _, _; split; eauto).
      exists status_code, detail. split_and!; [done| |].
      * apply list_elem_of_In. simpl. lia.
      * split; [by destruct front|lia].
    + right. split; [done|]. by exists front, c, response.
Qed.

End OrchestratorMore.

(** ** The upload side *)

Lemma lstrip_split s :
  ∃ before, s = before ++ lstrip s ∧ forallb is_space before = true.
Proof.
  induction s as [|c s (before & IH & Hb)]; [by exists []|]. simpl.
  destruct (is_space c) eqn:Hc; [|by exists []].
  exists (c :: before). simpl. rewrite Hc, Hb. split; [by f_equal|done].
Qed.

Lemma lstrip_idem s : lstrip (lstrip s) = lstrip s.
Proof.
  induction s as [|c s IH]; [done|]. simpl.
  destruct (is_space c) eqn:Hc; [done|]. simpl. by rewrite Hc.
Qed.

Lemma lstrip_blank s : forallb is_space s = true → lstrip s = [].
Proof.
  induction s as [|c s IH]; [done|]. simpl.
  destruct (is_space c); [apply IH|done].
Qed.

Lemma lstrip_snoc a c :
  is_space c = false → ∃ x, lstrip (a ++ [c]) = x ++ [c].
Proof.
  intros Hc. induction a as [|b a [x IH]]; simpl.
  - rewrite Hc. by exists [].
  - destruct (is_space b); [by exists x|]. by exists (b :: a).
Qed.

Lemma rstrip_split s :
  ∃ after, s = rstrip s ++ after ∧ forallb is_space after = true.
Proof.
  unfold rstrip. destruct (lstrip_split (rev s)) as (before & E & Hb).
  exists (rev before). split.
  - rewrite <- rev_app_distr, <- E. by rewrite rev_involutive.
  - apply forallb_forall. intros x Hx. apply in_rev in Hx.
    by eapply forallb_forall in Hb.
Qed.

Lemma rstrip_idem s : rstrip (rstrip s) = rstrip s.
Proof. unfold rstrip. by rewrite rev_involutive, lstrip_idem. Qed.

Lemma lstrip_rstrip_lstrip s : lstrip (rstrip (lstrip s)) = rstrip (lstrip s).
Proof.
  destruct (lstrip s) as [|c u] eqn:E; [done|].
  assert (Hc : is_space c = false).
  { pose proof (lstrip_idem s) as H. rewrite E in H. simpl in H.
    destruct (is_space c) eqn:Hc; [|done].
    assert (Hlen : (length (lstrip u) <= length u)%nat).
    { clear. induction u as [|x u IH]; simpl; [done|].
      destruct (is_space x); simpl; lia. }
    rewrite H in Hlen. simpl in Hlen. lia. }
  unfold rstrip. simpl rev.
  destruct (lstrip_snoc (rev u) c Hc) as [x ->].
  rewrite rev_app_distr. simpl. by rewrite Hc.
Qed.

(** Stripping twice is stripping once. *)
Lemma strip_idem s : strip (strip s) = strip s.
Proof.
  unfold strip at 1. unfold strip at 1.
  by rewrite lstrip_rstrip_lstrip, rstrip_idem.
Qed.

Lemma split_from_blank_tail b : forallb is_space b = true →
  ∀ a cur, split_from cur (a ++ b) = split_from cur a.
Proof.
  intros Hb. induction a as [|c a IH]; intros cur; simpl.
  - revert cur. induction b as [|c b IHb]; intros cur; [done|].
    simpl in Hb. apply andb_true_iff in Hb as [Hc Hb]. simpl. rewrite Hc.
    destruct cur; rewrite (IHb Hb []); done.
  - destruct (is_space c); [destruct cur|]; by rewrite ?IH.
Qed.

Lemma split_lstrip s : split (lstrip s) = split s.
Proof.
  unfold split. induction s as [|c s IH]; [done|]. simpl.
  by destruct (is_space c) eqn:Hc; [|simpl; rewrite Hc].
Qed.

Lemma split_rstrip s : split (rstrip s) = split s.
Proof.
  destruct (rstrip_split s) as (after & E & Hb).
  rewrite E at 2. unfold split. by rewrite split_from_blank_tail.
Qed.

(** Stripping a text keeps its words. *)
Lemma split_strip s : split (strip s) = split s.
Proof. unfold strip. by rewrite split_rstrip, split_lstrip. Qed.

Lemma split_from_nil s : ∀ cur,
  split_from cur s = [] → cur = [] ∧ forallb is_space s = true.
Proof.
  induction s as [|c s IH]; intros cur H; simpl in H.
  - by destruct cur.
  - simpl. destruct (is_space c).
    + destruct cur; [|done]. by destruct (IH [] H).
    + destruct (IH _ H) as [Hcur _]. by destruct cur.
Qed.

(** A text is blank exactly when it has no word. *)
Lemma is_blank_split s : is_blank s = true ↔ split s = [].
Proof.
  unfold is_blank, split. split.
  - intros H. by rewrite <- (app_nil_l s), split_from_blank_tail.
  - intros H. by destruct (split_from_nil _ _ H).
Qed.

(** A text is blank exactly when nothing is left of it stripped: what the
    handler of the generation tests. *)
Lemma is_blank_strip s : is_blank s = true ↔ strip s = [].
Proof.
  rewrite is_blank_split, <- split_strip. split.
  - intros H. destruct (strip s) as [|c u] eqn:E; [done|].
    apply is_blank_split in H. unfold is_blank in H. simpl in H.
    apply andb_true_iff in H as [Hc _].
    pose proof (strip_idem s) as Hidem. rewrite E in Hidem.
    unfold strip in Hidem. simpl in Hidem. rewrite Hc in Hidem.
    assert (Hlen : ∀ t, (length (rstrip (lstrip t)) <= length t)%nat).
    { intros t. destruct (lstrip_split t) as (b1 & E1 & _).
      destruct (rstrip_split (lstrip t)) as (b2 & E2 & _).
      rewrite E1 at 2. rewrite E2 at 2. rewrite !length_app. lia. }
    specialize (Hlen u). rewrite Hidem in Hlen. simpl in Hlen. lia.
  - by intros ->.
Qed.

Lemma read_pages_ok pages : ∀ text result,
  read_pages pages text = Ok result →
  ∃ texts, pages = map Ok texts
           ∧ result = text ++ concat (map (default []) texts).
Proof.
  induction pages as [|page pages IH]; intros text result H; simpl in H.
  - simplify_eq. exists []. by rewrite app_nil_r.
  - destruct page as [extracted|e]; [|done]. simpl in H.
    destruct (IH _ _ H) as (texts & -> & ->).
    exists (extracted :: texts). simpl. by rewrite <- app_assoc.
Qed.

Lemma read_pages_raise pages : ∀ text e,
  read_pages pages text = Raise e → In (Raise e) pages.
Proof.
  induction pages as [|page pages IH]; intros text e H; simpl in H; [done|].
  destruct page as [extracted|e']; simpl in H.
  - right. by eapply IH.
  - left. by simplify_eq.
Qed.

Lemma extract_text_from_pdf_stripped pdf_open file_content text :
  extract_text_from_pdf pdf_open file_content = Extracted text →
  strip text = text.
Proof.
  unfold extract_text_from_pdf.
  destruct (pdf_open file_content) as [pages|e]; simpl; [|done].
  destruct (read_pages pages []) as [t|e]; simpl; [|done].
  intros ?; simplify_eq. apply strip_idem.
Qed.

(** X20. What the extraction gives is stripped text with the words of the
    pages' texts put end to end (a page without text counts for nothing);
    when the library fails to open the file or to read a page, the
    extraction is refused with status 400. *)
Theorem extract_text_from_pdf_outcome
    (pdf_open : list Byte.byte → result (list pdf_page))
    (file_content : list Byte.byte) :
  match extract_text_from_pdf pdf_open file_content with
  | Extracted text =>
      strip text = text
      ∧ ∃ texts,
          pdf_open file_content = Ok (map Ok texts)
          ∧ split text = split (concat (map (default []) texts))
  | PDFHTTPException status_code detail =>
      status_code = 400 ∧ detail = ExtractionFailed
      ∧ ∃ e, pdf_open file_content = Raise e
             ∨ ∃ pages, pdf_open file_content = Ok pages
                        ∧ In (Raise e) pages
  end.
Proof.
  unfold extract_text_from_pdf.
  destruct (pdf_open file_content) as [pages|e]; simpl;
    [|split_and!; try done; exists e; by left].
  destruct (read_pages pages []) as [text|e] eqn:E; simpl.
  - split; [apply strip_idem|].
    destruct (read_pages_ok _ _ _ E) as (texts & -> & ->).
    exists texts. split; [done|]. apply split_strip.
  - split_and!; try done. exists e. right. exists pages.
    split; [done|]. by eapply read_pages_raise.
Qed.

Lemma ends_with_spec suffix s :
  ends_with suffix s = true ↔ ∃ stem, s = stem ++ suffix.
Proof.
  unfold ends_with. rewrite starts_with_spec. split.
  - intros [r E]. exists (rev r).
    by rewrite <- (rev_involutive s), E, rev_app_distr, rev_involutive.
  - intros [stem ->]. exists (rev stem). by rewrite rev_app_distr.
Qed.

(** X21. An upload that succeeds was of a file named [*.pdf]; its text is
    not empty, is stripped and has at least one word; the number of pages
    reported is one for each 2048 bytes of the file, rounded down, and 1
    for a file of fewer than 2048 bytes. *)
Theorem upload_pdf_response
    (pdf_open : list Byte.byte → result (list pdf_page))
    (filename : pystr) (content : list Byte.byte) (response : PDFResponse) :
  upload_pdf pdf_open filename content = Extracted response →
  (∃ stem, filename = stem ++ py ".pdf")
  ∧ pdf_text response ≠ []
  ∧ strip (pdf_text response) = pdf_text response
  ∧ split (pdf_text response) ≠ []
  ∧ 1 <= pdf_pages response
  ∧ len content < 2048 * (pdf_pages response + 1)
  ∧ (2048 <= len content → 2048 * pdf_pages response <= len content)
  ∧ (len content < 2048 → pdf_pages response = 1).
Proof.
  unfold upload_pdf. intros H.
  destruct (ends_with (py ".pdf") filename) eqn:Ename; [|done].
  cbn [negb] in H.
  destruct (extract_text_from_pdf pdf_open content) as [text|] eqn:Etext;
    [|done].
  apply extract_text_from_pdf_stripped in Etext as Hstrip.
  destruct text as [|c text]; [done|]. simplify_eq. simpl.
  split_and!; try done.
  - by apply ends_with_spec.
  - intros Hsplit. apply is_blank_split, is_blank_strip in Hsplit.
    by rewrite Hstrip in Hsplit.
  - lia.
  - pose proof (Z.mod_pos_bound (len content) 2048 ltac:(lia)).
    pose proof (Z.div_mod (len content) 2048 ltac:(lia)). lia.
  - intros Hbig. pose proof (Z.mod_pos_bound (len content) 2048 ltac:(lia)).
    pose proof (Z.div_mod (len content) 2048 ltac:(lia)).
    assert (1 <= len content / 2048) by (apply Z.div_le_lower_bound; lia).
    lia.
  - intros Hsmall. pose proof (len_nonneg content).
    rewrite Z.div_small by lia. lia.
Qed.

Section UploadThenGenerate.

Variable sv : json → option pystr.
Variable interp : interpreter.
Variable service : nat → pystr → post_outcome.

(** X22. The text of a successful upload is never refused as empty: sent
    to the generation handler with a number of questions in 1..20 and a
    known difficulty, it gets as far as calling the generation service. *)
Theorem uploaded_text_is_accepted
    (pdf_open : list Byte.byte → result (list pdf_page))
    (filename : pystr) (content : list Byte.byte) (response : PDFResponse)
    (n_questions : Z) (difficulty : pystr) (log : list call)
    (r : result MCQResponse) :
  upload_pdf pdf_open filename content = Extracted response →
  1 <= n_questions <= 20 →
  difficulty ∈ [py "easy"; py "medium"; py "hard"] →
  generate_mcq sv interp service
    {| req_text := pdf_text response; req_n_questions := n_questions;
       req_difficulty := difficulty |} [] = (log, r) →
  log ≠ [].
Proof.
  intros Hup Hn Hd. unfold generate_mcq, io_lift.
  cbn [req_text req_n_questions req_difficulty].
  assert (Hblank : is_blank (pdf_text response) = false).
  { unfold upload_pdf in Hup.
    destruct (ends_with _ _); [|done]. cbn [negb] in Hup.
    destruct (extract_text_from_pdf pdf_open content) as [text|] eqn:Etext;
      [|done].
    apply extract_text_from_pdf_stripped in Etext.
    destruct text as [|c text]; [done|]. simplify_eq. simpl pdf_text.
    destruct (is_blank (c :: text)) eqn:E; [|done].
    apply is_blank_strip in E. by rewrite Etext in E. }
  rewrite Hblank.
  destruct (Z.ltb_spec n_questions 1); [lia|]. cbn [orb].
  destruct (Z.gtb_spec n_questions 20); [lia|].
  rewrite bool_decide_eq_true_2 by done. cbn [negb]. unfold io_bind.
  destruct (generate_mcqs_from_text _ _ _ _ _ _ _) as [log0 r0] eqn:E.
  apply generate_mcqs_from_text_calls in E; [|lia].
  destruct r0 as [[|m ms]|e]; unfold io_ret; intros ?; by simplify_eq.
Qed.

End UploadThenGenerate.

(** * Examples *)

(** ** The chunker *)

(** A budget of 4 characters: the long word is a chunk by itself. *)
Example chunk_text_long_word :
  chunk_text (py "ab cdefghij k") 1 = [py "ab"; py "cdefghij"; py "k"].
Proof. reflexivity. Qed.

Lemma chunk_text_budget_witness :
  split (py "ab cdefghij k") ≠ []
  ∧ (∃ gs : list (list pystr),
       chunk_text (py "ab cdefghij k") 1 = map (join space) gs
       ∧ concat gs = split (py "ab cdefghij k")
       ∧ Forall (fits 1) gs)
  ∧ (∀ chunk, chunk ∈ chunk_text (py "ab cdefghij k") 1 →
       len chunk <= 1 * 4
       ∨ (is_word chunk ∧ chunk ∈ split (py "ab cdefghij k")))
  ∧ (∀ word, word ∈ split (py "ab cdefghij k") → 1 * 4 < len word →
       word ∈ chunk_text (py "ab cdefghij k") 1).
Proof.
  split; [vm_compute; discriminate|].
  apply (chunk_text_budget (py "ab cdefghij k") 1). vm_compute. discriminate.
Defined.

(** C7 as stated fails on a text of five spaces with a budget of four
    characters: its only chunk is the text itself, which is longer than the
    budget and has no word in it. *)
Lemma chunk_text_blank_over_budget :
  0 < 1
  ∧ py "     " ∈ chunk_text (py "     ") 1
  ∧ ¬ (len (py "     ") <= 1 * 4)
  ∧ split (py "     ") = []
  ∧ ¬ is_word (py "     ").
Proof.
  split_and!; [lia|vm_compute; by left|vm_compute; by intros H| reflexivity|].
  intros [_ H]. by inversion H.
Qed.

Lemma chunk_text_substring_witness :
  py "cdefghij" ∈ chunk_text (py "ab cdefghij k") 1
  ∧ ((split (py "ab cdefghij k") = [] ∧ py "cdefghij" = py "ab cdefghij k")
     ∨ ((∃ before ws after,
           split (py "ab cdefghij k") = before ++ ws ++ after
           ∧ py "cdefghij" = join space ws)
        ∧ substring (py "cdefghij") (join space (split (py "ab cdefghij k"))))).
Proof.
  assert (H : py "cdefghij" ∈ chunk_text (py "ab cdefghij k") 1).
  { vm_compute. apply list_elem_of_In. simpl. tauto. }
  split; [exact H|].
  exact (chunk_text_substring (py "ab cdefghij k") 1 (py "cdefghij") H).
Defined.

(** C9 as stated fails when words are not separated by single spaces: the
    chunk of a text with two spaces between its words has one. *)
Lemma chunk_text_not_substring :
  py "a b" ∈ chunk_text (py "a  b") MAX_CHUNK_SIZE
  ∧ ¬ substring (py "a b") (py "a  b").
Proof.
  split; [vm_compute; by left|].
  intros H. apply is_substring_spec in H. vm_compute in H. discriminate.
Qed.

(** ** The response parser *)

(** The three examples of the specification. *)
Example extract_fenced :
  extract_json_from_response cpython
    (JString
       (pyq ("prefix ```json" ++ nl ++ "[{'a':1}]" ++ nl ++ "``` suffix")))
  = Ok (JArray [JObject [(py "a", JInt 1)]]).
Proof. vm_compute. reflexivity. Qed.

Example extract_plain :
  extract_json_from_response cpython (JString (pyq "[{'x':1},{'y':2}]"))
  = Ok (JArray [JObject [(py "x", JInt 1)]; JObject [(py "y", JInt 2)]]).
Proof. vm_compute. reflexivity. Qed.

Example extract_nothing :
  extract_json_from_response cpython (JString (py "no json here"))
  = Ok (JArray []).
Proof. vm_compute. reflexivity. Qed.

(** Nesting deeper than the interpreter has room for, and a reply that is
    not text. *)
Example extract_deep_nesting :
  extract_json_from_response cpython (JString deep_nesting)
  = Raise RecursionError.
Proof. vm_compute. reflexivity. Qed.

Example extract_not_text :
  extract_json_from_response cpython JNull = Raise TypeError
  ∧ extract_json_from_response cpython (JInt 7) = Raise TypeError
  ∧ extract_json_from_response cpython (JArray []) = Raise TypeError.
Proof. split_and!; reflexivity. Qed.

Lemma extract_json_from_response_strategies_witness :
  (∀ part items, substring part (py "no json here") →
     json_loads cpython part ≠ Ok (JArray items))
  ∧ (∀ part e, substring part (py "no json here") →
       json_loads cpython part = Raise e → e = JSONDecodeError)
  ∧ extract_json_from_response cpython (JString (py "no json here"))
    = Ok (JArray []).
Proof.
  assert (H1 : ∀ part items, substring part (py "no json here") →
               json_loads cpython part ≠ Ok (JArray items)).
  { intros part items (before & after & E) Hpart.
    apply json_loads_array_bracket in Hpart.
    assert (Hin : In 91%N (py "no json here")).
    { rewrite E. apply in_or_app. right. apply in_or_app. by left. }
    vm_compute in Hin. intuition discriminate. }
  assert (H2 : ∀ part e, substring part (py "no json here") →
               json_loads cpython part = Raise e → e = JSONDecodeError).
  { intros part e (before & after & E) Hpart.
    apply (f_equal (@length N)) in E. rewrite !length_app in E.
    change (length (py "no json here")) with 12%nat in E.
    apply (json_loads_within cpython part); [simpl; lia|lia|done]. }
  split; [exact H1|]. split; [exact H2|].
  exact (proj2 (proj2 (extract_json_from_response_strategies cpython
                         (py "no json here"))) H1 H2).
Defined.

(** C4 as stated fails on an integer of 4301 digits: no part of it decodes
    to a JSON array, and the function raises the [ValueError] of the integer
    conversion instead of returning the empty list. *)
Lemma extract_json_from_response_long_integer :
  (∀ part items, substring part long_integer →
     json_loads cpython part ≠ Ok (JArray items))
  ∧ extract_json_from_response cpython (JString long_integer)
    = Raise ValueError.
Proof.
  split; [|vm_compute; reflexivity].
  intros part items (before & after & E) Hpart.
  apply json_loads_array_bracket in Hpart.
  assert (Hin : 91%N ∈ long_integer).
  { rewrite E. apply list_elem_of_In.
    apply in_or_app. right. apply in_or_app. by left. }
  unfold long_integer in Hin. apply elem_of_replicate in Hin as [Hin _].
  discriminate Hin.
Qed.

(** ** The record validator *)

(** The examples of the specification: a record with no answer, with three
    options, with answer 4. *)
Example validate_mcq_missing_answer :
  validate_mcq text_only
    (JObject [(py "question", JString (py "Q?"));
              (py "options", JArray [JString []; JString []; JString [];
                                     JString []])])
  = None.
Proof. reflexivity. Qed.

Example validate_mcq_three_options :
  validate_mcq text_only
    (JObject [(py "question", JString (py "Q?"));
              (py "options", JArray [JString []; JString []; JString []]);
              (py "answer", JInt 0)])
  = None.
Proof. reflexivity. Qed.

Example validate_mcq_answer_four :
  validate_mcq text_only
    (JObject [(py "question", JString (py "Q?"));
              (py "options", JArray [JString []; JString []; JString [];
                                     JString []]);
              (py "answer", JInt 4)])
  = None.
Proof. reflexivity. Qed.

(** A record that is not an object. *)
Example validate_mcq_not_object :
  validate_mcq text_only (JString (py "question options answer")) = None
  ∧ validate_mcq text_only (JInt 3) = None
  ∧ validate_mcq text_only
      (JArray [JString (py "question"); JString (py "options");
               JString (py "answer")]) = None.
Proof. split_and!; reflexivity. Qed.

Lemma validate_mcq_accepts_witness :
  validate_mcq text_only no_explanation
  = Some {| question := py "Q?";
            options := [py "a"; py "b"; py "c"; py "d"];
            answer := 2; explanation := Some [] |}.
Proof.
  apply (proj2 (validate_mcq_accepts text_only no_explanation _)).
  eexists _, _, _, _, _, _, _, _.
  split_and!; try reflexivity; lia.
Defined.

(** C3 as stated fails on a record that meets the three conditions and
    whose question is [null]: the MCQ model refuses it and the validator
    returns [None]. *)
Lemma validate_mcq_rejects_null_question :
  required_fields_ok null_question
  ∧ validate_mcq text_only null_question = None.
Proof.
  split; [|reflexivity].
  eexists _, _, _, _, _. split_and!; try reflexivity; lia.
Qed.

Lemma validate_mcq_boolean_answer_witness :
  validate_mcq text_only
    (JObject [(py "question", JString (py "Q?"));
              (py "options", JArray [JString (py "a"); JString (py "b");
                                     JString (py "c"); JString (py "d")]);
              (py "answer", JBool true)])
  = Some {| question := py "Q?";
            options := [py "a"; py "b"; py "c"; py "d"];
            answer := 1; explanation := Some [] |}.
Proof.
  apply (validate_mcq_boolean_answer text_only _ (JString (py "Q?"))
           [JString (py "a"); JString (py "b"); JString (py "c");
            JString (py "d")] true); reflexivity.
Defined.

(** ** The orchestrator *)

(** Two questions asked, three valid records in the reply: two are kept. *)
Lemma generate_mcqs_from_text_cap_witness :
  ∃ log mcqs,
    generate_mcqs_from_text text_only cpython (always four_records)
      (py "some text") 2 (py "easy") [] = (log, Ok mcqs)
    ∧ 0 <= 2
    ∧ len mcqs <= 2.
Proof.
  eexists _, _. split; [vm_compute; reflexivity|]. split; [lia|].
  eapply (generate_mcqs_from_text_cap text_only cpython (always four_records)
            (py "some text") 2 (py "easy")); [lia|].
  vm_compute. reflexivity.
Defined.

(** Two chunks: the first call brings valid records, the second fails, and
    the run raises the client's error. *)
Lemma client_failure_is_terminal_witness :
  ∃ log r c0 c response mcq rest,
    generate_mcqs_from_text text_only cpython gone_after_first long_text 10
      (py "easy") [] = (log, r)
    ∧ log !! 0%nat = Some c0
    ∧ call_result c0 = Ok response
    ∧ collected text_only cpython 10 response [] = Ok (mcq :: rest)
    ∧ log !! 1%nat = Some c
    ∧ is_failure (gone_after_first 1 (call_prompt c))
    ∧ ∃ status_code detail,
        call_result c = Raise (HTTPException status_code detail)
        ∧ r = Raise (HTTPException status_code detail)
        ∧ 2%nat = length log.
Proof.
  eexists _, _, _, _, _, _, _.
  split; [vm_compute; reflexivity|].
  split; [reflexivity|]. split; [reflexivity|].
  split; [vm_compute; reflexivity|].
  split; [reflexivity|]. split; [exact I|].
  eapply (client_failure_is_terminal text_only cpython gone_after_first
            long_text 10 (py "easy") _ _ 1%nat).
  - vm_compute. reflexivity.
  - reflexivity.
  - exact I.
Defined.

(** A reply with status 200 whose body is not an object is a failure of
    the request too. *)
Example body_not_an_object :
  is_failure (Reply 200 (JArray []))
  ∧ call_ollama_generate (Reply 200 (JArray []))
    = Raise (HTTPException 500 OllamaError).
Proof. split; [by right|reflexivity]. Qed.

(** An empty array first, one record on the retry, three asked: one MCQ,
    two calls, the second of them the retry. *)
Example under_production :
  ∃ log mcq,
    generate_mcqs_from_text text_only cpython empty_then_one (py "some text")
      3 (py "easy") [] = (log, Ok [mcq])
    ∧ map call_site_of log = [FirstAttempt; RetryAttempt].
Proof. eexists _, _. split; [vm_compute; reflexivity|reflexivity]. Qed.

(** The same run: three are asked for, the first call is made, its reply
    leaves the list empty, and the retry is the second and last call. *)
Lemma single_bounded_retry_witness :
  ∃ log r,
    generate_mcqs_from_text text_only cpython empty_then_one (py "some text")
      3 (py "easy") [] = (log, r)
    ∧ 1 <= 3
    ∧ map call_site_of log = [FirstAttempt; RetryAttempt]
    ∧ (length (retries log) <= 1)%nat
    ∧ (∀ k c, log !! k = Some c → call_site_of c = RetryAttempt →
         k = 1%nat ∧ call_chunk c = O
         ∧ ∃ c0 response,
             log !! 0%nat = Some c0
             ∧ call_site_of c0 = FirstAttempt ∧ call_chunk c0 = O
             ∧ call_result c0 = Ok response
             ∧ collected text_only cpython 3 response [] = Ok []
             ∧ call_prompt c = call_prompt c0 ++ retry_instruction)
    ∧ (∀ c0 response,
         log !! 0%nat = Some c0 → call_result c0 = Ok response →
         collected text_only cpython 3 response [] = Ok [] →
         ∃ c, log !! 1%nat = Some c
              ∧ call_site_of c = RetryAttempt ∧ call_chunk c = O)
    ∧ (1 <= 3 →
       ∃ c0,
         log !! 0%nat = Some c0
         ∧ call_site_of c0 = FirstAttempt ∧ call_chunk c0 = O
         ∧ call_result c0
           = call_ollama_generate (empty_then_one 0%nat (call_prompt c0))
         ∧ ∀ response,
             call_ollama_generate (empty_then_one 0%nat (call_prompt c0))
             = Ok response →
             collected text_only cpython 3 response [] = Ok [] →
             ∃ c, log !! 1%nat = Some c
                  ∧ call_site_of c = RetryAttempt ∧ call_chunk c = O
                  ∧ call_prompt c = call_prompt c0 ++ retry_instruction
                  ∧ call_result c
                    = call_ollama_generate
                        (empty_then_one 1%nat (call_prompt c))).
Proof.
  eexists _, _. split; [vm_compute; reflexivity|].
  split; [lia|]. split; [reflexivity|].
  eapply (single_bounded_retry text_only cpython empty_then_one
            (py "some text") 3 (py "easy")).
  vm_compute. reflexivity.
Defined.

(** A reply the interpreter refuses to decode, and one that is not text,
    end the run with the parser's error. *)
Example run_stopped_by_long_integer :
  ∃ c,
    generate_mcqs_from_text text_only cpython (answering long_integer)
      (py "some text") 3 (py "easy") [] = ([c], Raise ValueError)
    ∧ call_result c = Ok (JString long_integer).
Proof. eexists. split; [vm_compute; reflexivity|reflexivity]. Qed.

Example run_stopped_by_null :
  ∃ c,
    generate_mcqs_from_text text_only cpython answering_null
      (py "some text") 3 (py "easy") [] = ([c], Raise TypeError)
    ∧ call_result c = Ok JNull.
Proof. eexists. split; [vm_compute; reflexivity|reflexivity]. Qed.

Lemma generated_mcqs_well_shaped_witness :
  ∃ log mcqs,
    generate_mcqs_from_text text_only cpython (always four_records)
      (py "some text") 5 (py "easy") [] = (log, Ok mcqs)
    ∧ map question mcqs = [py "Q1?"; py "Q2?"; py "Q4?"]
    ∧ Forall well_shaped mcqs
    ∧ ∀ m, m ∈ mcqs →
        ∃ c response items pairs q,
          c ∈ log
          ∧ call_result c = Ok response
          ∧ extract_json_from_response cpython response = Ok (JArray items)
          ∧ JObject pairs ∈ items
          ∧ dict_get (py "question") pairs = Some q
          ∧ text_only q = Some (question m).
Proof.
  eexists _, _. split; [vm_compute; reflexivity|]. split; [reflexivity|].
  eapply (generated_mcqs_well_shaped text_only cpython (always four_records)
            (py "some text") 5 (py "easy")).
  vm_compute. reflexivity.
Defined.

(** C8 as stated fails on a reply whose record has an empty question: the
    record is valid and the MCQ is returned with its empty question. *)
Lemma generated_mcq_empty_question :
  ∃ log mcq,
    generate_mcqs_from_text text_only cpython (always empty_question)
      (py "some text") 1 (py "easy") [] = (log, Ok [mcq])
    ∧ question mcq = [].
Proof. eexists _, _. split; [vm_compute; reflexivity|reflexivity]. Qed.

(** ** Further examples *)

(** *** The chunker *)

Lemma chunk_text_single_chunk_witness :
  split (py "ab  cdefghij k") ≠ []
  ∧ len (join space (split (py "ab  cdefghij k"))) < 10 * 4
  ∧ chunk_text (py "ab  cdefghij k") 10
    = [join space (split (py "ab  cdefghij k"))].
Proof.
  split; [vm_compute; discriminate|]. split; [vm_compute; reflexivity|].
  apply (chunk_text_single_chunk (py "ab  cdefghij k") 10).
  - vm_compute. discriminate.
  - vm_compute. reflexivity.
Defined.

Lemma chunk_text_no_budget_witness :
  split (py "ab cdefghij k") ≠ []
  ∧ -1 <= 0
  ∧ chunk_text (py "ab cdefghij k") (-1) = split (py "ab cdefghij k").
Proof.
  split; [vm_compute; discriminate|]. split; [lia|].
  apply (chunk_text_no_budget (py "ab cdefghij k") (-1)).
  - vm_compute. discriminate.
  - lia.
Defined.

Lemma chunk_text_normalised_witness :
  split (py "ab cdefghij k") ≠ []
  ∧ (∀ chunk, chunk ∈ chunk_text (py "ab cdefghij k") 1 →
       chunk ≠ [] ∧ join space (split chunk) = chunk)
  ∧ (length (chunk_text (py "ab cdefghij k") 1)
     <= length (split (py "ab cdefghij k")))%nat.
Proof.
  split; [vm_compute; discriminate|].
  apply (chunk_text_normalised (py "ab cdefghij k") 1).
  vm_compute. discriminate.
Defined.

(** Four words, a budget of 8 characters: two chunks of two words. *)
Lemma chunk_text_greedy_witness :
  split (py "ab cd ef gh") ≠ []
  ∧ chunk_text (py "ab cd ef gh") 2 = [py "ab cd"; py "ef gh"]
  ∧ ∃ gs : list (list pystr),
      chunk_text (py "ab cd ef gh") 2 = map (join space) gs
      ∧ concat gs = split (py "ab cd ef gh")
      ∧ ∀ i g w g', gs !! i = Some g → gs !! S i = Some (w :: g') →
          2 * 4 < len (join space g) + 1 + (len w + 1).
Proof.
  split; [vm_compute; discriminate|]. split; [reflexivity|].
  apply (chunk_text_greedy (py "ab cd ef gh") 2).
  vm_compute. discriminate.
Defined.

(** *** The response parser *)

(** No bracket, and the decoder finds the text malformed: the empty
    list. *)
Lemma extract_json_from_response_no_bracket_witness :
  ¬ In 91%N (py "no json here")
  ∧ json_loads cpython (py "no json here") = Raise JSONDecodeError
  ∧ extract_json_from_response cpython (JString (py "no json here"))
    = Ok (JArray []).
Proof.
  assert (H : ¬ In 91%N (py "no json here")).
  { vm_compute. intuition discriminate. }
  assert (Hloads : json_loads cpython (py "no json here")
                   = Raise JSONDecodeError) by (vm_compute; reflexivity).
  split; [exact H|]. split; [exact Hloads|].
  apply (proj2 (extract_json_from_response_no_bracket cpython
                  (py "no json here") H)).
  intros e He. rewrite Hloads in He. by injection He as <-.
Defined.

(** No bracket either, and the interpreter stops the decoder. *)
Example extract_no_bracket_stopped :
  ¬ In 91%N deep_nesting
  ∧ extract_json_from_response cpython (JString deep_nesting)
    = Raise RecursionError.
Proof.
  split; [|vm_compute; reflexivity].
  unfold deep_nesting. intros H. apply in_concat in H as (x & Hx & H).
  apply list_elem_of_In, elem_of_replicate in Hx as [-> _].
  vm_compute in H. intuition discriminate.
Qed.

Lemma extract_json_from_response_in_prose_witness :
  ¬ In 91%N (py "Here: ")
  ∧ ¬ In 93%N (py " done")
  ∧ ¬ In 96%N (py "Here: " ++ 91%N :: pyq "{'a':1}" ++ 93%N :: py " done")
  ∧ json_loads cpython (91%N :: pyq "{'a':1}" ++ [93%N])
    = Ok (JArray [JObject [(py "a", JInt 1)]])
  ∧ extract_json_from_response cpython
      (JString (py "Here: " ++ 91%N :: pyq "{'a':1}" ++ 93%N :: py " done"))
    = Ok (JArray [JObject [(py "a", JInt 1)]]).
Proof.
  assert (H1 : ¬ In 91%N (py "Here: ")).
  { vm_compute. intuition discriminate. }
  assert (H2 : ¬ In 93%N (py " done")).
  { vm_compute. intuition discriminate. }
  assert (H3 : ¬ In 96%N (py "Here: " ++ 91%N :: pyq "{'a':1}"
                          ++ 93%N :: py " done")).
  { vm_compute. intuition discriminate. }
  assert (H4 : json_loads cpython (91%N :: pyq "{'a':1}" ++ [93%N])
               = Ok (JArray [JObject [(py "a", JInt 1)]])).
  { vm_compute. reflexivity. }
  split_and!; [exact H1|exact H2|exact H3|exact H4|].
  etransitivity;
    [exact (extract_json_from_response_in_prose cpython (py "Here: ")
              (pyq "{'a':1}") (py " done") _ H1 H2 H3 H4)|].
  vm_compute. reflexivity.
Defined.

(** *** The record validator *)

Lemma validate_mcq_rejects_witness :
  ¬ required_fields_ok three_options
  ∧ validate_mcq text_only three_options = None.
Proof.
  assert (H : ¬ required_fields_ok three_options).
  { intros (pairs & q & items & ans & a & E & _ & Eo & Hlen & _).
    injection E as <-. vm_compute in Eo. injection Eo as <-.
    discriminate Hlen. }
  split; [exact H|].
  exact (validate_mcq_rejects text_only three_options H).
Defined.

Lemma validate_mcq_other_keys_witness :
  (∀ key, key ∈ [py "question"; py "options"; py "answer"; py "explanation"] →
     dict_get key more_keys
     = dict_get key [(py "question", JString (py "Q?"));
                     (py "options", JArray [JString (py "a"); JString (py "b");
                                            JString (py "c"); JString (py "d")]);
                     (py "answer", JInt 2)])
  ∧ validate_mcq text_only (JObject more_keys)
    = validate_mcq text_only no_explanation.
Proof.
  assert (H : ∀ key,
            key ∈ [py "question"; py "options"; py "answer";
                   py "explanation"] →
            dict_get key more_keys
            = dict_get key
                [(py "question", JString (py "Q?"));
                 (py "options", JArray [JString (py "a"); JString (py "b");
                                        JString (py "c"); JString (py "d")]);
                 (py "answer", JInt 2)]).
  { intros key Hkey. apply list_elem_of_In in Hkey. simpl in Hkey.
    destruct Hkey as [<-|[<-|[<-|[<-|[]]]]]; vm_compute; reflexivity. }
  split; [exact H|].
  exact (validate_mcq_other_keys text_only more_keys _ H).
Defined.

(** *** The orchestrator *)

(** Two asked, nothing collected yet: the first two of the three valid
    records of the reply are taken. *)
Lemma collected_appends_witness :
  ∃ items,
    extract_json_from_response cpython (JString (pyq four_records))
    = Ok (JArray items)
    ∧ length (valid_records text_only items) = 3%nat
    ∧ collected text_only cpython 2 (JString (pyq four_records)) []
      = Ok ([] ++ take (Z.to_nat (2 - len (@nil MCQ)))
                       (valid_records text_only items)).
Proof.
  eexists. split; [vm_compute; reflexivity|]. split; [reflexivity|].
  apply (collected_appends text_only cpython 2 (JString (pyq four_records))).
  vm_compute. reflexivity.
Defined.

Lemma generate_mcqs_from_text_none_asked_witness :
  0 <= 0
  ∧ generate_mcqs_from_text text_only cpython (always four_records)
      (py "some text") 0 (py "easy") []
    = ([], Ok []).
Proof.
  split; [lia|].
  apply (generate_mcqs_from_text_none_asked text_only cpython
           (always four_records) (py "some text") 0 (py "easy")).
  lia.
Defined.


Lemma generate_mcqs_from_text_prompts_witness :
  ∃ log r c,
    generate_mcqs_from_text text_only cpython empty_then_one (py "some text")
      3 (py "easy") [] = (log, r)
    ∧ log !! 1%nat = Some c
    ∧ is_retry c = true
    ∧ ∃ k chunk,
        chunk_text (py "some text") MAX_CHUNK_SIZE !! call_chunk c
        = Some chunk
        ∧ 1 <= k <= 5 ∧ k <= 3
        ∧ call_prompt c
          = format_prompt k (py "easy") (take 3000 chunk)
            ++ (if is_retry c then retry_instruction else []).
Proof.
  eexists _, _, _. split; [vm_compute; reflexivity|].
  split; [reflexivity|]. split; [reflexivity|].
  eapply (generate_mcqs_from_text_prompts text_only cpython empty_then_one
            (py "some text") 3 (py "easy")).
  - vm_compute. reflexivity.
  - apply list_elem_of_In. simpl. right. left. reflexivity.
Defined.

Lemma generate_mcqs_from_text_call_count_witness :
  ∃ log r,
    generate_mcqs_from_text text_only cpython empty_then_one (py "some text")
      3 (py "easy") [] = (log, r)
    ∧ length log = 2%nat
    ∧ (length log
       <= length (chunk_text (py "some text") MAX_CHUNK_SIZE) + 1)%nat.
Proof.
  eexists _, _. split; [vm_compute; reflexivity|]. split; [reflexivity|].
  eapply (generate_mcqs_from_text_call_count text_only cpython empty_then_one
            (py "some text") 3 (py "easy")).
  vm_compute. reflexivity.
Defined.

Lemma generate_mcqs_from_text_provenance_witness :
  ∃ log mcqs m,
    generate_mcqs_from_text text_only cpython (always four_records)
      (py "some text") 2 (py "easy") [] = (log, Ok mcqs)
    ∧ mcqs !! 1%nat = Some m
    ∧ ∃ c response items d,
        c ∈ log
        ∧ call_result c = Ok response
        ∧ extract_json_from_response cpython response = Ok (JArray items)
        ∧ d ∈ items
        ∧ validate_mcq text_only d = Some m.
Proof.
  eexists _, _, _. split; [vm_compute; reflexivity|]. split; [reflexivity|].
  eapply (generate_mcqs_from_text_provenance text_only cpython
            (always four_records) (py "some text") 2 (py "easy")).
  - vm_compute. reflexivity.
  - apply list_elem_of_In. simpl. right. left. reflexivity.
Defined.

Lemma generate_mcqs_from_text_first_reply_witness :
  ∃ items,
    (∀ prompt,
       call_ollama_generate (always four_records O prompt)
       = Ok (JString (pyq four_records)))
    ∧ extract_json_from_response cpython (JString (pyq four_records))
      = Ok (JArray items)
    ∧ 1 <= 2 <= len (valid_records text_only items)
    ∧ ∃ c,
        generate_mcqs_from_text text_only cpython (always four_records)
          (py "some text") 2 (py "easy") []
        = ([c], Ok (take (Z.to_nat 2) (valid_records text_only items)))
        ∧ call_site_of c = FirstAttempt
        ∧ call_result c = Ok (JString (pyq four_records)).
Proof.
  eexists. split; [reflexivity|]. split; [vm_compute; reflexivity|].
  split; [vm_compute; split; discriminate|].
  apply (generate_mcqs_from_text_first_reply text_only cpython
           (always four_records) (py "some text") 2 (py "easy")
           (JString (pyq four_records))).
  - reflexivity.
  - vm_compute. reflexivity.
  - vm_compute. split; discriminate.
Defined.

(** *** The handler *)

Lemma generate_mcq_refuses_witness :
  21 = req_n_questions
         {| req_text := py "some text"; req_n_questions := 21;
            req_difficulty := py "easy" |}
  ∧ ∃ detail,
      generate_mcq text_only cpython (always four_records)
        {| req_text := py "some text"; req_n_questions := 21;
           req_difficulty := py "easy" |} []
      = ([], Raise (HTTPException 400 detail)).
Proof.
  split; [reflexivity|].
  apply (generate_mcq_refuses text_only cpython (always four_records)
           {| req_text := py "some text"; req_n_questions := 21;
              req_difficulty := py "easy" |}).
  right. right. left. simpl. lia.
Defined.

Lemma generate_mcq_outcome_witness :
  ∃ log response,
    generate_mcq text_only cpython (always four_records)
      {| req_text := py "some text"; req_n_questions := 2;
         req_difficulty := py "easy" |} [] = (log, Ok response)
    ∧ 1 <= len (mcqs response) <= 2
    ∧ 2 <= 20
    ∧ Forall well_shaped (mcqs response)
    ∧ is_blank (py "some text") = false
    ∧ py "easy" ∈ [py "easy"; py "medium"; py "hard"]
    ∧ log ≠ [].
Proof.
  eexists _, _. split; [vm_compute; reflexivity|].
  eapply (generate_mcq_outcome text_only cpython (always four_records)
            {| req_text := py "some text"; req_n_questions := 2;
               req_difficulty := py "easy" |} _ (Ok _)).
  vm_compute. reflexivity.
Defined.

(** The handler lets the parser's error through. *)
Example generate_mcq_stopped_by_null :
  ∃ c,
    generate_mcq text_only cpython answering_null
      {| req_text := py "some text"; req_n_questions := 2;
         req_difficulty := py "easy" |} [] = ([c], Raise TypeError).
Proof. eexists. vm_compute. reflexivity. Qed.

(** *** The upload *)

(** The text of the pages is put end to end and stripped; 5000 bytes count
    for two pages. *)
Lemma upload_pdf_response_witness :
  upload_pdf three_pages (py "notes.pdf") five_thousand_bytes
  = Extracted {| pdf_text := py "Hello world and more"; pdf_pages := 2 |}
  ∧ (∃ stem, py "notes.pdf" = stem ++ py ".pdf")
  ∧ py "Hello world and more" ≠ []
  ∧ strip (py "Hello world and more") = py "Hello world and more"
  ∧ split (py "Hello world and more") ≠ []
  ∧ 1 <= 2
  ∧ len five_thousand_bytes < 2048 * (2 + 1)
  ∧ (2048 <= len five_thousand_bytes → 2048 * 2 <= len five_thousand_bytes)
  ∧ (len five_thousand_bytes < 2048 → 2 = 1).
Proof.
  split; [vm_compute; reflexivity|].
  apply (upload_pdf_response three_pages (py "notes.pdf") five_thousand_bytes
           {| pdf_text := py "Hello world and more"; pdf_pages := 2 |}).
  vm_compute. reflexivity.
Defined.

Lemma uploaded_text_is_accepted_witness :
  ∃ response log r,
    upload_pdf three_pages (py "notes.pdf") five_thousand_bytes
    = Extracted response
    ∧ 1 <= 2 <= 20
    ∧ py "easy" ∈ [py "easy"; py "medium"; py "hard"]
    ∧ generate_mcq text_only cpython (always four_records)
        {| req_text := pdf_text response; req_n_questions := 2;
           req_difficulty := py "easy" |} [] = (log, r)
    ∧ log ≠ [].
Proof.
  assert (Hd : py "easy" ∈ [py "easy"; py "medium"; py "hard"]).
  { apply list_elem_of_In. simpl. left. reflexivity. }
  eexists _, _, _. split; [vm_compute; reflexivity|].
  split; [lia|]. split; [exact Hd|]. split; [vm_compute; reflexivity|].
  eapply (uploaded_text_is_accepted text_only cpython (always four_records)
            three_pages (py "notes.pdf") five_thousand_bytes _ 2 (py "easy")).
  - vm_compute. reflexivity.
  - lia.
  - exact Hd.
  - vm_compute. reflexivity.
Defined.
